(** * DFIR Copilot: the chunking pipeline and the configuration handler

    A shallow embedding of [bin/llmhandler.py] (the streaming search
    command) and [bin/dfircopilot_config_handler.py] (the REST
    configuration handler), with the properties of the specification
    stated over it.

    Conventions.
    - A Python [str] is a sequence of Unicode code points: [list N].
    - Python dictionaries whose iteration order matters (input events) are
      association lists; dictionaries that are only looked up are [gmap]s.
    - The outside world (the Ollama server, the host clock, the file
      system) is an explicit parameter or an explicit state that the
      functions thread, in the order the Python code performs its effects.
    - A Python exception is a value: a function that can raise returns a
      sum whose left side carries the exception. *)

From Stdlib Require Import ZArith NArith List String Ascii Lia DecimalString.
From stdpp Require Import base list sorting lexico gmap.

Set Warnings "-register-all".
Local Open Scope N_scope.

(** ** Python strings *)

Definition str := list N.

(** A string literal of the source, as code points. *)
Definition lit (s : string) : str := N_of_ascii <$> list_ascii_of_string s.
Arguments lit s%_string.

(** ["\n"] and the double quote, which a literal cannot hold. *)
Definition nl : str := [10].
Definition dquote : str := [34].

(** [str(n)] for a non-negative and for an arbitrary Python int. *)
Definition str_of_nat (n : nat) : str := lit (NilEmpty.string_of_uint (Nat.to_uint n)).
Definition str_of_Z (z : Z) : str := lit (NilZero.string_of_int (Z.to_int z)).

(** Truthiness of a string: [if s:]. *)
Definition truthy (s : str) : bool :=
  match s with [] => false | _ :: _ => true end.

(** [c.isspace()] for a code point, as CPython's [_PyUnicode_IsWhitespace]. *)
Definition isspace (c : N) : bool :=
  ((9 <=? c) && (c <=? 13)) || ((28 <=? c) && (c <=? 32))
  || (c =? 133) || (c =? 160) || (c =? 5760)
  || ((8192 <=? c) && (c <=? 8202))
  || (c =? 8232) || (c =? 8233) || (c =? 8239) || (c =? 8287) || (c =? 12288).

(** [s.lstrip()] and [s.strip()]. *)
Fixpoint lstrip (s : str) : str :=
  match s with
  | [] => []
  | c :: s' => if isspace c then lstrip s' else s
  end.

Definition strip (s : str) : str := reverse (lstrip (reverse (lstrip s))).

(** [s.startswith(p)]. *)
Fixpoint startswith (p s : str) : bool :=
  match p, s with
  | [], _ => true
  | _ :: _, [] => false
  | a :: p', b :: s' => (a =? b) && startswith p' s'
  end.

(** [p in s]: [p] occurs in [s] as a contiguous run. *)
Fixpoint contains (p s : str) : bool :=
  startswith p s || match s with [] => false | _ :: s' => contains p s' end.

(** [s.split(sep)] for a one-character separator: never the empty list. *)
Fixpoint split (sep : N) (s : str) : list str :=
  match s with
  | [] => [[]]
  | c :: s' =>
      if c =? sep then [] :: split sep s'
      else match split sep s' with
           | [] => [[c]]
           | l :: ls => (c :: l) :: ls
           end
  end.

(** [sep.join(parts)]. *)
Fixpoint join (sep : str) (parts : list str) : str :=
  match parts with
  | [] => []
  | [p] => p
  | p :: ps => p ++ sep ++ join sep ps
  end.

(** ** llmhandler.py: [_extract_summary] *)

(** ['Summary' in s or 'SUMMARY' in s]. *)
Definition has_marker (s : str) : bool :=
  contains (lit "Summary") s || contains (lit "SUMMARY") s.

(** The [for line in lines] loop of [_extract_summary]: [continue] on a
    marker line, [break] once more than five lines are collected. *)
Fixpoint scan_lines (lines : list str) (in_summary : bool) (summary_lines : list str)
  : list str :=
  match lines with
  | [] => summary_lines
  | line :: rest =>
      if has_marker line then scan_lines rest true summary_lines
      else if in_summary then
        let summary_lines' :=
          if truthy (strip line) && negb (startswith (lit "#") line)
          then summary_lines ++ [strip line] else summary_lines in
        if (5 <? length summary_lines')%nat then summary_lines'
        else scan_lines rest in_summary summary_lines'
      else scan_lines rest in_summary summary_lines
  end.

(** [_extract_summary(response)]. On a [str] no operation of the body
    raises, so the [except] branch is not reached. *)
Definition _extract_summary (response : str) : str :=
  if has_marker response
  then join (lit " ") (scan_lines (split 10 response) false [])
  else strip (take 200 response).

(** ** llmhandler.py: [_format_events] *)

(** An input record: the ordered mapping from field name to value that the
    host hands over, in insertion order. A dictionary holds a key once:
    the statements about events assume [NoDup (event.*1)]. *)
Definition Event := list (str * str).

(** [key in event] and [event[key]]. *)
Definition dict_get (key : str) (event : Event) : option str :=
  (list_to_map event : gmap str str) !! key.

(** The order of [sorted] on [(key, value)] tuples: Python compares tuples
    lexicographically and strings code point by code point. *)
Definition tuple_le (a b : str * str) : Prop := a = b \/ lexico a b.

#[global] Instance tuple_le_dec : RelDecision tuple_le.
Proof. intros a b. unfold tuple_le. apply _. Defined.

(** [sorted(event.items())]. *)
Definition sorted (items : list (str * str)) : list (str * str) :=
  merge_sort tuple_le items.

(** [not key.startswith('_') or key in ['_time', '_raw']]. *)
Definition field_kept (key : str) : bool :=
  negb (startswith (lit "_") key)
  || bool_decide (key = lit "_time") || bool_decide (key = lit "_raw").

(** The fields of an event that are rendered, in rendering order. *)
Definition rendered_fields (event : Event) : list (str * str) :=
  filter (fun kv => field_kept kv.1 = true) (sorted event).

(** The text block of one event: the body of the [enumerate] loop. *)
Definition format_event (idx : nat) (event : Event) : str :=
  (lit "Event " ++ str_of_nat idx ++ lit ":" ++ nl)
  ++ match dict_get (lit "_time") event with
     | Some t => lit "  Timestamp: " ++ t ++ nl
     | None => []
     end
  ++ concat ((fun kv => lit "  " ++ kv.1 ++ lit ": " ++ kv.2 ++ nl) <$> rendered_fields event).

(** [_format_events(events)]: events are numbered from 1. *)
Definition _format_events (events : list Event) : str :=
  join nl (imap (fun i event => format_event (S i) event) events).

(** ** llmhandler.py: options, configuration and [_build_prompt] *)

(** The options of the search command. [chunk_size] is the integer the
    command line supplied; an unset [model], [analysis_mode], [max_tokens]
    or [temperature] is [None]. A temperature is a float, given by its
    mantissa and decimal exponent: [(m, e)] is [m * 10 ^ e]. *)
Record Options := {
  prompt : str;
  model : option str;
  chunk_size : Z;
  analysis_mode : option str;
  max_tokens : option Z;
  temperature : option (Z * Z)
}.

(** [validators.Integer(minimum=1, maximum=1000)] of the [chunk_size]
    option: the host runs it before [stream] and refuses the search when
    it fails. *)
Definition chunk_size_validator (v : Z) : bool := ((1 <=? v) && (v <=? 1000))%Z.

(** The dictionary [_load_config] returns, read through the lookups the
    pipeline makes. [_load_config] gives every key a default, so the
    defaults of [config.get] never apply. The three numeric settings are
    held as [_load_config] hands them over, before any conversion: the
    number of the default ([inl]), or the string that a line of the file
    gave ([inr]), which nothing has validated. *)
Record Config := {
  cfg_endpoint : str;
  cfg_model : str;
  cfg_system_prompt : str;
  cfg_analysis_mode : str;
  cfg_temperature : (Z * Z) + str;
  cfg_max_tokens : Z + str;
  cfg_timeout : Z + str
}.

(** [x or y] on an optional string. *)
Definition or_else (x : option str) (y : str) : str :=
  match x with
  | Some s => if truthy s then s else y
  | None => y
  end.

(** [mode_instructions.get(analysis_mode, '')]. *)
Definition mode_instructions (mode : str) : str :=
  if decide (mode = lit "summary") then
    lit "Provide a concise summary of key findings."
  else if decide (mode = lit "detailed") then
    lit "Provide detailed analysis of each significant event."
  else if decide (mode = lit "forensic") then
    lit "Focus on forensic artifacts, timeline reconstruction, and evidence preservation. Identify potential indicators of compromise."
  else if decide (mode = lit "threat_intelligence") then
    lit "Focus on threat actor TTPs, IOCs, and attribution indicators."
  else [].

(** The heading that opens the carried-over context of chunk [chunk_number]. *)
Definition previous_context_heading (chunk_number : nat) : str :=
  nl ++ nl ++ lit "Previous Analysis Context (Chunk " ++ str_of_nat (chunk_number - 1) ++ lit "):".

(** [previous_summary and chunk_number > 1]. *)
Definition carries_context (chunk_number : nat) (previous_summary : option str) : bool :=
  match previous_summary with
  | Some s => truthy s && (1 <? chunk_number)%nat
  | None => false
  end.

(** The list [prompt_parts] of [_build_prompt], before it is joined. *)
Definition prompt_parts (opts : Options) (config : Config) (formatted_events : str)
    (chunk_number : nat) (previous_summary : option str) : list str :=
  let system_prompt := cfg_system_prompt config in
  let mode := or_else (analysis_mode opts) (cfg_analysis_mode config) in
  [ lit "System: " ++ system_prompt;
    nl ++ lit "Analysis Mode: " ++ mode;
    nl ++ mode_instructions mode;
    nl ++ lit "User Question: " ++ prompt opts ]
  ++ (if carries_context chunk_number previous_summary
      then [ previous_context_heading chunk_number;
             default [] previous_summary;
             nl ++ nl ++ lit "Now analyzing Chunk " ++ str_of_nat chunk_number ++ lit ":" ]
      else [ nl ++ nl ++ lit "Analyzing Chunk " ++ str_of_nat chunk_number ++ lit ":" ])
  ++ [ nl ++ nl ++ formatted_events;
       nl ++ nl ++ lit "Provide your analysis in a structured format:";
       lit "1. Key Findings";
       lit "2. Anomalies & IOCs";
       lit "3. Investigation Recommendations";
       lit "4. Summary (concise overview for context carryover)" ].

(** [_build_prompt(formatted_events, chunk_number, previous_summary, config)]. *)
Definition _build_prompt (opts : Options) (config : Config) (formatted_events : str)
    (chunk_number : nat) (previous_summary : option str) : str :=
  join nl (prompt_parts opts config formatted_events chunk_number previous_summary).

(** ** llmhandler.py: the Ollama call *)

(** One [requests.post(url, json=payload, timeout=timeout)]. The [stream]
    and [options] entries of the payload are the same in every call of a
    run and are left out. *)
Record Request := {
  url : str;
  payload_model : str;
  payload_prompt : str;
  timeout : Z
}.

(** What a POST comes to, through [raise_for_status()], [json()] and
    [result.get('response', ...)]: an exception of [requests] (a timeout,
    a connection error, any other [RequestException] [e], with its
    [str(e)]), another exception, or a decoded body with its ['response']
    entry when it has one. *)
Inductive PostOutcome :=
  | Timeout
  | ConnectionError
  | RequestException (e : str)
  | OtherError (e : str)
  | Response200 (response : option str).

(** The world outside the command: the server's answer to the [i]-th POST
    of a run (counted from 0), the host clock at its [i]-th reading, and
    the interpreter's [int(s)] and [float(s)] on a string. [int_of_str s]
    is the integer, or the text of the [ValueError] that [int(s)] raises;
    [float_error s] is the text of the [ValueError] that [float(s)]
    raises, [None] when [s] converts (the float itself goes into the
    payload and nowhere else). Which strings convert is the
    interpreter's business and is left open. *)
Record World := {
  requests_post : nat -> Request -> PostOutcome;
  time_time : nat -> Z;
  int_of_str : str -> str + Z;
  float_error : str -> option str
}.

(** The effects of a run so far: the POSTs made, oldest first, and the
    number of clock readings. *)
Record Host := {
  posts : list Request;
  ticks : nat
}.

Definition init_host : Host := {| posts := []; ticks := 0 |}.

(** [int(x)] for an int or a string, and what [float(x)] raises for a
    float or a string: a number converts to itself. *)
Definition py_int (w : World) (x : Z + str) : str + Z :=
  match x with
  | inl z => inr z
  | inr s => int_of_str w s
  end.

Definition py_float_error (w : World) (x : (Z * Z) + str) : option str :=
  match x with
  | inl _ => None
  | inr s => float_error w s
  end.

(** [self.max_tokens or config.get('max_tokens', 2000)] and
    [self.temperature or config.get('temperature', 0.7)]: an option that
    is unset or zero gives way to the setting. *)
Definition max_tokens_or (x : option Z) (y : Z + str) : Z + str :=
  match x with
  | Some z => if (z =? 0)%Z then y else inl z
  | None => y
  end.

Definition temperature_or (x : option (Z * Z)) (y : (Z * Z) + str) : (Z * Z) + str :=
  match x with
  | Some (m, e) => if (m =? 0)%Z then y else inl (m, e)
  | None => y
  end.

(** [_call_ollama(endpoint, model, prompt, config)]. The payload and the
    timeout are built first, outside the [try]: a [float(...)] or
    [int(...)] that raises ends the call with its [ValueError] before
    anything is sent. Otherwise one POST is made, whose exceptions are
    raised again as [Exception(message)]. The left side of the result is
    the message of the exception the call ends with. *)
Definition _call_ollama (w : World) (opts : Options) (config : Config)
    (endpoint model_name prompt_text : str) (h : Host) : (str + str) * Host :=
  match py_float_error w (temperature_or (temperature opts) (cfg_temperature config)) with
  | Some e => (inl e, h)
  | None =>
      match py_int w (max_tokens_or (max_tokens opts) (cfg_max_tokens config)) with
      | inl e => (inl e, h)
      | inr _ =>
          match py_int w (cfg_timeout config) with
          | inl e => (inl e, h)
          | inr seconds =>
              let request := {| url := endpoint ++ lit "/api/generate";
                                payload_model := model_name;
                                payload_prompt := prompt_text;
                                timeout := seconds |} in
              let h' := {| posts := posts h ++ [request]; ticks := ticks h |} in
              match requests_post w (length (posts h)) request with
              | Response200 response =>
                  (inr (default (lit "No response generated") response), h')
              | Timeout =>
                  (inl (lit "Request to LLM timed out after " ++ str_of_Z seconds
                        ++ lit " seconds"), h')
              | ConnectionError =>
                  (inl (lit "Cannot connect to Ollama at " ++ endpoint
                        ++ lit ". Ensure Ollama is running."), h')
              | RequestException e => (inl (lit "LLM API error: " ++ e), h')
              | OtherError e => (inl e, h')
              end
          end
      end
  end.

(** ** llmhandler.py: analysis results and output records *)

(** A chunk identifier: a chunk number or the string ['FINAL']. *)
Inductive ChunkId :=
  | ChunkNo (n : nat)
  | FINAL.

Definition str_of_chunk_id (c : ChunkId) : str :=
  match c with
  | ChunkNo n => str_of_nat n
  | FINAL => lit "FINAL"
  end.

(** An analysis result: a dictionary in which a key may be absent. *)
Record Result := {
  r_chunk : ChunkId;
  r_event_count : option nat;
  r_response : option str;
  r_error : option str;
  r_summary : option str;
  r_status : option str
}.

(** The record handed back to the host. *)
Record OutRecord := {
  _time : Z;
  llm_chunk : str;
  llm_status : str;
  llm_event_count : nat;
  llm_response : str;
  llm_summary : option str
}.

(** [_create_result_record(result, chunk_id)]: reads the clock once. *)
Definition _create_result_record (w : World) (result : Result) (chunk_id : ChunkId)
    (h : Host) : OutRecord * Host :=
  ({| _time := time_time w (ticks h);
      llm_chunk := str_of_chunk_id chunk_id;
      llm_status := default (lit "unknown") (r_status result);
      llm_event_count := default 0%nat (r_event_count result);
      llm_response := default (default (lit "No response") (r_error result)) (r_response result);
      llm_summary := r_summary result |},
   {| posts := posts h; ticks := S (ticks h) |}).

(** [_process_chunk(events, chunk_number, previous_summary, endpoint, model, config)]:
    every exception of the body ends in the error result. *)
Definition _process_chunk (w : World) (opts : Options) (config : Config)
    (events : list Event) (chunk_number : nat) (previous_summary : option str)
    (endpoint model_name : str) (h : Host) : Result * Host :=
  let formatted_events := _format_events events in
  let full_prompt := _build_prompt opts config formatted_events chunk_number previous_summary in
  match _call_ollama w opts config endpoint model_name full_prompt h with
  | (inr response, h') =>
      ({| r_chunk := ChunkNo chunk_number;
          r_event_count := Some (length events);
          r_response := Some response;
          r_error := None;
          r_summary := Some (_extract_summary response);
          r_status := Some (lit "success") |}, h')
  | (inl e, h') =>
      ({| r_chunk := ChunkNo chunk_number;
          r_event_count := Some (length events);
          r_response := None;
          r_error := Some e;
          r_summary := None;
          r_status := Some (lit "error") |}, h')
  end.

(** The prompt of the final synthesis call. *)
Definition synthesis_prompt (total_chunks : nat) (user_prompt : str) : str :=
  nl ++ lit "You have analyzed " ++ str_of_nat total_chunks ++ lit " chunks of security/DFIR data." ++ nl
  ++ nl
  ++ lit "Based on the user's question: " ++ dquote ++ user_prompt ++ dquote ++ nl
  ++ nl
  ++ lit "Provide a final comprehensive synthesis that:" ++ nl
  ++ lit "1. Integrates findings across all chunks" ++ nl
  ++ lit "2. Identifies patterns and correlations" ++ nl
  ++ lit "3. Prioritizes critical findings" ++ nl
  ++ lit "4. Provides actionable recommendations for the investigation" ++ nl
  ++ nl
  ++ lit "Focus on the most significant security and forensic insights." ++ nl.

(** [_generate_final_synthesis(total_chunks, endpoint, model, config)]. *)
Definition _generate_final_synthesis (w : World) (opts : Options) (config : Config)
    (total_chunks : nat) (endpoint model_name : str) (h : Host) : Result * Host :=
  match _call_ollama w opts config endpoint model_name
          (synthesis_prompt total_chunks (prompt opts)) h with
  | (inr response, h') =>
      ({| r_chunk := FINAL;
          r_event_count := Some total_chunks;
          r_response := Some response;
          r_error := None;
          r_summary := Some (lit "Final synthesis across all analyzed chunks");
          r_status := Some (lit "success") |}, h')
  | (inl e, h') =>
      ({| r_chunk := FINAL;
          r_event_count := None;
          r_response := None;
          r_error := Some e;
          r_summary := None;
          r_status := Some (lit "error") |}, h')
  end.

(** ** llmhandler.py: [stream] *)

(** The local variables of [stream] that live across loop iterations. *)
Record Loop := {
  event_buffer : list Event;
  chunk_number : nat;
  previous_summary : option str
}.

(** Flushing a buffer as chunk [number]: [_process_chunk], then the
    record that is yielded; also the [result.get('summary', '')] that the
    loop keeps as [previous_summary]. *)
Definition flush (w : World) (opts : Options) (config : Config) (endpoint model_name : str)
    (buffer : list Event) (number : nat) (previous : option str) (h : Host)
  : OutRecord * str * Host :=
  let '(result, h1) :=
    _process_chunk w opts config buffer number previous endpoint model_name h in
  let '(record, h2) := _create_result_record w result (ChunkNo number) h1 in
  (record, default [] (r_summary result), h2).

(** The [for record in records] loop: the records yielded, the loop
    variables and the effects when the input is exhausted. *)
Fixpoint stream_loop (w : World) (opts : Options) (config : Config) (endpoint model_name : str)
    (size : Z) (records : list Event) (l : Loop) (h : Host)
  : list OutRecord * Loop * Host :=
  match records with
  | [] => ([], l, h)
  | record :: rest =>
      let buffer := event_buffer l ++ [record] in
      if (size <=? Z.of_nat (length buffer))%Z then
        let number := S (chunk_number l) in
        let '(out, summary, h1) :=
          flush w opts config endpoint model_name buffer number (previous_summary l) h in
        let '(outs, l', h') :=
          stream_loop w opts config endpoint model_name size rest
            {| event_buffer := []; chunk_number := number; previous_summary := Some summary |} h1 in
        (out :: outs, l', h')
      else
        stream_loop w opts config endpoint model_name size rest
          {| event_buffer := buffer; chunk_number := chunk_number l;
             previous_summary := previous_summary l |} h
  end.

(** [# Process remaining events]: the partial chunk left in the buffer, if
    any, is flushed; the result also carries the final [chunk_number]. *)
Definition flush_remaining (w : World) (opts : Options) (config : Config)
    (endpoint model_name : str) (l : Loop) (h : Host) : list OutRecord * nat * Host :=
  match event_buffer l with
  | [] => ([], chunk_number l, h)
  | _ :: _ =>
      let '(out, _, h') :=
        flush w opts config endpoint model_name (event_buffer l)
          (S (chunk_number l)) (previous_summary l) h in
      ([out], S (chunk_number l), h')
  end.

(** [# Generate final synthesis if multiple chunks]. *)
Definition final_synthesis (w : World) (opts : Options) (config : Config)
    (endpoint model_name : str) (number : nat) (h : Host) : list OutRecord * Host :=
  if (1 <? number)%nat then
    let '(final_result, h1) :=
      _generate_final_synthesis w opts config number endpoint model_name h in
    let '(out, h2) := _create_result_record w final_result FINAL h1 in
    ([out], h2)
  else ([], h).

(** [stream(records)], consumed to the end: the records it yields, in
    order, and the effects it has had. Every call that can raise handles
    its own exceptions, so the outer [except] is not reached. *)
Definition stream (w : World) (opts : Options) (config : Config) (records : list Event)
    (h : Host) : list OutRecord * Host :=
  let endpoint := cfg_endpoint config in
  let model_name := or_else (model opts) (cfg_model config) in
  let size := chunk_size opts in
  let '(looped, l, h1) :=
    stream_loop w opts config endpoint model_name size records
      {| event_buffer := []; chunk_number := 0; previous_summary := None |} h in
  let '(remaining, number, h2) :=
    flush_remaining w opts config endpoint model_name l h1 in
  let '(final, h3) := final_synthesis w opts config endpoint model_name number h2 in
  (looped ++ remaining ++ final, h3).

(** The number of chunks of [n] records that [len] records fill. *)
Definition ceil_div (len n : nat) : nat := ((len + n - 1) / n)%nat.

(** The records of chunk [k] (counted from 1) of an input cut every [n]. *)
Definition chunk_at (n k : nat) (records : list Event) : list Event :=
  take n (drop ((k - 1) * n) records).

(** ** dfircopilot_config_handler.py: exceptions, files and the state monad *)

(** The exceptions the handler meets, each with its message. *)
Inductive exn :=
  | BadRequestException (msg : str)
  | InternalException (msg : str)
  | Exception (msg : str)
  | IndexError (msg : str)
  | AttributeError (msg : str)
  | TypeError (msg : str)
  | OSError (msg : str)
  | RequestsError (msg : str)
  | JSONDecodeError (msg : str)
  | UnicodeEncodeError (msg : str).

(** [str(e)]: the message the exception was raised with. *)
Definition exn_str (e : exn) : str :=
  match e with
  | BadRequestException msg | InternalException msg | Exception msg
  | IndexError msg | AttributeError msg | TypeError msg | OSError msg
  | RequestsError msg | JSONDecodeError msg | UnicodeEncodeError msg => msg
  end.

(** A file: what was written to it and its permission bits. *)
Record File := {
  content : str;
  mode : Z
}.

(** The two files the handler writes, both in the app's [local]
    directory. *)
Inductive FileName :=
  | DfirvaultConf
  | AppConf.

(** The operations that can fail: [os.makedirs] of the [local] directory,
    [open(path, 'w')], the writes of one [with] block up to its close,
    with the texts handed to them, and [os.chmod]. *)
Inductive FileOp :=
  | Makedirs
  | Open (name : FileName)
  | Write (name : FileName) (texts : list str)
  | Chmod (name : FileName).

(** What a failing operation raises. For a failing [Write], [reached]
    says how many characters of the text are in the file once it is
    closed; the other operations change nothing when they fail. *)
Record Fault := {
  raises : exn;
  reached : nat
}.

(** The part of the file system the handler touches: the app's [local]
    directory and the two files in it; the [umask] of the process; and
    [fault], which says which operations fail on this machine, and how,
    while a handler runs. The files fail apart from each other, and a
    write can fail for one text and not for another. *)
Record FileSystem := {
  local_dir : bool;
  dfirvault_conf : option File;
  app_conf : option File;
  umask : Z;
  fault : FileOp -> option Fault
}.

(** Computations that read and write the file system and can raise. *)
Definition IO (A : Type) : Type := FileSystem -> (exn + A) * FileSystem.

Definition ret {A} (a : A) : IO A := fun fs => (inr a, fs).

Definition raise {A} (e : exn) : IO A := fun fs => (inl e, fs).

Definition bind {A B} (c : IO A) (k : A -> IO B) : IO B :=
  fun fs =>
    match c fs with
    | (inl e, fs') => (inl e, fs')
    | (inr a, fs') => k a fs'
    end.

(** [try: body / except Exception as e: handler e]. *)
Definition try_except {A} (body : IO A) (handler : exn -> IO A) : IO A :=
  fun fs =>
    match body fs with
    | (inl e, fs') => handler e fs'
    | (inr a, fs') => (inr a, fs')
    end.

Notation "x <- c ;; k" := (bind c (fun x => k))
  (at level 20, c at level 99, k at level 200, only parsing).
Notation "c ;; k" := (bind c (fun _ => k))
  (at level 100, k at level 200, right associativity, only parsing).

(** [os.makedirs(local_dir, mode=0o755)]. *)
Definition makedirs : IO unit :=
  fun fs =>
    match fault fs Makedirs with
    | Some f => (inl (raises f), fs)
    | None => (inr tt, {| local_dir := true; dfirvault_conf := dfirvault_conf fs;
                          app_conf := app_conf fs; umask := umask fs; fault := fault fs |})
    end.

Definition file_of (name : FileName) (fs : FileSystem) : option File :=
  match name with
  | DfirvaultConf => dfirvault_conf fs
  | AppConf => app_conf fs
  end.

Definition set_file (name : FileName) (file : File) (fs : FileSystem) : FileSystem :=
  match name with
  | DfirvaultConf =>
      {| local_dir := local_dir fs; dfirvault_conf := Some file; app_conf := app_conf fs;
         umask := umask fs; fault := fault fs |}
  | AppConf =>
      {| local_dir := local_dir fs; dfirvault_conf := dfirvault_conf fs; app_conf := Some file;
         umask := umask fs; fault := fault fs |}
  end.

(** The permission bits of a file while it is open for writing: the ones
    it had, or for a new file [0o666] less the [umask]. *)
Definition open_mode (name : FileName) (fs : FileSystem) : Z :=
  match file_of name fs with
  | Some file => mode file
  | None => Z.land 438 (Z.lnot (umask fs))
  end.

(** [open(path, 'w')]: when it does not raise, the file exists and is
    empty. *)
Definition open_write (name : FileName) : IO unit :=
  fun fs =>
    match fault fs (Open name) with
    | Some f => (inl (raises f), fs)
    | None => (inr tt, set_file name {| content := []; mode := open_mode name fs |} fs)
    end.

(** The writes to the open file and its close at the end of the [with]
    block: [f.writelines(texts)], or one [f.write(text)] after the
    other. When a write or the close raises, the file is left with the
    characters that had reached it. *)
Definition write_texts (name : FileName) (texts : list str) : IO unit :=
  fun fs =>
    match fault fs (Write name texts) with
    | Some f =>
        (inl (raises f),
         set_file name {| content := take (reached f) (concat texts);
                          mode := open_mode name fs |} fs)
    | None =>
        (inr tt, set_file name {| content := concat texts; mode := open_mode name fs |} fs)
    end.

(** [os.chmod(path, bits)] on a file that exists. *)
Definition chmod (name : FileName) (bits : Z) : IO unit :=
  fun fs =>
    match fault fs (Chmod name), file_of name fs with
    | Some f, _ => (inl (raises f), fs)
    | None, Some file => (inr tt, set_file name {| content := content file; mode := bits |} fs)
    | None, None => (inl (OSError (lit "No such file or directory")), fs)
    end.

(** [os.path.exists(local_dir)]. *)
Definition local_dir_exists : IO bool := fun fs => (inr (local_dir fs), fs).

(** [values[0]]. *)
Definition index0 (values : list str) : IO str :=
  match values with
  | v :: _ => ret v
  | [] => raise (IndexError (lit "list index out of range"))
  end.

(** ** dfircopilot_config_handler.py: the Ollama probe and the model list *)

(** A decoded JSON value. A number is kept as an integer. An object is
    the list of its members. *)
Inductive json :=
  | JNull
  | JBool (b : bool)
  | JNum (z : Z)
  | JStr (s : str)
  | JArr (items : list json)
  | JObj (members : list (str * json)).

(** What [requests.get(url, timeout=5)] comes to: an exception, or a
    response with its status code and what [response.json()] gives
    ([None] when it raises). *)
Inductive GetOutcome :=
  | GetRaises (msg : str)
  | GetResponse (status_code : Z) (body : option json).

(** [type(v).__name__]. *)
Definition type_name (v : json) : str :=
  match v with
  | JNull => lit "NoneType"
  | JBool _ => lit "bool"
  | JNum _ => lit "int"
  | JStr _ => lit "str"
  | JArr _ => lit "list"
  | JObj _ => lit "dict"
  end.

(** The first member of an object under [key]. *)
Fixpoint member (key : str) (members : list (str * json)) : option json :=
  match members with
  | [] => None
  | (k, v) :: rest => if decide (k = key) then Some v else member key rest
  end.

(** [v.get(key, dflt)]: only a dictionary has [get]. *)
Definition py_get (key : str) (dflt : json) (v : json) : IO json :=
  match v with
  | JObj members => ret (default dflt (member key members))
  | _ => raise (AttributeError (lit "'" ++ type_name v ++ lit "' object has no attribute 'get'"))
  end.

(** The elements [for x in v] runs over: the items of a list, the keys of
    a dictionary, the characters of a string. *)
Definition py_iter (v : json) : IO (list json) :=
  match v with
  | JArr items => ret items
  | JObj members => ret (JStr <$> members.*1)
  | JStr s => ret ((fun c => JStr [c]) <$> s)
  | _ => raise (TypeError (lit "'" ++ type_name v ++ lit "' object is not iterable"))
  end.

(** [[f(x) for x in xs]] with an [f] that can raise. *)
Fixpoint for_each {A B} (f : A -> IO B) (xs : list A) : IO (list B) :=
  match xs with
  | [] => ret []
  | x :: rest => y <- f x ;; ys <- for_each f rest ;; ret (y :: ys)
  end.

(** [requests.get(f"{endpoint}/api/tags", timeout=5)]. *)
Definition get_tags (requests_get : str -> GetOutcome) (endpoint : str)
  : IO (Z * option json) :=
  match requests_get (endpoint ++ lit "/api/tags") with
  | GetRaises msg => raise (RequestsError msg)
  | GetResponse status_code body => ret (status_code, body)
  end.

(** [response.json()]. *)
Definition response_json (body : option json) : IO json :=
  match body with
  | Some data => ret data
  | None => raise (JSONDecodeError (lit "Expecting value"))
  end.

(** [_test_ollama_connection(endpoint)]. *)
Definition _test_ollama_connection (requests_get : str -> GetOutcome) (endpoint : str)
  : IO bool :=
  try_except
    (response <- get_tags requests_get endpoint ;;
     ret (response.1 =? 200)%Z)
    (fun _ => ret false).

(** [_fetch_available_models(endpoint)]. *)
Definition _fetch_available_models (requests_get : str -> GetOutcome) (endpoint : str)
  : IO (list json) :=
  try_except
    (response <- get_tags requests_get endpoint ;;
     if (response.1 =? 200)%Z then
       data <- response_json response.2 ;;
       models <- py_get (lit "models") (JArr []) data ;;
       entries <- py_iter models ;;
       for_each (py_get (lit "name") (JStr (lit "unknown"))) entries
     else ret [])
    (fun _ => ret []).

(** ** dfircopilot_config_handler.py: writing the configuration *)

(** [config_keys]: every key with its default, in the order of the source. *)
Definition config_keys : list (str * str) :=
  [ (lit "endpoint", lit "http://localhost:11434");
    (lit "model", lit "mistral");
    (lit "temperature", lit "0.7");
    (lit "max_tokens", lit "2000");
    (lit "timeout", lit "120");
    (lit "chunk_size", lit "10");
    (lit "max_context_events", lit "100");
    (lit "overlap_events", lit "2");
    (lit "analysis_mode", lit "forensic");
    (lit "system_prompt", lit "You are a cybersecurity and DFIR expert assistant.") ].

(** One line of the file:
    [args.get(key, [default_value])[0] if key in args else default_value]. *)
Definition config_line (args : gmap str (list str)) (entry : str * str) : IO str :=
  value <- match args !! entry.1 with
           | Some values => index0 values
           | None => ret entry.2
           end ;;
  ret (entry.1 ++ lit " = " ++ value ++ nl).

(** [_write_config(args)]. *)
Definition _write_config (args : gmap str (list str)) : IO unit :=
  try_except
    (present <- local_dir_exists ;;
     (if present then ret tt else makedirs) ;;
     config_lines <- for_each (config_line args) config_keys ;;
     open_write DfirvaultConf ;;
     write_texts DfirvaultConf ((lit "[llm_config]" ++ nl) :: config_lines) ;;
     chmod DfirvaultConf 420)
    (fun e => raise (Exception (lit "Failed to write configuration: " ++ exn_str e))).

(** [_mark_configured()]: its errors are dropped. *)
Definition _mark_configured : IO unit :=
  try_except
    (present <- local_dir_exists ;;
     (if present then ret tt else makedirs) ;;
     open_write AppConf ;;
     write_texts AppConf [lit "[install]" ++ nl; lit "is_configured = true" ++ nl] ;;
     chmod AppConf 420)
    (fun _ => ret tt).

(** [handleEdit(confInfo)], with [self.callerArgs.data] as [args]. *)
Definition handleEdit (requests_get : str -> GetOutcome) (args : gmap str (list str))
  : IO unit :=
  try_except
    (endpoint <- index0 (default ([[]] : list str) (args !! lit "endpoint")) ;;
     (if truthy endpoint then
        reachable <- _test_ollama_connection requests_get endpoint ;;
        if negb reachable
        then raise (BadRequestException (lit "Cannot connect to Ollama at " ++ endpoint))
        else ret tt
      else ret tt) ;;
     _write_config args ;;
     _mark_configured)
    (fun e => raise (InternalException (lit "Error updating configuration: " ++ exn_str e))).

(** ** Specification functions for [_extract_summary] *)

(** A line that the loop collects once it is inside the summary. *)
Definition collectable (line : str) : bool :=
  negb (has_marker line) && truthy (strip line) && negb (startswith (lit "#") line).

(** The lines after the first marker line. *)
Fixpoint after_first_marker (lines : list str) : list str :=
  match lines with
  | [] => []
  | line :: rest => if has_marker line then rest else after_first_marker rest
  end.

(** ** Specification predicates for the configuration handler *)

(** A computation that leaves the file system as it found it. *)
Definition readonly {A} (c : IO A) : Prop := forall fs, (c fs).2 = fs.

(** ** Specification functions for [stream] *)

(** The input cut into chunks of [n] records, the last one possibly
    shorter; [fuel] bounds the number of chunks. *)
Fixpoint chunks_of_fuel (fuel n : nat) (records : list Event) : list (list Event) :=
  match fuel with
  | O => []
  | S fuel' =>
      match records with
      | [] => []
      | _ :: _ => take n records :: chunks_of_fuel fuel' n (drop n records)
      end
  end.

Definition chunks_of (n : nat) (records : list Event) : list (list Event) :=
  chunks_of_fuel (length records) n records.

(** Flushing a list of chunks one after the other, numbered from
    [number + 1], each one handed the summary of the one before. *)
Fixpoint run_chunks (w : World) (opts : Options) (config : Config) (endpoint model_name : str)
    (chunks : list (list Event)) (number : nat) (previous : option str) (h : Host)
  : list OutRecord * Host :=
  match chunks with
  | [] => ([], h)
  | c :: rest =>
      let '(out, summary, h1) :=
        flush w opts config endpoint model_name c (S number) previous h in
      let '(outs, h') :=
        run_chunks w opts config endpoint model_name rest (S number) (Some summary) h1 in
      (out :: outs, h')
  end.

(** What the next chunk is handed from the record of a chunk:
    [result.get('summary', '')]. *)
Definition carried (out : OutRecord) : str := default [] (llm_summary out).

(** The conversions that every call makes before it sends anything, in
    the order of the source: the timeout in seconds when all three
    convert, else the message of the first one that raises. They depend
    on the options and the configuration only, so they come to the same
    in every call of a run. *)
Definition conversions (w : World) (opts : Options) (config : Config) : str + Z :=
  match py_float_error w (temperature_or (temperature opts) (cfg_temperature config)) with
  | Some e => inl e
  | None =>
      match py_int w (max_tokens_or (max_tokens opts) (cfg_max_tokens config)) with
      | inl e => inl e
      | inr _ => py_int w (cfg_timeout config)
      end
  end.

(** The POST that the flush of chunk [k] makes for the events [c], when it
    is handed [previous] as the summary of the chunk before and the
    timeout converts to [seconds]. *)
Definition chunk_request (opts : Options) (config : Config) (endpoint model_name : str)
    (seconds : Z) (c : list Event) (k : nat) (previous : option str) : Request :=
  {| url := endpoint ++ lit "/api/generate";
     payload_model := model_name;
     payload_prompt := _build_prompt opts config (_format_events c) k previous;
     timeout := seconds |}.

(** The description of a failed POST: timeout, connection failure, another
    request error, any other exception. *)
Definition failure_message (seconds : Z) (endpoint : str) (o : PostOutcome)
  : option str :=
  match o with
  | Timeout =>
      Some (lit "Request to LLM timed out after " ++ str_of_Z seconds ++ lit " seconds")
  | ConnectionError =>
      Some (lit "Cannot connect to Ollama at " ++ endpoint ++ lit ". Ensure Ollama is running.")
  | RequestException e => Some (lit "LLM API error: " ++ e)
  | OtherError e => Some e
  | Response200 _ => None
  end.

(** What a call that was sent comes to: the text of the model, or the
    message of the exception. *)
Definition call_result (seconds : Z) (endpoint : str) (o : PostOutcome) : str + str :=
  match o with
  | Response200 response => inr (default (lit "No response generated") response)
  | _ => inl (default [] (failure_message seconds endpoint o))
  end.

(** The record yielded for chunk [k] with events [c] at clock reading [t],
    by what its call came to. *)
Definition chunk_record_of (t : Z) (c : list Event) (k : nat) (r : str + str) : OutRecord :=
  match r with
  | inr text =>
      {| _time := t; llm_chunk := str_of_nat k; llm_status := lit "success";
         llm_event_count := length c; llm_response := text;
         llm_summary := Some (_extract_summary text) |}
  | inl e =>
      {| _time := t; llm_chunk := str_of_nat k; llm_status := lit "error";
         llm_event_count := length c; llm_response := e; llm_summary := None |}
  end.

(** The same, by what its POST came to. *)
Definition chunk_record (seconds : Z) (endpoint : str) (t : Z)
    (c : list Event) (k : nat) (o : PostOutcome) : OutRecord :=
  chunk_record_of t c k (call_result seconds endpoint o).

(** The POST of the final synthesis after [number] chunks. *)
Definition final_request (opts : Options) (endpoint model_name : str) (seconds : Z)
    (number : nat) : Request :=
  {| url := endpoint ++ lit "/api/generate";
     payload_model := model_name;
     payload_prompt := synthesis_prompt number (prompt opts);
     timeout := seconds |}.

(** The record yielded for the final synthesis at clock reading [t], by
    what its call, and its POST, came to. *)
Definition final_record_of (t : Z) (number : nat) (r : str + str) : OutRecord :=
  match r with
  | inr text =>
      {| _time := t; llm_chunk := lit "FINAL"; llm_status := lit "success";
         llm_event_count := number; llm_response := text;
         llm_summary := Some (lit "Final synthesis across all analyzed chunks") |}
  | inl e =>
      {| _time := t; llm_chunk := lit "FINAL"; llm_status := lit "error";
         llm_event_count := 0; llm_response := e; llm_summary := None |}
  end.

Definition final_record (seconds : Z) (endpoint : str) (t : Z) (number : nat)
    (o : PostOutcome) : OutRecord :=
  final_record_of t number (call_result seconds endpoint o).

(** The pieces of a chunk prompt, written out: what comes before the
    part on the chunk before, that part with a summary carried over and
    without one, and what comes after. *)
Definition prompt_opening (opts : Options) (config : Config) : str :=
  lit "System: " ++ cfg_system_prompt config ++ nl
  ++ nl ++ lit "Analysis Mode: "
  ++ or_else (analysis_mode opts) (cfg_analysis_mode config) ++ nl
  ++ nl ++ mode_instructions (or_else (analysis_mode opts) (cfg_analysis_mode config)) ++ nl
  ++ nl ++ lit "User Question: " ++ prompt opts ++ nl.

Definition context_section (k : nat) (summary : str) : str :=
  nl ++ nl ++ lit "Previous Analysis Context (Chunk " ++ str_of_nat (k - 1) ++ lit "):" ++ nl
  ++ summary ++ nl
  ++ nl ++ nl ++ lit "Now analyzing Chunk " ++ str_of_nat k ++ lit ":".

Definition plain_section (k : nat) : str :=
  nl ++ nl ++ lit "Analyzing Chunk " ++ str_of_nat k ++ lit ":".

Definition prompt_closing (formatted_events : str) : str :=
  nl ++ nl ++ nl ++ formatted_events ++ nl
  ++ nl ++ nl ++ lit "Provide your analysis in a structured format:" ++ nl
  ++ lit "1. Key Findings" ++ nl
  ++ lit "2. Anomalies & IOCs" ++ nl
  ++ lit "3. Investigation Recommendations" ++ nl
  ++ lit "4. Summary (concise overview for context carryover)".

(** The text of one event, given the fields that are rendered, in order:
    the heading with the number of the event, the timestamp line when the
    event has a [_time], and one line for each field. *)
Definition event_block (idx : nat) (time : option str) (fields : list (str * str)) : str :=
  lit "Event " ++ str_of_nat idx ++ lit ":" ++ nl
  ++ match time with
     | Some t => lit "  Timestamp: " ++ t ++ nl
     | None => []
     end
  ++ concat ((fun field => lit "  " ++ field.1 ++ lit ": " ++ field.2 ++ nl) <$> fields).

(** ** Concrete inputs used in the examples below *)

(** A configuration, the options of a search and a few input events. *)
Definition sample_config : Config :=
  {| cfg_endpoint := lit "http://localhost:11434";
     cfg_model := lit "mistral";
     cfg_system_prompt := lit "You are a cybersecurity and DFIR expert assistant.";
     cfg_analysis_mode := lit "forensic";
     cfg_temperature := inl (7, -1)%Z;
     cfg_max_tokens := inl 2000%Z;
     cfg_timeout := inl 120%Z |}.

Definition sample_options (size : Z) : Options :=
  {| prompt := lit "Analyze these security events";
     model := None;
     chunk_size := size;
     analysis_mode := Some (lit "forensic");
     max_tokens := Some 2000%Z;
     temperature := Some (7, -1)%Z |}.

Definition sample_event (i : nat) : Event :=
  [(lit "_time", str_of_nat i); (lit "host", lit "web01")].

Definition sample_events (count : nat) : list Event := sample_event <$> seq 0 count.

(** [int(s)] and [float(s)] of the interpreter on ASCII strings, for the
    worlds of the examples: surrounding whitespace is dropped; then comes
    an optional sign; an integer is digits, with single underscores
    between digits; a float is [inf], [infinity] or [nan] in any case, or
    digits with at most one point and an optional exponent, with at least
    one digit before the exponent. A string that is refused is shown in
    the message between single quotes, as [repr] shows a string without
    quotes, backslashes and control characters. *)
Definition is_digit (c : N) : bool := (48 <=? c) && (c <=? 57).

Fixpoint digits_value (acc : Z) (after_digit : bool) (s : str) : option Z :=
  match s with
  | [] => if after_digit then Some acc else None
  | c :: s' =>
      if is_digit c then digits_value (10 * acc + Z.of_N (c - 48)) true s'
      else if (c =? 95) && after_digit then digits_value acc false s'
      else None
  end.

Definition signed_value (s : str) : option Z :=
  match s with
  | 43 :: s' => digits_value 0 false s'
  | 45 :: s' => Z.opp <$> digits_value 0 false s'
  | _ => digits_value 0 false s
  end.

Definition sample_int (s : str) : str + Z :=
  match signed_value (strip s) with
  | Some z => inr z
  | None => inl (lit "invalid literal for int() with base 10: '" ++ s ++ lit "'")
  end.

(** Where the reading of a float stands: in the integer part, the
    fraction or the exponent, and whether the next character has to be
    a digit. *)
Inductive FloatState :=
  | Whole (after_digit : bool) (after_underscore : bool)
  | Fraction (had_digit : bool) (after_digit : bool) (after_underscore : bool)
  | ExponentSign
  | Exponent (after_digit : bool) (after_underscore : bool).

Fixpoint float_digits (state : FloatState) (s : str) : bool :=
  match s with
  | [] =>
      match state with
      | Whole after_digit _ => after_digit
      | Fraction had_digit after_digit after_underscore =>
          (had_digit || after_digit) && negb after_underscore
      | ExponentSign => false
      | Exponent after_digit _ => after_digit
      end
  | c :: s' =>
      match state with
      | Whole after_digit after_underscore =>
          if is_digit c then float_digits (Whole true false) s'
          else if (c =? 95) && after_digit then float_digits (Whole false true) s'
          else if (c =? 46) && negb after_underscore then
            float_digits (Fraction after_digit false false) s'
          else if ((c =? 101) || (c =? 69)) && after_digit then float_digits ExponentSign s'
          else false
      | Fraction had_digit after_digit after_underscore =>
          if is_digit c then float_digits (Fraction true true false) s'
          else if (c =? 95) && after_digit then float_digits (Fraction had_digit false true) s'
          else if ((c =? 101) || (c =? 69)) && (had_digit || after_digit)
                  && negb after_underscore then float_digits ExponentSign s'
          else false
      | ExponentSign =>
          if is_digit c then float_digits (Exponent true false) s'
          else if (c =? 43) || (c =? 45) then float_digits (Exponent false true) s'
          else false
      | Exponent after_digit after_underscore =>
          if is_digit c then float_digits (Exponent true false) s'
          else if (c =? 95) && after_digit then float_digits (Exponent false true) s'
          else false
      end
  end.

Definition lower (c : N) : N := if (65 <=? c) && (c <=? 90) then c + 32 else c.

Definition float_body (s : str) : bool :=
  bool_decide (lower <$> s = lit "inf") || bool_decide (lower <$> s = lit "infinity")
  || bool_decide (lower <$> s = lit "nan") || float_digits (Whole false false) s.

Definition sample_float_error (s : str) : option str :=
  let accepted :=
    match strip s with
    | 43 :: s' | 45 :: s' => float_body s'
    | s' => float_body s'
    end in
  if accepted then None
  else Some (lit "could not convert string to float: '" ++ s ++ lit "'").

(** A server that answers every POST with the same text, which holds no
    summary marker. *)
Definition plain_world : World :=
  {| requests_post := fun _ _ => Response200 (Some (lit "Nothing unusual."));
     time_time := fun i => Z.of_nat i;
     int_of_str := sample_int;
     float_error := sample_float_error |}.

(** A server whose second answer does not come in time. *)
Definition flaky_world : World :=
  {| requests_post := fun i _ =>
       if (i =? 1)%nat then Timeout else Response200 (Some (lit "Nothing unusual."));
     time_time := fun i => Z.of_nat i;
     int_of_str := sample_int;
     float_error := sample_float_error |}.

(** No server answers: every GET raises. *)
Definition unreachable_get : str -> GetOutcome :=
  fun _ => GetRaises (lit "connection refused").

(** The faults of a healthy disk under a UTF-8 locale: the only thing
    that fails is writing a text with a surrogate code point, which the
    encoder refuses. The lines before it are in the file when it is
    closed; the message names the surrogate, or the run of surrogates,
    by its position in the text handed to the write. *)
Definition is_surrogate (c : N) : bool := (55296 <=? c) && (c <=? 57343).

Fixpoint surrogate_run (s : str) : nat :=
  match s with
  | c :: s' => if is_surrogate c then S (surrogate_run s') else 0%nat
  | [] => 0%nat
  end.

Fixpoint find_surrogate (position : nat) (s : str) : option (nat * N * nat) :=
  match s with
  | [] => None
  | c :: s' =>
      if is_surrogate c then Some (position, c, S (surrogate_run s'))
      else find_surrogate (S position) s'
  end.

Definition hex_digit (d : N) : N := if d <? 10 then 48 + d else 87 + d.

Definition surrogate_message (found : nat * N * nat) : str :=
  let '(position, c, run) := found in
  match run with
  | 1%nat =>
      lit "'utf-8' codec can't encode character '\u"
      ++ [hex_digit (c / 4096); hex_digit (c / 256 mod 16);
          hex_digit (c / 16 mod 16); hex_digit (c mod 16)]
      ++ lit "' in position " ++ str_of_nat position ++ lit ": surrogates not allowed"
  | _ =>
      lit "'utf-8' codec can't encode characters in position " ++ str_of_nat position
      ++ lit "-" ++ str_of_nat (position + run - 1) ++ lit ": surrogates not allowed"
  end.

Fixpoint utf8_write_fault (before : nat) (texts : list str) : option Fault :=
  match texts with
  | [] => None
  | text :: rest =>
      match find_surrogate 0 text with
      | Some found =>
          Some {| raises := UnicodeEncodeError (surrogate_message found); reached := before |}
      | None => utf8_write_fault (before + length text) rest
      end
  end.

Definition healthy_disk (op : FileOp) : option Fault :=
  match op with
  | Write _ texts => utf8_write_fault 0 texts
  | _ => None
  end.

(** A file system that already holds a configuration. *)
Definition configured_fs : FileSystem :=
  {| local_dir := true;
     dfirvault_conf := Some {| content := lit "[llm_config]" ++ nl ++ lit "endpoint = http://localhost:11434" ++ nl;
                               mode := 420 |};
     app_conf := None;
     umask := 18;
     fault := healthy_disk |}.

(** An edit that supplies an empty endpoint, and one that supplies a
    host nobody listens on. *)
Definition empty_endpoint_args : gmap str (list str) :=
  {[ lit "endpoint" := [[]]; lit "model" := [lit "mistral"] ]}.

Definition dead_endpoint_args : gmap str (list str) :=
  {[ lit "endpoint" := [lit "http://10.0.0.9:11434"]; lit "model" := [lit "mistral"] ]}.

(** A server whose answers end with a summary heading and nothing below it. *)
Definition bare_marker_world : World :=
  {| requests_post := fun _ _ => Response200 (Some (lit "1. Key Findings: none" ++ nl ++ lit "4. Summary"));
     time_time := fun i => Z.of_nat i;
     int_of_str := sample_int;
     float_error := sample_float_error |}.

(** ** Reading the configuration file: [_read_config], [_load_config], [handleList] *)

(** What the handlers only read: the packaged [default/dfirvault.conf],
    which the app never writes; whether reading an existing configuration
    file raises [OSError(msg)]; and, when it does, how many lines of the
    file have been handed over before it raises (none when it is the
    [open] that fails). *)
Record Package := {
  default_conf : option str;
  read_error : option str;
  lines_read : nat
}.

(** [for line in f] on a file opened in text mode: a line ends at
    ["\n"], ["\r\n"] or ["\r"], each handed over as ["\n"]; text after the
    last line end is a last line without one. [current] is the line read
    so far. *)
Fixpoint text_lines (current : str) (text : str) : list str :=
  match text with
  | [] => match current with [] => [] | _ :: _ => [current] end
  | c :: rest =>
      if c =? 10 then (current ++ nl) :: text_lines [] rest
      else if c =? 13 then
        match rest with
        | c' :: rest' =>
            if c' =? 10 then (current ++ nl) :: text_lines [] rest'
            else (current ++ nl) :: text_lines [] rest
        | [] => [current ++ nl]
        end
      else text_lines (current ++ [c]) rest
  end.

(** [s.split(sep, 1)] when [sep] occurs in [s]: the text before its first
    occurrence and the text after it. *)
Fixpoint split_first (sep : N) (s : str) : option (str * str) :=
  match s with
  | [] => None
  | c :: s' =>
      if c =? sep then Some ([], s')
      else match split_first sep s' with
           | Some (before, after) => Some (c :: before, after)
           | None => None
           end
  end.

(** The first configuration file that exists, [local/dfirvault.conf]
    before [default/dfirvault.conf], read whole; [None] when there is
    neither. *)
Definition open_first_conf (pkg : Package) : IO (option str) :=
  fun fs =>
    match dfirvault_conf fs, default_conf pkg with
    | Some file, _ =>
        match read_error pkg with
        | Some msg => (inl (OSError msg), fs)
        | None => (inr (Some (content file)), fs)
        end
    | None, Some text =>
        match read_error pkg with
        | Some msg => (inl (OSError msg), fs)
        | None => (inr (Some text), fs)
        end
    | None, None => (inr None, fs)
    end.

(** The body of the line loop of [_read_config]. *)
Definition read_config_line (config : gmap str str) (line : str) : gmap str str :=
  let line := strip line in
  if startswith (lit "[") line then config
  else if truthy line && negb (startswith (lit "#") line) && contains (lit "=") line then
    match split_first 61 line with
    | Some (key, value) => <[strip key := strip value]> config
    | None => config
    end
  else config.

(** The dictionary [_read_config] returns when reading raises. *)
Definition read_config_defaults : gmap str str :=
  list_to_map
    [ (lit "endpoint", lit "http://localhost:11434");
      (lit "model", lit "mistral");
      (lit "temperature", lit "0.7");
      (lit "max_tokens", lit "2000");
      (lit "timeout", lit "120");
      (lit "chunk_size", lit "10");
      (lit "max_context_events", lit "100");
      (lit "overlap_events", lit "2");
      (lit "analysis_mode", lit "forensic");
      (lit "system_prompt", lit "You are a cybersecurity and DFIR expert assistant.") ].

(** [_read_config()] of the configuration handler. *)
Definition _read_config (pkg : Package) : IO (gmap str str) :=
  try_except
    (text <- open_first_conf pkg ;;
     ret (match text with
          | Some t => foldl read_config_line ∅ (text_lines [] t)
          | None => ∅
          end))
    (fun _ => ret read_config_defaults).

(** [handleList(confInfo)]: the entries of [confInfo['llm_config']]. The
    value under ['available_models'] is [json.dumps] of a list, kept here
    as the list. *)
Definition handleList (pkg : Package) (requests_get : str -> GetOutcome)
  : IO (gmap str (str + list json)) :=
  try_except
    (config <- _read_config pkg ;;
     available_models <-
       _fetch_available_models requests_get
         (default (lit "http://localhost:11434") (config !! lit "endpoint")) ;;
     ret (<[lit "available_models" := inr available_models]> (inl <$> config)))
    (fun e => raise (InternalException (lit "Error reading configuration: " ++ exn_str e))).

(** [handleCreate(confInfo)]. *)
Definition handleCreate (requests_get : str -> GetOutcome) (args : gmap str (list str))
  : IO unit :=
  handleEdit requests_get args.

(** A value of the dictionary of [_load_config]: a string read from the
    file, or the integer or float of a default; the float
    [mantissa * 10 ^ exponent] is kept as written. *)
Inductive pyval :=
  | PyStr (s : str)
  | PyInt (z : Z)
  | PyFloat (mantissa exponent : Z).

(** The defaults [_load_config] of the search command starts from. *)
Definition load_config_defaults : gmap str pyval :=
  list_to_map
    [ (lit "endpoint", PyStr (lit "http://localhost:11434"));
      (lit "model", PyStr (lit "mistral"));
      (lit "temperature", PyFloat 7 (-1));
      (lit "max_tokens", PyInt 2000);
      (lit "timeout", PyInt 120);
      (lit "chunk_size", PyInt 10);
      (lit "analysis_mode", PyStr (lit "forensic"));
      (lit "system_prompt", PyStr (lit "You are a cybersecurity and DFIR expert assistant.")) ].

(** The body of the line loop of [_load_config]. *)
Definition load_config_line (config : gmap str pyval) (line : str) : gmap str pyval :=
  let line := strip line in
  if truthy line && negb (startswith (lit "#") line) && negb (startswith (lit "[") line) then
    if contains (lit "=") line then
      match split_first 61 line with
      | Some (key, value) => <[strip key := PyStr (strip value)]> config
      | None => config
      end
    else config
  else config.

(** The text of the first configuration file that exists,
    [local/dfirvault.conf] before [default/dfirvault.conf]. *)
Definition first_conf (pkg : Package) (fs : FileSystem) : option str :=
  match dfirvault_conf fs, default_conf pkg with
  | Some file, _ => Some (content file)
  | None, Some text => Some text
  | None, None => None
  end.

(** [_load_config()] of the search command, on the files of the app
    directory. The dictionary starts as the defaults and is updated line
    by line. When reading raises, the error is logged and the dictionary
    is returned as the lines read until then have left it. *)
Definition _load_config (pkg : Package) (fs : FileSystem) : gmap str pyval :=
  match first_conf pkg fs with
  | Some text =>
      foldl load_config_line load_config_defaults
        (match read_error pkg with
         | None => text_lines [] text
         | Some _ => take (lines_read pkg) (text_lines [] text)
         end)
  | None => load_config_defaults
  end.

(** ** Specification functions for the further properties *)

(** [s.rstrip()]. *)
Definition rstrip (s : str) : str := reverse (lstrip (reverse s)).

(** The value [_write_config] writes for an entry of [config_keys]. *)
Definition written_value (args : gmap str (list str)) (entry : str * str) : str :=
  match args !! entry.1 with
  | Some (v :: _) => v
  | _ => entry.2
  end.

(** The lines [_write_config] hands to [writelines], and the text they
    make. *)
Definition rendered_lines (args : gmap str (list str)) : list str :=
  (lit "[llm_config]" ++ nl)
    :: ((fun entry => entry.1 ++ lit " = " ++ written_value args entry ++ nl) <$> config_keys).

Definition rendered_config (args : gmap str (list str)) : str :=
  concat ((lit "[llm_config]" ++ nl)
            :: ((fun entry => entry.1 ++ lit " = " ++ written_value args entry ++ nl)
                  <$> config_keys)).

(** Nothing stands in the way of [_write_config] for this edit on this
    file system: the [local] directory is there or can be made, every
    known setting that the edit supplies has a value, and opening the
    file, writing these lines and setting the permission bits do not
    fail. *)
Definition write_config_runs (args : gmap str (list str)) (fs : FileSystem) : Prop :=
  (local_dir fs = true \/ fault fs Makedirs = None)
  /\ Forall (fun entry => args !! entry.1 <> Some []) config_keys
  /\ fault fs (Open DfirvaultConf) = None
  /\ fault fs (Write DfirvaultConf (rendered_lines args)) = None
  /\ fault fs (Chmod DfirvaultConf) = None.

(** The file system once the [local] directory is there. *)
Definition made_dir (fs : FileSystem) : FileSystem :=
  if local_dir fs then fs
  else {| local_dir := true; dfirvault_conf := dfirvault_conf fs; app_conf := app_conf fs;
          umask := umask fs; fault := fault fs |}.

(** The two texts [_mark_configured] writes, and the file they make. *)
Definition marker_texts : list str :=
  [lit "[install]" ++ nl; lit "is_configured = true" ++ nl].

Definition marker_file : File :=
  {| content := lit "[install]" ++ nl ++ lit "is_configured = true" ++ nl; mode := 420 |}.

(** A package with no default file and no read error. *)
Definition bare_package : Package :=
  {| default_conf := None; read_error := None; lines_read := 0 |}.

(** An edit that supplies every setting the form has. *)
Definition full_edit_args : gmap str (list str) :=
  {[ lit "endpoint" := [lit "http://localhost:11434 "];
     lit "model" := [lit "llama3"];
     lit "timeout" := [lit "60"] ]}.

(** A string with no whitespace at either end. *)
Definition trimmed (s : str) : Prop := lstrip s = s /\ rstrip s = s.

(** A string without a line end. *)
Definition one_line (s : str) : Prop := (10 ∉ s) /\ (13 ∉ s).

(** A key that a configuration line gives back as it is: not empty, with
    no whitespace at its ends, no ['='] and no line end in it, and not
    starting like a section header or a comment. *)
Definition plain_key (key : str) : Prop :=
  key <> [] /\ trimmed key /\ (61 ∉ key) /\ one_line key
  /\ startswith (lit "[") key = false /\ startswith (lit "#") key = false.

(** An edit with a setting the form does not know. *)
Definition extra_key_args : gmap str (list str) :=
  <[lit "debug" := [lit "1"]]> full_edit_args.

(** No server answers: every POST fails to connect. *)
Definition down_world : World :=
  {| requests_post := fun _ _ => ConnectionError;
     time_time := fun i => Z.of_nat i;
     int_of_str := sample_int;
     float_error := sample_float_error |}.

(** The configuration after an edit that wrote [1.5] as the timeout: the
    numeric settings are the strings of the file. *)
Definition edited_config : Config :=
  {| cfg_endpoint := lit "http://localhost:11434";
     cfg_model := lit "mistral";
     cfg_system_prompt := lit "You are a cybersecurity and DFIR expert assistant.";
     cfg_analysis_mode := lit "forensic";
     cfg_temperature := inr (lit "0.7");
     cfg_max_tokens := inr (lit "2000");
     cfg_timeout := inr (lit "1.5") |}.

(** An Ollama server on [localhost:11434] that has one model, and
    nothing else that can be reached. *)
Definition reachable_get : str -> GetOutcome :=
  fun address =>
    if decide (address = lit "http://localhost:11434/api/tags") then
      GetResponse 200
        (Some (JObj [(lit "models", JArr [JObj [(lit "name", JStr (lit "llama3"))]])]))
    else GetRaises (lit "connection refused").

(** An edit with a clean endpoint, as the setup page sends it. *)
Definition clean_edit_args : gmap str (list str) :=
  {[ lit "endpoint" := [lit "http://localhost:11434"];
     lit "model" := [lit "llama3"];
     lit "timeout" := [lit "60"] ]}.

(** A disk on which [local/app.conf] cannot be opened for writing and
    everything else works. *)
Definition marker_refused_fs : FileSystem :=
  {| local_dir := true;
     dfirvault_conf := None;
     app_conf := None;
     umask := 18;
     fault := fun op =>
       match op with
       | Open AppConf => Some {| raises := OSError (lit "Permission denied"); reached := 0 |}
       | _ => healthy_disk op
       end |}.

(** * Properties *)

(** ** Sanity checks of the embedding on concrete inputs *)

Example str_of_int_examples :
  str_of_nat 0 = lit "0" /\ str_of_nat 25 = lit "25"
  /\ str_of_Z (-3) = lit "-3" /\ str_of_Z 120 = lit "120".
Proof. vm_compute. auto. Qed.

Example split_example :
  split 10 (lit "a" ++ nl ++ nl ++ lit "b" ++ nl) = [lit "a"; []; lit "b"; []].
Proof. vm_compute. reflexivity. Qed.

Example format_events_example :
  _format_events [[(lit "b", lit "2"); (lit "_time", lit "t"); (lit "_x", lit "9"); (lit "a", lit "1")]]
  = lit "Event 1:" ++ nl ++ lit "  Timestamp: t" ++ nl ++ lit "  _time: t" ++ nl
    ++ lit "  a: 1" ++ nl ++ lit "  b: 2" ++ nl.
Proof. vm_compute. reflexivity. Qed.

(** ** Python strings *)

Lemma startswith_app p a b : startswith p a = true -> startswith p (a ++ b) = true.
Proof.
  revert a. induction p as [|x p IH]; intros [|y a]; simpl; try done.
  intros [-> H]%andb_prop. by rewrite IH.
Qed.

Lemma contains_nil s : contains [] s = true.
Proof. by destruct s. Qed.

Lemma contains_app_l p a b : contains p a = true -> contains p (a ++ b) = true.
Proof.
  induction a as [|x a IH].
  - simpl. rewrite orb_false_r. destruct p; [intros _; apply contains_nil | done].
  - change (contains p (x :: a)) with (startswith p (x :: a) || contains p a).
    change (contains p ((x :: a) ++ b))
      with (startswith p ((x :: a) ++ b) || contains p (a ++ b)).
    intros [H|H]%orb_prop.
    + by rewrite (startswith_app _ _ _ H).
    + rewrite (IH H). apply orb_true_r.
Qed.

Lemma split_app sep a b : sep ∉ a -> split sep (a ++ sep :: b) = a :: split sep b.
Proof.
  induction a as [|c a IH]; simpl.
  - by rewrite N.eqb_refl.
  - intros [Hc Ha]%not_elem_of_cons.
    destruct (N.eqb_spec c sep) as [->|_]; [done|]. by rewrite (IH Ha).
Qed.

Lemma split_single sep a : sep ∉ a -> split sep a = [a].
Proof.
  induction a as [|c a IH]; simpl; [done|].
  intros [Hc Ha]%not_elem_of_cons.
  destruct (N.eqb_spec c sep) as [->|_]; [done|]. by rewrite (IH Ha).
Qed.

(** ** [_extract_summary] *)

Lemma has_marker_app_l a b : has_marker a = true -> has_marker (a ++ b) = true.
Proof.
  unfold has_marker. intros [H|H]%orb_prop; rewrite (contains_app_l _ _ _ H); [done|].
  apply orb_true_r.
Qed.

Lemma scan_lines_marker line rest b acc :
  has_marker line = true -> scan_lines (line :: rest) b acc = scan_lines rest true acc.
Proof. intros H. simpl. by rewrite H. Qed.

Lemma scan_lines_collect line rest acc :
  has_marker line = false -> truthy (strip line) = true ->
  startswith (lit "#") line = false -> (length acc < 5)%nat ->
  scan_lines (line :: rest) true acc = scan_lines rest true (acc ++ [strip line]).
Proof.
  intros Hm Ht Hs Hl. cbn [scan_lines]. rewrite Hm, Ht, Hs. cbn [negb andb].
  rewrite length_app. cbn [length].
  destruct (Nat.ltb_spec 5 (length acc + 1)); [lia|done].
Qed.

Lemma scan_lines_inside lines acc :
  (length acc <= 5)%nat ->
  scan_lines lines true acc
  = take 6 (acc ++ (strip <$> filter (fun l => collectable l = true) lines)).
Proof.
  revert acc. induction lines as [|line rest IH]; intros acc Hacc.
  - simpl. rewrite app_nil_r. by rewrite take_ge by lia.
  - cbn [scan_lines]. rewrite filter_cons.
    case_decide as Hc; unfold collectable in Hc.
    + apply andb_prop in Hc as [[Hm%negb_true_iff Ht]%andb_prop Hs].
      rewrite Hm, Ht, Hs. cbn [andb]. rewrite fmap_cons.
      set (tl := strip <$> filter _ rest) in *.
      rewrite length_app. cbn [length].
      destruct (Nat.ltb_spec 5 (length acc + 1)).
      * rewrite (cons_middle (strip line) acc tl), (assoc_L (++) acc).
        rewrite take_app_le by (rewrite length_app; simpl; lia).
        rewrite take_ge by (rewrite length_app; simpl; lia). done.
      * rewrite IH by (rewrite length_app; simpl; lia).
        by rewrite (cons_middle (strip line) acc tl), (assoc_L (++) acc).
    + destruct (has_marker line); [by apply IH|].
      cbn [negb andb] in Hc.
      destruct (truthy (strip line) && negb (startswith (lit "#") line)); [done|].
      destruct (Nat.ltb_spec 5 (length acc)); [lia|]. by apply IH.
Qed.

Lemma scan_lines_outside lines :
  scan_lines lines false []
  = take 6 (strip <$> filter (fun l => collectable l = true) (after_first_marker lines)).
Proof.
  induction lines as [|line rest IH]; [done|].
  cbn [scan_lines after_first_marker]. destruct (has_marker line); [|done].
  by rewrite scan_lines_inside by (simpl; lia).
Qed.

Lemma prefix_of_take {A} (l : list A) n : take n l `prefix_of` l.
Proof. exists (drop n l). by rewrite take_drop. Qed.

(** The loop stops at six collected lines: the test [len(summary_lines) > 5]
    comes after the line has been appended. *)
Lemma scan_lines_at_most_six lines : (length (scan_lines lines false []) <= 6)%nat.
Proof. rewrite scan_lines_outside, length_take. lia. Qed.

(** C3 (amended). [_extract_summary] takes the marker branch exactly when
    the response contains ["Summary"] or ["SUMMARY"] (no other casing
    counts): without either it returns the first 200 characters,
    stripped; with one of them it returns, joined by single spaces, an
    initial run of the stripped lines that follow the first marker line,
    are not marker lines themselves, are not blank and do not start with
    ['#']. *)
Theorem extract_summary_marker_branch (response : str) :
  (contains (lit "Summary") response = false ->
   contains (lit "SUMMARY") response = false ->
   _extract_summary response = strip (take 200 response))
  /\ (contains (lit "Summary") response = true \/ contains (lit "SUMMARY") response = true ->
      exists collected : list str,
        _extract_summary response = join (lit " ") collected
        /\ collected `prefix_of`
             (strip <$> filter (fun l => collectable l = true)
                          (after_first_marker (split 10 response)))).
Proof.
  unfold _extract_summary, has_marker. split.
  - by intros -> ->.
  - intros H.
    assert (contains (lit "Summary") response || contains (lit "SUMMARY") response = true) as ->.
    { destruct H as [-> | ->]; [done | apply orb_true_r]. }
    eexists. split; [done|]. rewrite scan_lines_outside. apply prefix_of_take.
Qed.

(** C3, the claim as stated fails: a lowercase ["summary"] line is not a
    marker (the whole response comes back through the fallback), and after
    a marker six lines are collected, not five. *)
Lemma extract_summary_lowercase_marker_ignored :
  _extract_summary (lit "summary" ++ nl ++ lit "digest") = lit "summary" ++ nl ++ lit "digest"
  /\ _extract_summary
       (lit "Summary" ++ nl ++ lit "1" ++ nl ++ lit "2" ++ nl ++ lit "3" ++ nl
        ++ lit "4" ++ nl ++ lit "5" ++ nl ++ lit "6" ++ nl ++ lit "7")
     = lit "1 2 3 4 5 6".
Proof. split; vm_compute; reflexivity. Qed.

(** C4 (amended). A response made of a line containing ["Summary"] and
    three further lines, each of them not blank, not starting with ['#']
    and holding no marker, gives the three lines, each stripped of
    surrounding whitespace, joined by single spaces; a response with no
    marker gives its first 200 characters stripped of surrounding
    whitespace. *)
Theorem extract_summary_round_trip (m l1 l2 l3 : str) :
  10 ∉ m -> 10 ∉ l1 -> 10 ∉ l2 -> 10 ∉ l3 ->
  contains (lit "Summary") m = true ->
  Forall (fun l => has_marker l = false /\ strip l <> []
                   /\ startswith (lit "#") l = false) [l1; l2; l3] ->
  _extract_summary (m ++ nl ++ l1 ++ nl ++ l2 ++ nl ++ l3)
  = strip l1 ++ lit " " ++ strip l2 ++ lit " " ++ strip l3
  /\ forall response, has_marker response = false ->
       _extract_summary response = strip (take 200 response).
Proof.
  intros Hm H1 H2 H3 Hc Hl. split.
  - assert (has_marker m = true) as Hmm by (unfold has_marker; by rewrite Hc).
    unfold _extract_summary. rewrite (has_marker_app_l _ _ Hmm).
    unfold nl. cbn [app].
    rewrite !split_app, split_single by done.
    rewrite scan_lines_marker by done.
    apply Forall_cons in Hl as [(Ha1 & Hb1 & Hc1) Hl].
    apply Forall_cons in Hl as [(Ha2 & Hb2 & Hc2) Hl].
    apply Forall_cons in Hl as [(Ha3 & Hb3 & Hc3) _].
    assert (forall s : str, s <> [] -> truthy s = true) as Ht by (by intros []).
    rewrite !scan_lines_collect by (simpl; auto with lia).
    cbn [scan_lines app join].
    destruct (strip l1), (strip l2), (strip l3); done.
  - intros response Hr. unfold _extract_summary. by rewrite Hr.
Qed.

Lemma extract_summary_round_trip_witness :
  _extract_summary (lit "Summary" ++ nl ++ lit " a" ++ nl ++ lit "b" ++ nl ++ lit "c")
  = strip (lit " a") ++ lit " " ++ strip (lit "b") ++ lit " " ++ strip (lit "c")
  /\ forall response, has_marker response = false ->
       _extract_summary response = strip (take 200 response).
Proof.
  apply (extract_summary_round_trip (lit "Summary") (lit " a") (lit "b") (lit "c"));
    apply (bool_decide_unpack _); vm_compute; exact I.
Defined.

(** C4, the claim as stated fails: the lines come back stripped, not as
    they are, and so does the 200-character fallback. *)
Lemma extract_summary_strips_lines :
  _extract_summary (lit "Summary" ++ nl ++ lit " a" ++ nl ++ lit "b" ++ nl ++ lit "c")
    <> join (lit " ") [lit " a"; lit "b"; lit "c"]
  /\ has_marker (lit " x") = false
  /\ _extract_summary (lit " x") <> take 200 (lit " x").
Proof. repeat split; vm_compute; done. Qed.

(** ** [_format_events] *)

#[local] Instance tuple_lexico_po : StrictOrder (@lexico (str * str) _).
Proof. unfold str. apply _. Qed.

#[local] Instance tuple_le_total : Total tuple_le.
Proof.
  intros a b. unfold tuple_le.
  destruct (trichotomyT (@lexico (list N * list N) _) a b) as [[?|?]|?]; auto.
Qed.

#[local] Instance tuple_le_trans : Transitive tuple_le.
Proof.
  intros a b c [->|Hab] [->|Hbc]; unfold tuple_le; auto.
  right. by transitivity b.
Qed.

#[local] Instance tuple_le_antisymm : AntiSymm (=) tuple_le.
Proof.
  intros a b [->|Hab] [Hba|Hba]; try done.
  destruct (irreflexivity (@lexico (str * str) _) a). by transitivity b.
Qed.

Lemma sorted_Permutation (e1 e2 : Event) : e1 ≡ₚ e2 -> sorted e1 = sorted e2.
Proof.
  intros H. unfold sorted.
  apply (Sorted_unique tuple_le); try apply Sorted_merge_sort; try apply _.
  by rewrite !merge_sort_Permutation.
Qed.

Lemma dict_get_Permutation key (e1 e2 : Event) :
  NoDup e1.*1 -> e1 ≡ₚ e2 -> dict_get key e1 = dict_get key e2.
Proof. intros Hn Hp. unfold dict_get. by rewrite (list_to_map_proper e1 e2 Hn Hp). Qed.

Lemma format_event_Permutation idx (e1 e2 : Event) :
  NoDup e1.*1 -> e1 ≡ₚ e2 -> format_event idx e1 = format_event idx e2.
Proof.
  intros Hn Hp. unfold format_event, rendered_fields.
  by rewrite (dict_get_Permutation _ e1 e2 Hn Hp), (sorted_Permutation e1 e2 Hp).
Qed.

Lemma imap_format_Permutation (es1 es2 : list Event) (f : nat -> nat) :
  Forall2 (≡ₚ) es1 es2 -> Forall (fun e => NoDup e.*1) es1 ->
  imap (fun i e => format_event (f i) e) es1 = imap (fun i e => format_event (f i) e) es2.
Proof.
  intros H. revert f. induction H as [|e1 e2 es1 es2 Hp _ IH]; intros f Hn; [done|].
  apply Forall_cons in Hn as [Hn1 Hn].
  cbn [imap]. f_equal; [by apply format_event_Permutation|].
  apply (IH (f ∘ S) Hn).
Qed.

Lemma field_kept_spec key :
  field_kept key = true
  <-> startswith (lit "_") key = false \/ key = lit "_time" \/ key = lit "_raw".
Proof.
  unfold field_kept. rewrite !orb_true_iff, negb_true_iff, !bool_decide_eq_true. tauto.
Qed.

Lemma StronglySorted_filter_mono {A} (R R' : relation A) (P : A -> Prop)
    `{forall x, Decision (P x)} (l : list A) :
  (forall a b, R a b -> R' a b) -> StronglySorted R l -> StronglySorted R' (filter P l).
Proof.
  intros HR. induction 1 as [|a l _ IH Ha]; [constructor|].
  rewrite filter_cons. case_decide; [|done].
  constructor; [done|].
  apply Forall_forall. intros x [_ Hx]%list_elem_of_filter.
  apply HR. by apply (proj1 (Forall_forall _ _) Ha).
Qed.

Lemma tuple_le_key (a b : str * str) : tuple_le a b -> a.1 = b.1 \/ lexico a.1 b.1.
Proof.
  destruct a as [a1 a2], b as [b1 b2]. intros [[= -> ->]|[H|[H _]]]; simpl; auto.
Qed.

Lemma rendered_fields_sorted (e : Event) :
  StronglySorted (fun a b => a.1 = b.1 \/ lexico a.1 b.1) (rendered_fields e).
Proof.
  unfold rendered_fields, sorted.
  apply (StronglySorted_filter_mono tuple_le); [apply tuple_le_key|].
  apply StronglySorted_merge_sort; apply _.
Qed.

Lemma rendered_fields_spec (e : Event) key value :
  (key, value) ∈ rendered_fields e
  <-> (key, value) ∈ e
      /\ (startswith (lit "_") key = false \/ key = lit "_time" \/ key = lit "_raw").
Proof.
  unfold rendered_fields, sorted.
  rewrite list_elem_of_filter, merge_sort_Permutation. simpl.
  rewrite field_kept_spec. tauto.
Qed.

Lemma NoDup_filter_fst (P : str * str -> Prop) `{forall x, Decision (P x)}
    (l : list (str * str)) :
  NoDup l.*1 -> NoDup (filter P l).*1.
Proof.
  induction l as [|a l IH]; [done|]. rewrite fmap_cons. intros [Ha Hl]%NoDup_cons.
  rewrite filter_cons. case_decide; [|by apply IH].
  rewrite fmap_cons. apply NoDup_cons. split; [|by apply IH].
  intros Hin. apply Ha. apply list_elem_of_fmap in Hin as (b & -> & Hb).
  apply list_elem_of_filter in Hb as [_ Hb]. by apply list_elem_of_fmap_2.
Qed.

Lemma StronglySorted_strict (l : list (str * str)) :
  StronglySorted (fun a b => a.1 = b.1 \/ lexico a.1 b.1) l ->
  NoDup l.*1 ->
  StronglySorted (fun a b => lexico a.1 b.1) l.
Proof.
  induction 1 as [|a l _ IH Ha]; [constructor|].
  rewrite fmap_cons. intros [Hn Hl]%NoDup_cons. constructor; [by apply IH|].
  apply Forall_forall. intros b Hb.
  destruct (proj1 (Forall_forall _ _) Ha b Hb) as [He|Hlt]; [|done].
  exfalso. apply Hn. rewrite He. by apply list_elem_of_fmap_2.
Qed.

(** The fields that are rendered for an event whose keys are distinct
    are in strictly increasing order of their names. *)
Lemma rendered_fields_strict (e : Event) :
  NoDup e.*1 -> StronglySorted (fun a b => lexico a.1 b.1) (rendered_fields e).
Proof.
  intros Hn. apply StronglySorted_strict; [apply rendered_fields_sorted|].
  unfold rendered_fields. apply NoDup_filter_fst.
  unfold sorted. by rewrite merge_sort_Permutation.
Qed.

(** C7. Two lists of events whose corresponding records hold the same
    fields, inserted in any order, are formatted to the same text. That
    text is the blocks of the events joined by line feeds; the block of
    event [i] is its heading, its timestamp line when it has a [_time],
    and one line for each of its rendered fields; these fields are in
    increasing order of their names, and a field is among them exactly
    when it is a field of the event whose name does not start with ['_']
    or is ['_time'] or ['_raw']. *)
Theorem format_events_order_independent (es1 es2 : list Event) :
  Forall2 (fun e1 e2 => e1 ≡ₚ e2) es1 es2 ->
  Forall (fun e => NoDup e.*1) es1 ->
  _format_events es1 = _format_events es2
  /\ exists blocks : list str,
       _format_events es1 = join nl blocks
       /\ length blocks = length es1
       /\ forall i e,
            es1 !! i = Some e ->
            exists fields,
              blocks !! i = Some (event_block (S i) (dict_get (lit "_time") e) fields)
              /\ StronglySorted (fun a b => lexico a.1 b.1) fields
              /\ forall key value,
                   (key, value) ∈ fields
                   <-> (key, value) ∈ e
                       /\ (startswith (lit "_") key = false
                           \/ key = lit "_time" \/ key = lit "_raw").
Proof.
  intros Hp Hn. split.
  - unfold _format_events. f_equal. by apply (imap_format_Permutation es1 es2 S).
  - exists (imap (fun i event => format_event (S i) event) es1).
    split; [done|]. split; [by rewrite length_imap|].
    intros i e Hi. exists (rendered_fields e). split; [|split].
    + rewrite list_lookup_imap, Hi. cbn. f_equal.
      unfold format_event, event_block. by rewrite <- !(assoc_L (++)).
    + apply rendered_fields_strict.
      apply (proj1 (Forall_forall _ _) Hn). by apply list_elem_of_lookup_2 in Hi.
    + apply rendered_fields_spec.
Qed.

Lemma format_events_order_independent_witness :
  _format_events [[(lit "b", lit "2"); (lit "_time", lit "t"); (lit "_si", lit "x");
                   (lit "a", lit "1")]]
  = _format_events [[(lit "a", lit "1"); (lit "_si", lit "x"); (lit "b", lit "2");
                     (lit "_time", lit "t")]]
  /\ exists blocks : list str,
       _format_events [[(lit "b", lit "2"); (lit "_time", lit "t"); (lit "_si", lit "x");
                        (lit "a", lit "1")]]
       = join nl blocks
       /\ length blocks
          = length [[(lit "b", lit "2"); (lit "_time", lit "t"); (lit "_si", lit "x");
                     (lit "a", lit "1")]]
       /\ forall i e,
            [[(lit "b", lit "2"); (lit "_time", lit "t"); (lit "_si", lit "x");
              (lit "a", lit "1")]] !! i = Some e ->
            exists fields,
              blocks !! i = Some (event_block (S i) (dict_get (lit "_time") e) fields)
              /\ StronglySorted (fun a b => lexico a.1 b.1) fields
              /\ forall key value,
                   (key, value) ∈ fields
                   <-> (key, value) ∈ e
                       /\ (startswith (lit "_") key = false
                           \/ key = lit "_time" \/ key = lit "_raw").
Proof.
  apply (format_events_order_independent
           [[(lit "b", lit "2"); (lit "_time", lit "t"); (lit "_si", lit "x");
             (lit "a", lit "1")]]
           [[(lit "a", lit "1"); (lit "_si", lit "x"); (lit "b", lit "2");
             (lit "_time", lit "t")]]).
  - constructor; [|constructor].
    apply (bool_decide_unpack _). vm_compute. exact I.
  - constructor; [|constructor].
    apply (bool_decide_unpack _). vm_compute. exact I.
Defined.

(** The text behind the witness: the fields in order of their names, the
    reserved field [_si] left out, the time given twice. *)
Example format_events_text :
  _format_events [[(lit "b", lit "2"); (lit "_time", lit "t"); (lit "_si", lit "x");
                   (lit "a", lit "1")]]
  = lit "Event 1:" ++ nl ++ lit "  Timestamp: t" ++ nl ++ lit "  _time: t" ++ nl
    ++ lit "  a: 1" ++ nl ++ lit "  b: 2" ++ nl.
Proof. vm_compute. reflexivity. Qed.

(** ** The configuration handler *)

Lemma readonly_ret {A} (a : A) : readonly (ret a).
Proof. done. Qed.

Lemma readonly_raise {A} e : readonly (@raise A e).
Proof. done. Qed.

Lemma readonly_bind {A B} (c : IO A) (k : A -> IO B) :
  readonly c -> (forall a, readonly (k a)) -> readonly (bind c k).
Proof.
  intros Hc Hk fs. unfold bind. specialize (Hc fs).
  destruct (c fs) as [[e|a] fs']; simpl in *; subst; [done|]. apply Hk.
Qed.

Lemma readonly_for_each {A B} (f : A -> IO B) (xs : list A) :
  (forall x, readonly (f x)) -> readonly (for_each f xs).
Proof.
  intros Hf. induction xs as [|x xs IH]; [done|].
  cbn [for_each]. apply readonly_bind; [done|]. intros y.
  apply readonly_bind; [done|]. intros ys. apply readonly_ret.
Qed.

Lemma readonly_py_get key dflt v : readonly (py_get key dflt v).
Proof. by destruct v. Qed.

Lemma readonly_py_iter v : readonly (py_iter v).
Proof. by destruct v. Qed.

Lemma readonly_get_tags requests_get endpoint : readonly (get_tags requests_get endpoint).
Proof. unfold get_tags. by destruct (requests_get _). Qed.

Lemma readonly_response_json body : readonly (response_json body).
Proof. by destruct body. Qed.

Create HintDb readonly.

#[local] Hint Resolve readonly_ret readonly_raise readonly_py_get readonly_py_iter
  readonly_get_tags readonly_response_json : readonly.

(** A handler that returns a value makes a read-only body total. *)
Lemma try_except_total {A} (body : IO A) (d : A) fs :
  readonly body -> exists a, try_except body (fun _ => ret d) fs = (inr a, fs).
Proof.
  intros Hb. unfold try_except. specialize (Hb fs).
  destruct (body fs) as [[e|a] fs']; simpl in *; subst; by eexists.
Qed.

Lemma for_each_names (entries : list (list (str * json))) fs :
  for_each (py_get (lit "name") (JStr (lit "unknown"))) (JObj <$> entries) fs
  = (inr ((fun members => default (JStr (lit "unknown")) (member (lit "name") members))
            <$> entries), fs).
Proof.
  induction entries as [|e entries IH]; [done|].
  rewrite !fmap_cons. cbn [for_each]. unfold bind at 1. cbn [py_get ret].
  unfold bind at 1. by rewrite IH.
Qed.

Lemma for_each_inr (entries : list json) fs names fs' :
  for_each (py_get (lit "name") (JStr (lit "unknown"))) entries fs = (inr names, fs') ->
  exists objects, entries = JObj <$> objects.
Proof.
  revert names fs'. induction entries as [|entry entries IH]; intros names fs' H;
    [by exists []|].
  cbn [for_each] in H. unfold bind at 1 in H.
  destruct entry as [| | | | |members]; try discriminate H.
  cbn [py_get ret] in H. unfold bind at 1 in H.
  destruct (for_each _ entries fs) as [[e|found] fs''] eqn:Hf; [discriminate H|].
  destruct (IH _ _ eq_refl) as [objects ->]. by exists (members :: objects).
Qed.

(** C8. [_fetch_available_models] never raises and leaves the files
    alone. On a 200 response whose body is an object with a list of
    objects under ['models'] it returns the ['name'] of each, in order
    (['unknown'] where there is none); when the GET raises, the status is
    not 200, the body does not decode, or the body is not an object, it
    returns the empty list; and it returns a non-empty list only from
    such a 200 response. *)
Theorem fetch_available_models_never_raises
    (requests_get : str -> GetOutcome) (endpoint : str) (fs : FileSystem) :
  (exists names, _fetch_available_models requests_get endpoint fs = (inr names, fs))
  /\ (forall members entries,
        requests_get (endpoint ++ lit "/api/tags") = GetResponse 200 (Some (JObj members)) ->
        member (lit "models") members = Some (JArr (JObj <$> entries)) ->
        _fetch_available_models requests_get endpoint fs
        = (inr ((fun entry => default (JStr (lit "unknown")) (member (lit "name") entry))
                  <$> entries), fs))
  /\ (forall msg,
        requests_get (endpoint ++ lit "/api/tags") = GetRaises msg ->
        _fetch_available_models requests_get endpoint fs = (inr [], fs))
  /\ (forall status_code body,
        requests_get (endpoint ++ lit "/api/tags") = GetResponse status_code body ->
        status_code <> 200%Z ->
        _fetch_available_models requests_get endpoint fs = (inr [], fs))
  /\ (forall data,
        requests_get (endpoint ++ lit "/api/tags") = GetResponse 200 data ->
        (data = None \/ exists v, data = Some v /\ forall members, v <> JObj members) ->
        _fetch_available_models requests_get endpoint fs = (inr [], fs))
  /\ (forall names,
        _fetch_available_models requests_get endpoint fs = (inr names, fs) ->
        names <> [] ->
        exists members entries,
          requests_get (endpoint ++ lit "/api/tags") = GetResponse 200 (Some (JObj members))
          /\ default (JArr []) (member (lit "models") members) = JArr (JObj <$> entries)).
Proof.
  split; [|unfold _fetch_available_models, try_except, get_tags; repeat split].
  - apply try_except_total.
    apply readonly_bind; [auto with readonly|]. intros response.
    destruct (response.1 =? 200)%Z; [|auto with readonly].
    repeat (apply readonly_bind; [auto with readonly|]; intros ?).
    apply readonly_for_each. auto with readonly.
  - intros members entries -> Hm.
    unfold bind at 1. cbn [ret fst snd Z.eqb Pos.eqb response_json].
    unfold bind at 1. cbn [ret py_get]. rewrite Hm.
    unfold bind at 1. cbn [ret default from_option id py_iter].
    unfold bind, ret. by rewrite for_each_names.
  - by intros msg ->.
  - intros status_code body -> Hs. unfold bind at 1. cbn [ret fst snd].
    by destruct (Z.eqb_spec status_code 200).
  - intros data -> [->|(v & -> & Hv)]; [done|].
    cbv [bind ret response_json fst snd Z.eqb Pos.eqb].
    destruct v; try done. by destruct (Hv members).
  - intros names Hr Hn.
    destruct (requests_get _) as [msg|status_code body];
      [cbv in Hr; by simplify_eq|].
    unfold bind at 1 in Hr. cbn [ret fst snd] in Hr.
    destruct (Z.eqb_spec status_code 200) as [->|_]; [|cbv in Hr; by simplify_eq].
    destruct body as [data|]; [|cbv in Hr; by simplify_eq].
    unfold response_json, bind at 1, ret in Hr.
    destruct data as [| | | | |members];
      try (cbv [py_get bind raise] in Hr; by simplify_eq).
    cbn [py_get] in Hr. unfold bind at 1, ret in Hr.
    destruct (default (JArr []) (member (lit "models") members)) as [| | |s|items|keyed] eqn:Hm;
      try (cbv [py_iter bind raise] in Hr; by simplify_eq).
    + destruct s; cbv [py_iter bind raise ret fmap list_fmap for_each py_get] in Hr;
        by simplify_eq.
    + cbn [py_iter] in Hr. unfold bind at 1, ret in Hr.
      destruct (for_each _ items fs) as [[e|found] fs'] eqn:Hf; [by simplify_eq|].
      destruct (for_each_inr _ _ _ _ Hf) as [entries ->]. by exists members, entries.
    + destruct keyed as [|[key v] keyed];
        cbv [py_iter bind raise ret fmap list_fmap for_each py_get fst] in Hr;
        by simplify_eq.
Qed.

Lemma readonly_test_ollama_connection requests_get endpoint :
  readonly (_test_ollama_connection requests_get endpoint).
Proof.
  intros fs. unfold _test_ollama_connection, try_except, bind, get_tags.
  by destruct (requests_get _).
Qed.

(** The probe answers [True] exactly on a 200 response. *)
Lemma test_ollama_connection_spec requests_get endpoint fs :
  _test_ollama_connection requests_get endpoint fs
  = (inr (match requests_get (endpoint ++ lit "/api/tags") with
          | GetResponse status_code _ => (status_code =? 200)%Z
          | GetRaises _ => false
          end), fs).
Proof.
  unfold _test_ollama_connection, try_except, bind, get_tags.
  by destruct (requests_get _).
Qed.

(** C5 (amended). An edit that supplies a non-empty endpoint for which the
    probe returns false raises to the caller, with the message of the
    rejected connection, and leaves the file system, so the persisted
    configuration file, exactly as it was. *)
Theorem handleEdit_rejects_unreachable_endpoint
    (requests_get : str -> GetOutcome) (args : gmap str (list str))
    (endpoint : str) (others : list str) (fs : FileSystem) :
  args !! lit "endpoint" = Some (endpoint :: others) ->
  endpoint <> [] ->
  (_test_ollama_connection requests_get endpoint fs).1 = inr false ->
  handleEdit requests_get args fs
  = (inl (InternalException
            (lit "Error updating configuration: "
             ++ lit "Cannot connect to Ollama at " ++ endpoint)), fs).
Proof.
  intros Ha He Hp. unfold handleEdit, try_except.
  rewrite Ha. cbn [default from_option id index0]. unfold bind at 1. cbn [ret].
  destruct endpoint as [|c endpoint]; [done|]. cbn [truthy].
  unfold bind at 1. unfold bind at 1.
  pose proof (readonly_test_ollama_connection requests_get (c :: endpoint) fs) as Hr.
  destruct (_test_ollama_connection requests_get (c :: endpoint) fs) as [r fs'].
  simpl in Hp, Hr. subst. done.
Qed.

Lemma handleEdit_rejects_unreachable_endpoint_witness :
  handleEdit unreachable_get dead_endpoint_args configured_fs
  = (inl (InternalException
            (lit "Error updating configuration: "
             ++ lit "Cannot connect to Ollama at " ++ lit "http://10.0.0.9:11434")),
     configured_fs).
Proof.
  apply (handleEdit_rejects_unreachable_endpoint _ _ _ []).
  - vm_compute. reflexivity.
  - vm_compute. discriminate.
  - vm_compute. reflexivity.
Defined.

(** C5, the claim as stated fails: with no server reachable the probe
    returns false for the empty endpoint too, yet an edit that supplies
    the empty endpoint is not probed: it succeeds and overwrites the
    persisted configuration. *)
Lemma handleEdit_empty_endpoint_is_written :
  (_test_ollama_connection unreachable_get [] configured_fs).1 = inr false
  /\ empty_endpoint_args !! lit "endpoint" = Some [[]]
  /\ (handleEdit unreachable_get empty_endpoint_args configured_fs).1 = inr tt
  /\ dfirvault_conf (handleEdit unreachable_get empty_endpoint_args configured_fs).2
     <> dfirvault_conf configured_fs.
Proof. repeat split; vm_compute; done. Qed.

(** ** [stream]: the loop cuts the input into chunks *)

Lemma ceil_div_0 n : ceil_div 0 n = 0%nat.
Proof.
  unfold ceil_div. destruct n as [|n]; [done|].
  apply Nat.div_small. lia.
Qed.

Lemma ceil_div_small len n : (0 < len <= n)%nat -> ceil_div len n = 1%nat.
Proof.
  intros H. unfold ceil_div.
  replace (len + n - 1)%nat with ((len - 1) + 1 * n)%nat by lia.
  rewrite Nat.div_add by lia. rewrite Nat.div_small by lia. done.
Qed.

Lemma ceil_div_step len n : (0 < n < len)%nat -> ceil_div len n = S (ceil_div (len - n) n).
Proof.
  intros H. unfold ceil_div.
  replace (len + n - 1)%nat with ((len - n + n - 1) + 1 * n)%nat by lia.
  rewrite Nat.div_add by lia. lia.
Qed.

(** [ceil_div] is the ceiling of the quotient. *)
Lemma ceil_div_spec len n :
  (0 < n)%nat ->
  (len = 0%nat -> ceil_div len n = 0%nat)
  /\ (0 < len -> (ceil_div len n - 1) * n < len <= ceil_div len n * n)%nat.
Proof.
  intros Hn. split; [intros ->; apply ceil_div_0|]. intros Hl. unfold ceil_div.
  pose proof (Nat.div_mod_eq (len + n - 1) n) as Hd.
  pose proof (Nat.mod_upper_bound (len + n - 1) n ltac:(lia)) as Hm.
  set (q := ((len + n - 1) / n)%nat) in *. set (r := ((len + n - 1) mod n)%nat) in *.
  assert (1 <= q)%nat by (destruct q; [lia|lia]). nia.
Qed.

Lemma length_chunks_of_fuel fuel n (records : list Event) :
  (0 < n)%nat -> (length records <= fuel)%nat ->
  length (chunks_of_fuel fuel n records) = ceil_div (length records) n.
Proof.
  intros Hn. revert records. induction fuel as [|fuel IH]; intros records Hl.
  - destruct records; [|simpl in Hl; lia]. by rewrite ceil_div_0.
  - destruct records as [|r records]; [by rewrite ceil_div_0|].
    cbn [chunks_of_fuel length]. rewrite IH by (rewrite length_drop; simpl in *; lia).
    rewrite length_drop.
    destruct (decide (length (r :: records) <= n)%nat) as [Hs|Hs].
    + replace (length (r :: records) - n)%nat with 0%nat by lia.
      rewrite ceil_div_0, ceil_div_small; [done|simpl in *; lia].
    + rewrite (ceil_div_step (length (r :: records))); [done|lia].
Qed.

Lemma length_chunks_of n (records : list Event) :
  (0 < n)%nat -> length (chunks_of n records) = ceil_div (length records) n.
Proof. intros Hn. by apply length_chunks_of_fuel. Qed.

Lemma chunks_of_fuel_lookup fuel n (records : list Event) k :
  (0 < n)%nat -> (length records <= fuel)%nat ->
  (k < ceil_div (length records) n)%nat ->
  chunks_of_fuel fuel n records !! k = Some (chunk_at n (S k) records).
Proof.
  intros Hn. revert records k. induction fuel as [|fuel IH]; intros records k Hl Hk.
  - destruct records; [|simpl in Hl; lia]. rewrite ceil_div_0 in Hk. lia.
  - destruct records as [|r records]; [rewrite ceil_div_0 in Hk; lia|].
    cbn [chunks_of_fuel]. destruct k as [|k].
    + unfold chunk_at. done.
    + cbn [lookup list_lookup].
      assert (n < length (r :: records))%nat as Hlt.
      { destruct (decide (length (r :: records) <= n)%nat) as [Hs|Hs]; [|lia].
        rewrite ceil_div_small in Hk; [lia|simpl in *; lia]. }
      rewrite ceil_div_step in Hk by lia.
      rewrite IH; [|rewrite length_drop; simpl in *; lia|rewrite length_drop; lia].
      unfold chunk_at. rewrite drop_drop. do 3 f_equal. lia.
Qed.

Lemma chunks_of_lookup n (records : list Event) k :
  (0 < n)%nat -> (1 <= k <= ceil_div (length records) n)%nat ->
  chunks_of n records !! (k - 1)%nat = Some (chunk_at n k records).
Proof.
  intros Hn Hk. unfold chunks_of.
  rewrite chunks_of_fuel_lookup by (done || lia). do 2 f_equal. lia.
Qed.

Lemma chunks_of_nonempty n (records : list Event) c :
  (0 < n)%nat -> c ∈ chunks_of n records -> (0 < length c <= n)%nat.
Proof.
  intros Hn. unfold chunks_of. generalize (length records) at 1. intros fuel.
  revert records. induction fuel as [|fuel IH]; intros records Hc.
  - by apply elem_of_nil in Hc.
  - destruct records as [|r records]; [by apply elem_of_nil in Hc|].
    cbn [chunks_of_fuel] in Hc. apply elem_of_cons in Hc as [->|Hc]; [|by eapply IH].
    rewrite length_take. simpl. lia.
Qed.

Section stream_facts.
Variable w : World.
Variable opts : Options.
Variable config : Config.
Variables endpoint model_name : str.
Variable size : Z.
Hypothesis size_positive : (1 <= size)%Z.

Local Abbreviation loop := (stream_loop w opts config endpoint model_name size).
Local Abbreviation run := (run_chunks w opts config endpoint model_name).

(** Records that do not fill the buffer are only appended to it. *)
Lemma stream_loop_fill (c rest : list Event) buffer number previous h :
  (Z.of_nat (length buffer + length c) < size)%Z ->
  loop (c ++ rest) {| event_buffer := buffer; chunk_number := number;
                      previous_summary := previous |} h
  = loop rest {| event_buffer := buffer ++ c; chunk_number := number;
                 previous_summary := previous |} h.
Proof.
  revert buffer. induction c as [|r c IH]; intros buffer Hl.
  - by rewrite app_nil_r.
  - cbn [app stream_loop event_buffer chunk_number previous_summary].
    destruct (Z.leb_spec size (Z.of_nat (length (buffer ++ [r])))) as [Hs|Hs].
    { rewrite length_app in Hs. simpl in *. lia. }
    rewrite IH by (rewrite length_app; simpl in *; lia).
    by rewrite <- (assoc_L (++)).
Qed.

(** The record that fills the buffer flushes it as the next chunk. *)
Lemma stream_loop_chunk (c rest : list Event) number previous h :
  Z.of_nat (length c) = size ->
  loop (c ++ rest) {| event_buffer := []; chunk_number := number;
                      previous_summary := previous |} h
  = let '(out, summary, h1) :=
      flush w opts config endpoint model_name c (S number) previous h in
    let '(outs, l', h') :=
      loop rest {| event_buffer := []; chunk_number := S number;
                   previous_summary := Some summary |} h1 in
    (out :: outs, l', h').
Proof.
  intros Hc. destruct c as [|r c' _] using rev_ind; [simpl in Hc; lia|].
  rewrite length_app in Hc. simpl in Hc.
  rewrite <- (assoc_L (++)). rewrite stream_loop_fill by (simpl; lia).
  cbn [app stream_loop event_buffer chunk_number previous_summary].
  destruct (Z.leb_spec size (Z.of_nat (length (c' ++ [r])))) as [Hs|Hs]; [done|].
  rewrite length_app in Hs. simpl in Hs. lia.
Qed.

(** The loop together with the flush of the remaining events is the
    run over the chunks of the input. *)
Lemma stream_loop_chunks fuel (records : list Event) number previous h :
  (length records <= fuel)%nat ->
  (let '(looped, l, h1) :=
     loop records {| event_buffer := []; chunk_number := number;
                     previous_summary := previous |} h in
   let '(remaining, final_number, h2) :=
     flush_remaining w opts config endpoint model_name l h1 in
   (looped ++ remaining, final_number, h2))
  = let '(outs, h') :=
      run (chunks_of_fuel fuel (Z.to_nat size) records) number previous h in
    (outs, (number + ceil_div (length records) (Z.to_nat size))%nat, h').
Proof.
  revert records number previous h.
  induction fuel as [|fuel IH]; intros records number previous h Hl.
  - destruct records; [|simpl in Hl; lia].
    cbn. rewrite ceil_div_0. do 2 f_equal. lia.
  - destruct records as [|r records].
    { cbn. rewrite ceil_div_0. do 2 f_equal. lia. }
    cbn [chunks_of_fuel run_chunks].
    destruct (decide (Z.of_nat (length (r :: records)) < size)%Z) as [Hs|Hs].
    + rewrite take_ge, drop_ge by lia.
      rewrite <- (app_nil_r (r :: records)) at 1.
      rewrite stream_loop_fill by (simpl in *; lia).
      cbn [stream_loop flush_remaining event_buffer chunk_number previous_summary app].
      destruct (flush _ _ _ _ _ _ _ _ _) as [[out summary] h1].
      destruct fuel; cbn [chunks_of_fuel run_chunks];
        rewrite ceil_div_small by (simpl in *; lia); do 2 f_equal; lia.
    + rewrite <- (take_drop (Z.to_nat size) (r :: records)) at 1.
      rewrite stream_loop_chunk by (rewrite length_take; lia).
      destruct (flush _ _ _ _ _ _ _ _ _) as [[out summary] h1].
      specialize (IH (drop (Z.to_nat size) (r :: records)) (S number) (Some summary) h1).
      rewrite length_drop in IH.
      destruct (loop _ _ h1) as [[looped l] h2].
      destruct (flush_remaining _ _ _ _ _ l h2) as [[remaining final_number] h3].
      destruct (run _ _ _ h1) as [outs h'].
      cbn [app]. assert (length (r :: records) - Z.to_nat size <= fuel)%nat as Hf by (simpl in *; lia).
      specialize (IH Hf). injection IH as -> -> ->.
      do 2 f_equal.
      change (length (r :: records)) with (S (length records)) in *.
      generalize dependent (S (length records)). intros len Hl Hs _.
      destruct (decide (Z.to_nat size = len)) as [He|He].
      * rewrite <- He, Nat.sub_diag, ceil_div_0, ceil_div_small by lia. lia.
      * rewrite (ceil_div_step len) by lia. lia.
Qed.
End stream_facts.

Section run_facts.
Variable w : World.
Variable opts : Options.
Variable config : Config.
Variables endpoint model_name : str.

Local Abbreviation run := (run_chunks w opts config endpoint model_name).
Local Abbreviation call := (_call_ollama w opts config endpoint model_name).

(** A call ends before it sends anything when a conversion raises;
    otherwise it makes one POST and ends as that POST does. It never
    reads the clock. *)
Lemma call_ollama_spec prompt_text h :
  call prompt_text h
  = match conversions w opts config with
    | inl e => (inl e, h)
    | inr seconds =>
        (call_result seconds endpoint
           (requests_post w (length (posts h))
              {| url := endpoint ++ lit "/api/generate"; payload_model := model_name;
                 payload_prompt := prompt_text; timeout := seconds |}),
         {| posts := posts h ++ [{| url := endpoint ++ lit "/api/generate";
                                    payload_model := model_name;
                                    payload_prompt := prompt_text; timeout := seconds |}];
            ticks := ticks h |})
    end.
Proof.
  unfold _call_ollama, conversions.
  destruct (py_float_error w _) as [e|]; [done|].
  destruct (py_int w (max_tokens_or _ _)) as [e|tokens]; [done|].
  destruct (py_int w (cfg_timeout config)) as [e|seconds]; [done|].
  by destruct (requests_post w _ _).
Qed.

Lemma call_ollama_ticks prompt_text h : ticks (call prompt_text h).2 = ticks h.
Proof. rewrite call_ollama_spec. by destruct (conversions w opts config). Qed.

(** A flush makes one call and reads the clock once; its record is
    decided by what the call came to. *)
Lemma flush_spec (c : list Event) k previous h :
  flush w opts config endpoint model_name c k previous h
  = let made := call (_build_prompt opts config (_format_events c) k previous) h in
    let out := chunk_record_of (time_time w (ticks h)) c k made.1 in
    (out, carried out, {| posts := posts made.2; ticks := S (ticks h) |}).
Proof.
  unfold flush, _process_chunk.
  pose proof (call_ollama_ticks (_build_prompt opts config (_format_events c) k previous) h)
    as Ht.
  destruct (call _ h) as [[e|text] h1]; cbn [fst snd] in *;
    unfold _create_result_record; cbn; by rewrite Ht.
Qed.

(** Each chunk gives one record and one reading of the clock, whatever
    its call comes to. *)
Lemma run_chunks_records chunks number previous h :
  ticks (run chunks number previous h).2 = (ticks h + length chunks)%nat
  /\ length (run chunks number previous h).1 = length chunks.
Proof.
  revert number previous h. induction chunks as [|c chunks IH]; intros number previous h.
  - cbn. by rewrite Nat.add_0_r.
  - cbn [run_chunks]. rewrite flush_spec. cbv beta iota zeta.
    match goal with |- context [run chunks ?n ?p ?h1] =>
      destruct (IH n p h1) as (H3 & H4);
      destruct (run chunks n p h1) as [outs h'] end.
    cbn [fst snd posts ticks length] in *. split; lia.
Qed.

Lemma run_chunks_chunk_ids chunks number previous h :
  llm_chunk <$> (run chunks number previous h).1
  = str_of_nat <$> seq (S number) (length chunks).
Proof.
  revert number previous h. induction chunks as [|c chunks IH]; intros number previous h; [done|].
  cbn [run_chunks]. rewrite flush_spec. cbv beta iota zeta.
  match goal with |- context [run chunks ?n ?p ?h1] =>
    specialize (IH n p h1); destruct (run chunks n p h1) as [outs h'] end.
  cbn [fst length seq] in *. rewrite !fmap_cons, IH. f_equal.
  by destruct (call _ h).1.
Qed.

Lemma run_chunks_event_counts (chunks : list (list Event)) number previous h :
  llm_event_count <$> (run chunks number previous h).1 = length <$> chunks.
Proof.
  revert number previous h. induction chunks as [|c chunks IH]; intros number previous h; [done|].
  cbn [run_chunks]. rewrite flush_spec. cbv beta iota zeta.
  match goal with |- context [run chunks ?n ?p ?h1] =>
    specialize (IH n p h1); destruct (run chunks n p h1) as [outs h'] end.
  cbn [fst] in *. rewrite !fmap_cons, IH. f_equal.
  by destruct (call _ h).1.
Qed.

(** The final synthesis, when there is one, makes one call and reads the
    clock once. *)
Lemma final_synthesis_spec number h :
  final_synthesis w opts config endpoint model_name number h
  = if (1 <? number)%nat then
      let made := call (synthesis_prompt number (prompt opts)) h in
      ([final_record_of (time_time w (ticks h)) number made.1],
       {| posts := posts made.2; ticks := S (ticks h) |})
    else ([], h).
Proof.
  unfold final_synthesis, _generate_final_synthesis.
  destruct (1 <? number)%nat; [|done].
  pose proof (call_ollama_ticks (synthesis_prompt number (prompt opts)) h) as Ht.
  destruct (call _ h) as [[e|text] h1]; cbn [fst snd] in *;
    unfold _create_result_record; cbn; by rewrite Ht.
Qed.
End run_facts.

(** The runs whose calls are sent: the three conversions succeed. *)
Section sent_facts.
Variable w : World.
Variable opts : Options.
Variable config : Config.
Variables endpoint model_name : str.
Variable seconds : Z.
Hypothesis converts : conversions w opts config = inr seconds.

Local Abbreviation run := (run_chunks w opts config endpoint model_name).
Local Abbreviation request := (chunk_request opts config endpoint model_name seconds).

Lemma flush_sent (c : list Event) k previous h :
  flush w opts config endpoint model_name c k previous h
  = let out := chunk_record seconds endpoint (time_time w (ticks h)) c k
                 (requests_post w (length (posts h)) (request c k previous)) in
    (out, carried out,
     {| posts := posts h ++ [request c k previous]; ticks := S (ticks h) |}).
Proof. rewrite flush_spec, call_ollama_spec, converts. done. Qed.

(** Each chunk makes exactly one POST and reads the clock once. *)
Lemma run_chunks_effects chunks number previous h :
  exists more,
    posts (run chunks number previous h).2 = posts h ++ more
    /\ length more = length chunks
    /\ ticks (run chunks number previous h).2 = (ticks h + length chunks)%nat
    /\ length (run chunks number previous h).1 = length chunks.
Proof.
  revert number previous h. induction chunks as [|c chunks IH]; intros number previous h.
  - exists []. by rewrite app_nil_r, Nat.add_0_r.
  - cbn [run_chunks]. rewrite flush_sent. cbv beta iota zeta.
    match goal with |- context [run chunks ?n ?p ?h1] =>
      destruct (IH n p h1) as (more & H1 & H2 & H3 & H4);
      destruct (run chunks n p h1) as [outs h'] end.
    cbn [fst snd posts ticks] in *.
    exists (request c (S number) previous :: more).
    rewrite H1, <- (assoc_L (++)). cbn [length]. repeat split; auto with lia.
Qed.

(** Chunk [i] of a run: its POST, its record, and the summary it was
    handed, which is the one carried by the record before it. *)
Lemma run_chunks_lookup chunks number previous h i c :
  chunks !! i = Some c ->
  exists handed,
    posts (run chunks number previous h).2 !! (length (posts h) + i)%nat
    = Some (request c (S number + i) handed)
    /\ (run chunks number previous h).1 !! i
       = Some (chunk_record seconds endpoint (time_time w (ticks h + i)) c (S number + i)
                 (requests_post w (length (posts h) + i)
                    (request c (S number + i) handed)))
    /\ (i = 0%nat -> handed = previous)
    /\ (forall j, i = S j ->
          exists before, (run chunks number previous h).1 !! j = Some before
                         /\ handed = Some (carried before)).
Proof.
  revert number previous h i.
  induction chunks as [|c0 chunks IH]; intros number previous h i Hc; [done|].
  cbn [run_chunks]. rewrite flush_sent. cbv beta iota zeta.
  set (out0 := chunk_record _ _ _ c0 _ _).
  set (h1 := {| posts := _; ticks := _ |}).
  pose proof (run_chunks_effects chunks (S number) (Some (carried out0)) h1) as (more & Hp & _).
  destruct i as [|i].
  - injection Hc as ->. exists previous.
    destruct (run chunks _ _ h1) as [outs h']. cbn [fst snd] in *.
    rewrite Hp. subst h1. cbn [posts]. rewrite !Nat.add_0_r.
    rewrite <- (assoc_L (++)). rewrite lookup_app_r, Nat.sub_diag by lia.
    repeat split; try done.
  - cbn [lookup list_lookup] in Hc.
    destruct (IH (S number) (Some (carried out0)) h1 i Hc) as (handed & H1 & H2 & H3 & H4).
    destruct (run chunks _ _ h1) as [outs h']. cbn [fst snd] in *.
    exists handed. subst h1. cbn [posts ticks] in *.
    rewrite length_app in H1, H2. cbn [length] in *.
    replace (length (posts h) + S i)%nat with (length (posts h) + 1 + i)%nat by lia.
    replace (S number + S i)%nat with (S (S number) + i)%nat by lia.
    replace (ticks h + S i)%nat with (S (ticks h) + i)%nat by lia.
    repeat split; try done.
    intros j [= <-]. destruct i as [|i'].
    + exists out0. split; [done|]. by apply H3.
    + destruct (H4 i' eq_refl) as (before & Hb & ->). by exists before.
Qed.

Lemma final_synthesis_sent number h :
  final_synthesis w opts config endpoint model_name number h
  = if (1 <? number)%nat then
      ([final_record seconds endpoint (time_time w (ticks h)) number
          (requests_post w (length (posts h))
             (final_request opts endpoint model_name seconds number))],
       {| posts := posts h ++ [final_request opts endpoint model_name seconds number];
          ticks := S (ticks h) |})
    else ([], h).
Proof.
  rewrite final_synthesis_spec, call_ollama_spec, converts. done.
Qed.
End sent_facts.

(** The runs in which nothing is sent: a conversion raises. *)
Section unsent_facts.
Variable w : World.
Variable opts : Options.
Variable config : Config.
Variables endpoint model_name : str.
Variable e : str.
Hypothesis refuses : conversions w opts config = inl e.

Local Abbreviation run := (run_chunks w opts config endpoint model_name).

Lemma flush_unsent (c : list Event) k previous h :
  flush w opts config endpoint model_name c k previous h
  = (chunk_record_of (time_time w (ticks h)) c k (inl e), [],
     {| posts := posts h; ticks := S (ticks h) |}).
Proof. rewrite flush_spec, call_ollama_spec, refuses. done. Qed.

Lemma run_chunks_unsent chunks number previous h :
  run chunks number previous h
  = (imap (fun i c => chunk_record_of (time_time w (ticks h + i)) c (S number + i) (inl e))
       chunks,
     {| posts := posts h; ticks := ticks h + length chunks |}).
Proof.
  revert number previous h. induction chunks as [|c chunks IH]; intros number previous h.
  - cbn. rewrite Nat.add_0_r. by destruct h.
  - cbn [run_chunks]. rewrite flush_unsent. rewrite IH. cbn [posts ticks imap length].
    rewrite !Nat.add_0_r. f_equal.
    + f_equal. apply imap_ext. intros i c' _. cbv beta.
      replace (S (ticks h) + i)%nat with (ticks h + S i)%nat by lia.
      by replace (S (S number) + i)%nat with (S number + S i)%nat by lia.
    + f_equal. lia.
Qed.

Lemma final_synthesis_unsent number h :
  final_synthesis w opts config endpoint model_name number h
  = if (1 <? number)%nat then
      ([final_record_of (time_time w (ticks h)) number (inl e)],
       {| posts := posts h; ticks := S (ticks h) |})
    else ([], h).
Proof. rewrite final_synthesis_spec, call_ollama_spec, refuses. done. Qed.
End unsent_facts.

(** ** [stream]: the whole run *)

Lemma lit_digits d : Forall (fun c => 48 <= c <= 57) (lit (NilEmpty.string_of_uint d)).
Proof.
  unfold lit. induction d; cbn [NilEmpty.string_of_uint list_ascii_of_string fmap list_fmap];
    constructor; (done || (vm_compute; split; discriminate)).
Qed.

Lemma str_of_nat_not_FINAL k : str_of_nat k <> lit "FINAL".
Proof.
  intros H. pose proof (lit_digits (Nat.to_uint k)) as Hd.
  fold (str_of_nat k) in Hd. rewrite H in Hd.
  apply Forall_cons in Hd as [[_ Hd] _]. by apply Hd.
Qed.

Lemma filter_all {A} (P : A -> Prop) `{forall x, Decision (P x)} (l : list A) :
  Forall P l -> filter P l = l.
Proof.
  induction 1 as [|x l Hx _ IH]; [done|]. rewrite filter_cons, decide_True by done.
  by rewrite IH.
Qed.

Lemma filter_none {A} (P : A -> Prop) `{forall x, Decision (P x)} (l : list A) :
  Forall (fun x => ~ P x) l -> filter P l = [].
Proof.
  induction 1 as [|x l Hx _ IH]; [done|]. by rewrite filter_cons, decide_False.
Qed.

Section whole_run.
Variable w : World.
Variable opts : Options.
Variable config : Config.
Hypothesis size_positive : (1 <= chunk_size opts)%Z.

Local Abbreviation endpoint := (cfg_endpoint config).
Local Abbreviation model_name := (or_else (model opts) (cfg_model config)).
Local Abbreviation n := (Z.to_nat (chunk_size opts)).

(** The run of [stream]: the chunks of the input flushed in order, then
    the final synthesis when there is more than one chunk. *)
Lemma stream_run (records : list Event) h :
  stream w opts config records h
  = let '(outs, h1) :=
      run_chunks w opts config endpoint model_name (chunks_of n records) 0 None h in
    let '(final, h2) :=
      final_synthesis w opts config endpoint model_name
        (ceil_div (length records) n) h1 in
    (outs ++ final, h2).
Proof.
  unfold stream, chunks_of.
  pose proof (stream_loop_chunks w opts config endpoint model_name (chunk_size opts)
                size_positive (length records) records 0 None h (Nat.le_refl _)) as H.
  destruct (stream_loop _ _ _ _ _ _ _ _ h) as [[looped l] h1].
  destruct (flush_remaining _ _ _ _ _ l h1) as [[remaining number] h2].
  destruct (run_chunks _ _ _ _ _ _ _ _ h) as [outs h'].
  injection H as <- -> ->. cbn [Nat.add].
  destruct (final_synthesis _ _ _ _ _ _ _) as [final h3].
  by rewrite (assoc_L (++)).
Qed.

Lemma stream_chunk_ids (records : list Event) h :
  llm_chunk <$> (stream w opts config records h).1
  = (str_of_nat <$> seq 1 (ceil_div (length records) n))
    ++ (if (1 <? ceil_div (length records) n)%nat then [lit "FINAL"] else []).
Proof.
  rewrite stream_run.
  pose proof (run_chunks_chunk_ids w opts config endpoint model_name
                (chunks_of n records) 0 None h) as H.
  destruct (run_chunks _ _ _ _ _ _ _ _ h) as [outs h1]. cbn [fst] in H.
  rewrite final_synthesis_spec.
  rewrite length_chunks_of in H by lia.
  destruct (1 <? _)%nat; cbn [fst]; rewrite fmap_app, H; [|done].
  f_equal. cbn. by destruct (_call_ollama _ _ _ _ _ _ _).1.
Qed.

(** The chunk records of a run, with the synthesis record split off. *)
Lemma stream_chunk_records (records : list Event) h :
  take (ceil_div (length records) n) (stream w opts config records h).1
  = (run_chunks w opts config endpoint model_name (chunks_of n records) 0 None h).1.
Proof.
  rewrite stream_run.
  pose proof (run_chunks_records w opts config endpoint model_name
                (chunks_of n records) 0 None h) as [_ Hlen].
  destruct (run_chunks _ _ _ _ _ _ _ _ h) as [outs h1]. cbn [fst] in *.
  destruct (final_synthesis _ _ _ _ _ _ _) as [final h2]. cbn [fst].
  rewrite length_chunks_of in Hlen by lia. by rewrite <- Hlen, take_app_length.
Qed.

Section sent.
Variable seconds : Z.
Hypothesis converts : conversions w opts config = inr seconds.

Lemma stream_posts (records : list Event) h :
  length (posts (stream w opts config records h).2)
  = (length (posts h) + ceil_div (length records) n
     + (if (1 <? ceil_div (length records) n)%nat then 1 else 0))%nat.
Proof.
  rewrite stream_run.
  pose proof (run_chunks_effects w opts config endpoint model_name seconds converts
                (chunks_of n records) 0 None h) as (more & H1 & H2 & _).
  destruct (run_chunks _ _ _ _ _ _ _ _ h) as [outs h1]. cbn [fst snd] in *.
  rewrite (final_synthesis_sent w opts config endpoint model_name seconds converts).
  rewrite length_chunks_of in H2 by lia.
  destruct (1 <? _)%nat; cbn [snd posts]; rewrite ?length_app, H1, length_app, H2;
    simpl; lia.
Qed.

(** Chunk [k] of a whole run started on a fresh host. *)
Lemma stream_lookup (records : list Event) k :
  (1 <= k <= ceil_div (length records) n)%nat ->
  exists handed,
    posts (stream w opts config records init_host).2 !! (k - 1)%nat
    = Some (chunk_request opts config endpoint model_name seconds
              (chunk_at n k records) k handed)
    /\ (stream w opts config records init_host).1 !! (k - 1)%nat
       = Some (chunk_record seconds endpoint (time_time w (k - 1)) (chunk_at n k records) k
                 (requests_post w (k - 1)
                    (chunk_request opts config endpoint model_name seconds
                       (chunk_at n k records) k handed)))
    /\ (k = 1%nat -> handed = None)
    /\ ((1 < k)%nat ->
          exists before,
            (stream w opts config records init_host).1 !! (k - 2)%nat = Some before
            /\ handed = Some (carried before)).
Proof.
  intros Hk. rewrite stream_run.
  pose proof (chunks_of_lookup n records k ltac:(lia) Hk) as Hc.
  pose proof (run_chunks_lookup w opts config endpoint model_name seconds converts
                (chunks_of n records) 0 None init_host (k - 1) _ Hc)
    as (handed & H1 & H2 & H3 & H4).
  pose proof (run_chunks_effects w opts config endpoint model_name seconds converts
                (chunks_of n records) 0 None init_host) as (more & Hp & Hm & _ & Ho).
  destruct (run_chunks _ _ _ _ _ _ _ _ init_host) as [outs h1]. cbn [fst snd] in *.
  rewrite length_chunks_of in Hm, Ho by lia.
  cbn [init_host posts ticks Nat.add app] in *.
  replace (S (k - 1)) with k in * by lia.
  rewrite (final_synthesis_sent w opts config endpoint model_name seconds converts).
  cbn [length Nat.add] in H1, H2. rewrite <- Hp in Hm.
  exists handed.
  assert (forall (final : list OutRecord) (extra : list Request) t,
            posts {| posts := posts h1 ++ extra; ticks := t |} !! (k - 1)%nat
            = Some (chunk_request opts config endpoint model_name seconds
                      (chunk_at n k records) k handed)
            /\ (outs ++ final) !! (k - 1)%nat
               = Some (chunk_record seconds endpoint (time_time w (k - 1))
                         (chunk_at n k records) k
                         (requests_post w (k - 1)
                            (chunk_request opts config endpoint model_name seconds
                               (chunk_at n k records) k handed)))
            /\ (k = 1%nat -> handed = None)
            /\ ((1 < k)%nat ->
                  exists before,
                    (outs ++ final) !! (k - 2)%nat = Some before
                    /\ handed = Some (carried before))) as Hgen.
  { intros final extra t. cbn [posts]. rewrite !lookup_app_l by lia.
    repeat split; try done.
    - intros ->. by apply H3.
    - intros Hk1. destruct (H4 (k - 2)%nat ltac:(lia)) as (before & Hb & ->).
      by exists before. }
  destruct (1 <? _)%nat; cbn [fst snd]; [apply Hgen|].
  specialize (Hgen [] [] (ticks h1)).
  rewrite (app_nil_r (posts h1)) in Hgen. exact Hgen.
Qed.
End sent.
End whole_run.

(** ** [stream]: the properties of the specification *)

Lemma length_filter_fmap {A B} (f : A -> B) (P : B -> Prop) `{forall y, Decision (P y)}
    (l : list A) :
  length (filter (fun x => P (f x)) l) = length (filter P (f <$> l)).
Proof.
  induction l as [|x l IH]; [done|].
  rewrite fmap_cons, !filter_cons. case_decide; simpl; by rewrite IH.
Qed.

(** C1. With a chunk size [n] that the option validator accepts
    (1 to 1000), a run over [L] records yields the records of chunks 1 to
    [ceil(L/n)], in order, followed by one record tagged ["FINAL"]
    exactly when there is more than one chunk: [ceil(L/n)] per-chunk
    records (none when [L = 0]) and at most one synthesis record. *)
Theorem stream_record_count (w : World) (opts : Options) (config : Config)
    (records : list Event) (h : Host) :
  chunk_size_validator (chunk_size opts) = true ->
  llm_chunk <$> (stream w opts config records h).1
  = (str_of_nat <$> seq 1 (ceil_div (length records) (Z.to_nat (chunk_size opts))))
    ++ (if (1 <? ceil_div (length records) (Z.to_nat (chunk_size opts)))%nat
        then [lit "FINAL"] else [])
  /\ length (filter (fun out => llm_chunk out <> lit "FINAL")
              (stream w opts config records h).1)
     = ceil_div (length records) (Z.to_nat (chunk_size opts))
  /\ length (filter (fun out => llm_chunk out = lit "FINAL")
              (stream w opts config records h).1)
     = (if (1 <? ceil_div (length records) (Z.to_nat (chunk_size opts)))%nat
        then 1%nat else 0%nat)
  /\ (length records = 0%nat
      -> ceil_div (length records) (Z.to_nat (chunk_size opts)) = 0%nat)
  /\ ((0 < length records)%nat
      -> ((ceil_div (length records) (Z.to_nat (chunk_size opts)) - 1)
            * Z.to_nat (chunk_size opts) < length records
          <= ceil_div (length records) (Z.to_nat (chunk_size opts))
             * Z.to_nat (chunk_size opts))%nat).
Proof.
  intros Hv. unfold chunk_size_validator in Hv.
  apply andb_prop in Hv as [Hlo%Z.leb_le Hhi%Z.leb_le].
  pose proof (stream_chunk_ids w opts config Hlo records h) as Hids.
  set (m := ceil_div (length records) (Z.to_nat (chunk_size opts))) in *.
  assert (Forall (fun c => c <> lit "FINAL") (str_of_nat <$> seq 1 m)) as Hnf.
  { apply Forall_fmap, Forall_forall. intros k _. apply str_of_nat_not_FINAL. }
  split; [done|]. split; [|split].
  - etransitivity;
      [exact (length_filter_fmap llm_chunk (fun c : str => c <> lit "FINAL") _)|].
    rewrite Hids.
    rewrite filter_app, (filter_all _ _ Hnf), length_app, length_fmap, length_seq.
    destruct (1 <? m)%nat; [|simpl; lia].
    rewrite filter_cons, decide_False by (by intros ?). simpl. lia.
  - etransitivity;
      [exact (length_filter_fmap llm_chunk (fun c : str => c = lit "FINAL") _)|].
    rewrite Hids.
    rewrite filter_app, filter_none.
    + by destruct (1 <? m)%nat.
    + eapply Forall_impl; [exact Hnf|]. by intros c Hc.
  - apply ceil_div_spec. lia.
Qed.

Lemma stream_record_count_witness :
  llm_chunk <$> (stream plain_world (sample_options 10) sample_config (sample_events 25) init_host).1
  = (str_of_nat <$> seq 1 (ceil_div (length (sample_events 25)) (Z.to_nat 10)))
    ++ (if (1 <? ceil_div (length (sample_events 25)) (Z.to_nat 10))%nat
        then [lit "FINAL"] else []).
Proof.
  apply (stream_record_count plain_world (sample_options 10) sample_config
           (sample_events 25) init_host).
  reflexivity.
Defined.

(** The end-to-end example of the specification: 25 records in chunks of
    10 give chunks of 10, 10 and 5 records and a synthesis over 3 chunks. *)
Example stream_25_by_10 :
  (fun out => (llm_chunk out, llm_event_count out))
    <$> (stream plain_world (sample_options 10) sample_config (sample_events 25) init_host).1
  = [(lit "1", 10%nat); (lit "2", 10%nat); (lit "3", 5%nat); (lit "FINAL", 3%nat)].
Proof. vm_compute. reflexivity. Qed.

(** C9 (amended). An input that is not empty and shorter than one chunk,
    for a chunk size that the validator accepts, passes through the loop
    without a flush and is flushed whole afterwards: the run yields
    exactly one record, for chunk 1, with all the events. The validator
    accepts the integers from 1 to 1000 only, so a chunk size of zero
    never reaches the loop. *)
Theorem stream_short_input (w : World) (opts : Options) (config : Config)
    (records : list Event) (h : Host) :
  chunk_size_validator (chunk_size opts) = true ->
  (0 < length records)%nat ->
  (Z.of_nat (length records) < chunk_size opts)%Z ->
  stream_loop w opts config (cfg_endpoint config) (or_else (model opts) (cfg_model config))
    (chunk_size opts) records
    {| event_buffer := []; chunk_number := 0; previous_summary := None |} h
  = ([], {| event_buffer := records; chunk_number := 0; previous_summary := None |}, h)
  /\ (exists out,
        (stream w opts config records h).1 = [out]
        /\ llm_chunk out = lit "1"
        /\ llm_event_count out = length records)
  /\ chunk_size_validator 0 = false
  /\ (forall v, chunk_size_validator v = true <-> (1 <= v <= 1000)%Z).
Proof.
  intros Hv Hl Hs.
  assert (stream_loop w opts config (cfg_endpoint config)
            (or_else (model opts) (cfg_model config)) (chunk_size opts) records
            {| event_buffer := []; chunk_number := 0; previous_summary := None |} h
          = ([], {| event_buffer := records; chunk_number := 0; previous_summary := None |}, h))
    as Hloop.
  { rewrite <- (app_nil_r records) at 1.
    by rewrite stream_loop_fill by (simpl; lia). }
  split; [done|]. split; [|split].
  - unfold stream. rewrite Hloop. unfold flush_remaining.
    cbn [event_buffer chunk_number previous_summary].
    destruct records as [|r records]; [simpl in Hl; lia|].
    rewrite flush_spec. cbv beta iota zeta. cbn [final_synthesis Nat.ltb Nat.leb app].
    eexists. split; [done|]. by destruct (_call_ollama _ _ _ _ _ _ _).1.
  - done.
  - intros v. unfold chunk_size_validator. rewrite andb_true_iff, !Z.leb_le. done.
Qed.

Lemma stream_short_input_witness :
  exists out,
    (stream plain_world (sample_options 10) sample_config (sample_events 3) init_host).1 = [out]
    /\ llm_chunk out = lit "1"
    /\ llm_event_count out = length (sample_events 3).
Proof.
  apply (stream_short_input plain_world (sample_options 10) sample_config
           (sample_events 3) init_host).
  - reflexivity.
  - vm_compute. lia.
  - vm_compute. reflexivity.
Defined.

(** C9, the claim as stated fails: with a chunk size of zero every record
    fills the buffer on its own, so two records are flushed inside the
    loop as two chunks, nothing remains for the partial flush, and the
    run yields two per-chunk records and a synthesis. *)
Lemma stream_chunk_size_zero :
  chunk_size_validator 0 = false
  /\ (fun out => (llm_chunk out, llm_event_count out))
       <$> (stream_loop plain_world (sample_options 0) sample_config
              (cfg_endpoint sample_config)
              (or_else (model (sample_options 0)) (cfg_model sample_config))
              0 (sample_events 2)
              {| event_buffer := []; chunk_number := 0; previous_summary := None |}
              init_host).1.1
     = [(lit "1", 1%nat); (lit "2", 1%nat)]
  /\ llm_chunk
       <$> (stream plain_world (sample_options 0) sample_config (sample_events 2) init_host).1
     = [lit "1"; lit "2"; lit "FINAL"].
Proof. repeat split; vm_compute; reflexivity. Qed.

(** C10. In a run that has more than one chunk and whose calls are sent
    (the numeric settings convert, the timeout to [seconds]), the last
    POST is the synthesis call, and the prompt of that call is
    [synthesis_prompt] of the number of chunks and the user's prompt,
    nothing else; when the call succeeds, the last record is tagged
    ["FINAL"] and its event count is the number of chunks. *)
Theorem final_synthesis_prompt (w : World) (opts : Options) (config : Config)
    (records : list Event) (h : Host) (seconds : Z) :
  (1 <= chunk_size opts)%Z ->
  (1 < ceil_div (length records) (Z.to_nat (chunk_size opts)))%nat ->
  conversions w opts config = inr seconds ->
  last (posts (stream w opts config records h).2)
  = Some {| url := cfg_endpoint config ++ lit "/api/generate";
            payload_model := or_else (model opts) (cfg_model config);
            payload_prompt :=
              synthesis_prompt (ceil_div (length records) (Z.to_nat (chunk_size opts)))
                (prompt opts);
            timeout := seconds |}
  /\ forall response,
       requests_post w
         (length (posts h) + ceil_div (length records) (Z.to_nat (chunk_size opts)))
         {| url := cfg_endpoint config ++ lit "/api/generate";
            payload_model := or_else (model opts) (cfg_model config);
            payload_prompt :=
              synthesis_prompt (ceil_div (length records) (Z.to_nat (chunk_size opts)))
                (prompt opts);
            timeout := seconds |}
       = Response200 response ->
       exists t,
         last (stream w opts config records h).1
         = Some {| _time := t;
                   llm_chunk := lit "FINAL";
                   llm_status := lit "success";
                   llm_event_count :=
                     ceil_div (length records) (Z.to_nat (chunk_size opts));
                   llm_response := default (lit "No response generated") response;
                   llm_summary := Some (lit "Final synthesis across all analyzed chunks") |}.
Proof.
  intros Hlo Hm Hc. rewrite (stream_run w opts config Hlo).
  pose proof (run_chunks_effects w opts config (cfg_endpoint config)
                (or_else (model opts) (cfg_model config)) seconds Hc
                (chunks_of (Z.to_nat (chunk_size opts)) records) 0 None h)
    as (more & Hp & Hlen & _).
  destruct (run_chunks _ _ _ _ _ _ _ _ h) as [outs h1]. cbn [fst snd] in *.
  rewrite length_chunks_of in Hlen by lia.
  rewrite (final_synthesis_sent w opts config _ _ seconds Hc).
  apply Nat.ltb_lt in Hm. rewrite Hm. cbn [fst snd posts].
  rewrite !last_snoc. split; [done|].
  intros response Hr. rewrite Hp, length_app, Hlen.
  unfold final_record, final_request. rewrite Hr. by eexists.
Qed.

Lemma final_synthesis_prompt_witness :
  last (posts (stream plain_world (sample_options 2) sample_config (sample_events 5) init_host).2)
  = Some {| url := cfg_endpoint sample_config ++ lit "/api/generate";
            payload_model := or_else (model (sample_options 2)) (cfg_model sample_config);
            payload_prompt :=
              synthesis_prompt (ceil_div (length (sample_events 5)) (Z.to_nat 2))
                (prompt (sample_options 2));
            timeout := 120 |}.
Proof.
  apply (final_synthesis_prompt plain_world (sample_options 2) sample_config
           (sample_events 5) init_host 120).
  - vm_compute. discriminate.
  - vm_compute. lia.
  - reflexivity.
Defined.

(** ** The carried-over context *)

Lemma previous_context_heading_head k :
  exists rest, previous_context_heading k = 10 :: 10 :: 80 :: 114 :: 101 :: rest.
Proof. unfold previous_context_heading. eexists. reflexivity. Qed.

Lemma format_events_head (events : list Event) :
  _format_events events = [] \/ exists rest, _format_events events = 69 :: rest.
Proof.
  destruct events as [|e events]; [by left|]. right.
  unfold _format_events. cbn [imap]. unfold format_event at 1.
  destruct (imap _ events); cbn [join]; eexists; reflexivity.
Qed.

Lemma mode_instructions_head mode :
  mode_instructions mode = []
  \/ (exists rest, mode_instructions mode = 80 :: rest)
  \/ (exists rest, mode_instructions mode = 70 :: rest).
Proof.
  unfold mode_instructions. repeat case_decide; eauto.
Qed.

(** The heading of the carried-over context is among the parts of a prompt
    exactly when the prompt carries context. *)
Lemma previous_context_heading_in_parts opts config (events : list Event) k previous :
  previous_context_heading k ∈ prompt_parts opts config (_format_events events) k previous
  <-> carries_context k previous = true.
Proof.
  unfold prompt_parts. destruct (carries_context k previous).
  - split; [done|]. intros _. rewrite !elem_of_app, !elem_of_cons. auto.
  - split; [|done]. intros H. exfalso.
    destruct (previous_context_heading_head k) as [rest Hh]. rewrite Hh in H.
    rewrite !elem_of_app, !elem_of_cons, !elem_of_nil in H.
    destruct (format_events_head events) as [He|[r He]]; rewrite He in H;
      destruct (mode_instructions_head (or_else (analysis_mode opts) (cfg_analysis_mode config)))
        as [Hm|[[r' Hm]|[r' Hm]]]; rewrite Hm in H;
      intuition discriminate.
Qed.

(** C6. In a run started on a fresh host whose calls are sent (the
    numeric settings convert, the timeout to [seconds]), the [k]-th POST
    is the one of chunk [k]; when it fails (timeout, connection failure,
    another request error, any other exception) the [k]-th record has
    status ["error"] and carries the description of the failure.
    Whatever the POSTs come to, the run yields a record for every chunk,
    and it makes one POST per chunk plus the synthesis call: no call is
    made twice. *)
Theorem failed_chunk_is_reported (w : World) (opts : Options) (config : Config)
    (records : list Event) (k : nat) (seconds : Z) :
  (1 <= chunk_size opts)%Z ->
  (1 <= k <= ceil_div (length records) (Z.to_nat (chunk_size opts)))%nat ->
  conversions w opts config = inr seconds ->
  exists handed,
    posts (stream w opts config records init_host).2 !! (k - 1)%nat
    = Some (chunk_request opts config (cfg_endpoint config)
              (or_else (model opts) (cfg_model config)) seconds
              (chunk_at (Z.to_nat (chunk_size opts)) k records) k handed)
    /\ (forall description,
          failure_message seconds (cfg_endpoint config)
            (requests_post w (k - 1)
               (chunk_request opts config (cfg_endpoint config)
                  (or_else (model opts) (cfg_model config)) seconds
                  (chunk_at (Z.to_nat (chunk_size opts)) k records) k handed))
          = Some description ->
          (stream w opts config records init_host).1 !! (k - 1)%nat
          = Some {| _time := time_time w (k - 1);
                    llm_chunk := str_of_nat k;
                    llm_status := lit "error";
                    llm_event_count := length (chunk_at (Z.to_nat (chunk_size opts)) k records);
                    llm_response := description;
                    llm_summary := None |})
    /\ llm_chunk <$> (stream w opts config records init_host).1
       = (str_of_nat <$> seq 1 (ceil_div (length records) (Z.to_nat (chunk_size opts))))
         ++ (if (1 <? ceil_div (length records) (Z.to_nat (chunk_size opts)))%nat
             then [lit "FINAL"] else [])
    /\ length (posts (stream w opts config records init_host).2)
       = (ceil_div (length records) (Z.to_nat (chunk_size opts))
          + (if (1 <? ceil_div (length records) (Z.to_nat (chunk_size opts)))%nat
             then 1 else 0))%nat.
Proof.
  intros Hlo Hk Hc.
  destruct (stream_lookup w opts config Hlo seconds Hc records k Hk)
    as (handed & H1 & H2 & _).
  exists handed. split; [done|]. split; [|split].
  - intros description Hd. rewrite H2. f_equal. unfold chunk_record.
    destruct (requests_post w _ _); cbn in Hd |- *; by simplify_eq.
  - by apply stream_chunk_ids.
  - by rewrite (stream_posts w opts config Hlo seconds Hc).
Qed.

Lemma failed_chunk_is_reported_witness :
  exists handed,
    posts (stream flaky_world (sample_options 2) sample_config (sample_events 5) init_host).2
      !! (2 - 1)%nat
    = Some (chunk_request (sample_options 2) sample_config (cfg_endpoint sample_config)
              (or_else (model (sample_options 2)) (cfg_model sample_config)) 120
              (chunk_at (Z.to_nat 2) 2 (sample_events 5)) 2 handed)
    /\ (forall description,
          failure_message 120 (cfg_endpoint sample_config)
            (requests_post flaky_world (2 - 1)
               (chunk_request (sample_options 2) sample_config (cfg_endpoint sample_config)
                  (or_else (model (sample_options 2)) (cfg_model sample_config)) 120
                  (chunk_at (Z.to_nat 2) 2 (sample_events 5)) 2 handed))
          = Some description ->
          (stream flaky_world (sample_options 2) sample_config (sample_events 5) init_host).1
            !! (2 - 1)%nat
          = Some {| _time := time_time flaky_world (2 - 1);
                    llm_chunk := str_of_nat 2;
                    llm_status := lit "error";
                    llm_event_count := length (chunk_at (Z.to_nat 2) 2 (sample_events 5));
                    llm_response := description;
                    llm_summary := None |})
    /\ llm_chunk
         <$> (stream flaky_world (sample_options 2) sample_config (sample_events 5) init_host).1
       = (str_of_nat <$> seq 1 (ceil_div (length (sample_events 5)) (Z.to_nat 2)))
         ++ (if (1 <? ceil_div (length (sample_events 5)) (Z.to_nat 2))%nat
             then [lit "FINAL"] else [])
    /\ length (posts (stream flaky_world (sample_options 2) sample_config
                        (sample_events 5) init_host).2)
       = (ceil_div (length (sample_events 5)) (Z.to_nat 2)
          + (if (1 <? ceil_div (length (sample_events 5)) (Z.to_nat 2))%nat
             then 1 else 0))%nat.
Proof.
  apply (failed_chunk_is_reported flaky_world (sample_options 2) sample_config
           (sample_events 5) 2 120).
  - vm_compute. discriminate.
  - vm_compute. lia.
  - reflexivity.
Defined.

(** The run behind the witness: the second of three chunks times out, the
    third is analysed all the same, and four POSTs are made in all. *)
Example stream_flaky_run :
  (fun out => (llm_chunk out, llm_status out))
    <$> (stream flaky_world (sample_options 2) sample_config (sample_events 5) init_host).1
  = [(lit "1", lit "success"); (lit "2", lit "error"); (lit "3", lit "success");
     (lit "FINAL", lit "success")]
  /\ llm_response
       <$> (stream flaky_world (sample_options 2) sample_config (sample_events 5) init_host).1
           !! 1%nat
     = Some (lit "Request to LLM timed out after 120 seconds")
  /\ length (posts (stream flaky_world (sample_options 2) sample_config
                      (sample_events 5) init_host).2) = 4%nat.
Proof. repeat split; vm_compute; reflexivity. Qed.

(** The prompt that [_build_prompt] returns, written out: the opening,
    the part on the chunk before, the closing. *)
Lemma build_prompt_text opts config (formatted : str) k previous :
  _build_prompt opts config formatted k previous
  = prompt_opening opts config
    ++ (if carries_context k previous
        then context_section k (default [] previous)
        else plain_section k)
    ++ prompt_closing formatted.
Proof.
  unfold _build_prompt, prompt_parts, prompt_opening, context_section, plain_section,
    prompt_closing, previous_context_heading.
  cbv zeta. destruct (carries_context k previous); cbn [app join];
    by rewrite <- !(assoc_L (++)).
Qed.

Lemma context_section_head k summary :
  exists rest, context_section k summary = 10 :: 10 :: 80 :: rest.
Proof. unfold context_section. eexists. reflexivity. Qed.

Lemma plain_section_head k : exists rest, plain_section k = 10 :: 10 :: 65 :: rest.
Proof. unfold plain_section. eexists. reflexivity. Qed.

(** C2 (amended). In a run whose calls are sent, the prompt of chunk
    [k > 1] is built with the summary carried by the record of chunk
    [k-1]. When chunk [k-1] succeeded and the summary extracted from its
    response (the lines after a marker, or the stripped first 200
    characters when there is no marker) is not empty, the prompt that is
    sent is the opening, the previous-context section with that summary
    below its heading, and the closing; otherwise it is the opening, the
    plain chunk heading and the closing. So the prompt that is sent has
    a previous-context section exactly in the first case. *)
Theorem carryover_context (w : World) (opts : Options) (config : Config)
    (records : list Event) (k : nat) (seconds : Z) :
  (1 <= chunk_size opts)%Z ->
  (1 < k <= ceil_div (length records) (Z.to_nat (chunk_size opts)))%nat ->
  conversions w opts config = inr seconds ->
  exists before request,
    (stream w opts config records init_host).1 !! (k - 2)%nat = Some before
    /\ llm_chunk before = str_of_nat (k - 1)
    /\ posts (stream w opts config records init_host).2 !! (k - 1)%nat = Some request
    /\ request
       = chunk_request opts config (cfg_endpoint config)
           (or_else (model opts) (cfg_model config)) seconds
           (chunk_at (Z.to_nat (chunk_size opts)) k records) k
           (Some (carried before))
    /\ (llm_status before = lit "success" ->
        _extract_summary (llm_response before) <> [] ->
        payload_prompt request
        = prompt_opening opts config
          ++ context_section k (_extract_summary (llm_response before))
          ++ prompt_closing
               (_format_events (chunk_at (Z.to_nat (chunk_size opts)) k records)))
    /\ (~ (llm_status before = lit "success"
           /\ _extract_summary (llm_response before) <> []) ->
        payload_prompt request
        = prompt_opening opts config
          ++ plain_section k
          ++ prompt_closing
               (_format_events (chunk_at (Z.to_nat (chunk_size opts)) k records)))
    /\ ((exists summary,
           payload_prompt request
           = prompt_opening opts config
             ++ context_section k summary
             ++ prompt_closing
                  (_format_events (chunk_at (Z.to_nat (chunk_size opts)) k records)))
        <-> llm_status before = lit "success"
            /\ _extract_summary (llm_response before) <> []).
Proof.
  intros Hlo Hk Hconv.
  destruct (stream_lookup w opts config Hlo seconds Hconv records k ltac:(lia))
    as (handed & H1 & _ & _ & H4).
  destruct (H4 ltac:(lia)) as (before & Hb & ->).
  destruct (stream_lookup w opts config Hlo seconds Hconv records (k - 1) ltac:(lia))
    as (handed' & _ & H2' & _).
  replace (k - 1 - 1)%nat with (k - 2)%nat in H2' by lia.
  rewrite Hb in H2'. injection H2' as Hbefore.
  eexists before, _. split; [done|].
  split; [by rewrite Hbefore; unfold chunk_record; destruct (requests_post w _ _)|].
  split; [exact H1|]. split; [done|].
  assert (carries_context k (Some (carried before)) = true
          <-> llm_status before = lit "success"
              /\ _extract_summary (llm_response before) <> []) as Hc.
  { unfold carries_context. destruct (Nat.ltb_spec 1 k) as [_|?]; [|lia].
    rewrite andb_true_r. rewrite Hbefore. unfold chunk_record.
    destruct (requests_post w _ _); cbn [call_result chunk_record_of carried llm_summary
      llm_status llm_response default from_option id];
      try (split; [done|]; by intros [[=] _]).
    destruct (_extract_summary _); cbn; split; try done; by intros [_ ?]. }
  assert (llm_status before = lit "success" ->
          carried before = _extract_summary (llm_response before)) as Hs.
  { rewrite Hbefore. unfold chunk_record.
    destruct (requests_post w _ _); cbn; by intros. }
  cbn [payload_prompt chunk_request]. rewrite build_prompt_text.
  cbn [default from_option id].
  destruct (carries_context k (Some (carried before))) eqn:Hcar.
  - destruct (proj1 Hc eq_refl) as [Hst Hne].
    rewrite (Hs Hst). split; [done|]. split; [by intros []|].
    split; [done|]. intros _. by eexists.
  - assert (~ (llm_status before = lit "success"
               /\ _extract_summary (llm_response before) <> [])) as Hn.
    { intros H. by apply Hc in H. }
    split; [intros ? ?; by destruct Hn|]. split; [done|].
    split; [|done]. intros [summary H]. exfalso.
    apply app_inv_head in H.
    destruct (context_section_head k summary) as [r1 Hr1].
    destruct (plain_section_head k) as [r2 Hr2].
    rewrite Hr1, Hr2 in H. cbn [app] in H. by injection H.
Qed.

Lemma carryover_context_witness :
  exists before request,
    (stream plain_world (sample_options 2) sample_config (sample_events 5) init_host).1
      !! (2 - 2)%nat = Some before
    /\ llm_chunk before = str_of_nat (2 - 1)
    /\ posts (stream plain_world (sample_options 2) sample_config (sample_events 5)
                init_host).2 !! (2 - 1)%nat = Some request
    /\ payload_prompt request
       = prompt_opening (sample_options 2) sample_config
         ++ context_section 2 (lit "Nothing unusual.")
         ++ prompt_closing (_format_events (chunk_at 2 2 (sample_events 5))).
Proof.
  destruct (carryover_context plain_world (sample_options 2) sample_config
              (sample_events 5) 2 120)
    as (before & request & H1 & H2 & H3 & _ & H5 & _).
  - vm_compute. discriminate.
  - vm_compute. lia.
  - reflexivity.
  - exists before, request. split; [exact H1|]. split; [exact H2|]. split; [exact H3|].
    assert (llm_status before = lit "success"
            /\ _extract_summary (llm_response before) = lit "Nothing unusual.")
      as [Hs He].
    { clear -H1. vm_compute in H1. injection H1 as <-. split; vm_compute; reflexivity. }
    rewrite <- He. apply H5; [exact Hs|]. rewrite He. vm_compute. discriminate.
Defined.

(** C2, the claim as stated fails in both directions. A first chunk that
    succeeds with a response holding no marker still hands its first 200
    characters on, and the prompt of chunk 2 has the previous-context
    section; a first chunk that succeeds with a marker that nothing
    follows hands on the empty string, and the prompt of chunk 2 has no
    such section. *)
Lemma carryover_without_marker :
  (exists before request,
     (stream plain_world (sample_options 2) sample_config (sample_events 5) init_host).1
       !! 0%nat = Some before
     /\ llm_status before = lit "success"
     /\ has_marker (llm_response before) = false
     /\ posts (stream plain_world (sample_options 2) sample_config (sample_events 5)
                 init_host).2 !! 1%nat = Some request
     /\ contains (lit "Previous Analysis Context (Chunk 1):" ++ nl ++ lit "Nothing unusual.")
          (payload_prompt request) = true)
  /\ (exists before request,
        (stream bare_marker_world (sample_options 2) sample_config (sample_events 5)
           init_host).1 !! 0%nat = Some before
        /\ llm_status before = lit "success"
        /\ has_marker (llm_response before) = true
        /\ posts (stream bare_marker_world (sample_options 2) sample_config (sample_events 5)
                    init_host).2 !! 1%nat = Some request
        /\ contains (lit "Previous Analysis Context") (payload_prompt request) = false).
Proof.
  split; eexists _, _; repeat split; vm_compute; reflexivity.
Qed.

(** * Further properties *)

(** ** Stripping *)

Lemma strip_rstrip_lstrip s : strip s = rstrip (lstrip s).
Proof. done. Qed.

Lemma lstrip_decomp s :
  exists a, s = a ++ lstrip s /\ Forall (fun c => isspace c = true) a.
Proof.
  induction s as [|c s (a & Hs & Ha)]; [by exists []|].
  cbn [lstrip]. destruct (isspace c) eqn:Hc.
  - exists (c :: a). split; [by rewrite Hs at 1|]. by constructor.
  - by exists [].
Qed.

Lemma lstrip_head s c t : lstrip s = c :: t -> isspace c = false.
Proof.
  induction s as [|x s IH]; [done|]. cbn [lstrip].
  destruct (isspace x) eqn:Hx; [done|]. by intros [= <- _].
Qed.

Lemma lstrip_cons_nonspace c t : isspace c = false -> lstrip (c :: t) = c :: t.
Proof. intros H. cbn [lstrip]. by rewrite H. Qed.

Lemma lstrip_space_app a s :
  Forall (fun c => isspace c = true) a -> lstrip (a ++ s) = lstrip s.
Proof. induction 1 as [|c a Hc _ IH]; [done|]. cbn [app lstrip]. by rewrite Hc. Qed.

Lemma lstrip_all_space a : Forall (fun c => isspace c = true) a -> lstrip a = [].
Proof. intros H. rewrite <- (app_nil_r a). by rewrite lstrip_space_app. Qed.

Lemma lstrip_idemp s : lstrip (lstrip s) = lstrip s.
Proof.
  destruct (lstrip s) as [|c t] eqn:H; [done|].
  apply lstrip_cons_nonspace. by eapply lstrip_head.
Qed.

Lemma lstrip_fixed_app a b : lstrip a = a -> a <> [] -> lstrip (a ++ b) = a ++ b.
Proof.
  destruct a as [|c a]; [done|]. intros H _.
  apply (lstrip_cons_nonspace c (a ++ b)). by eapply lstrip_head.
Qed.

Lemma rstrip_decomp s :
  exists b, s = rstrip s ++ b /\ Forall (fun c => isspace c = true) b.
Proof.
  destruct (lstrip_decomp (reverse s)) as (a & Hs & Ha).
  exists (reverse a). split; [|by apply Forall_reverse].
  unfold rstrip. rewrite <- reverse_app, <- Hs. by rewrite reverse_involutive.
Qed.

Lemma rstrip_last s t c : rstrip s = t ++ [c] -> isspace c = false.
Proof.
  unfold rstrip. intros H. apply (f_equal reverse) in H.
  rewrite reverse_involutive, reverse_app, reverse_singleton in H.
  by eapply lstrip_head.
Qed.

Lemma rstrip_snoc_nonspace t c : isspace c = false -> rstrip (t ++ [c]) = t ++ [c].
Proof.
  intros H. unfold rstrip. rewrite reverse_app, reverse_singleton. cbn [app].
  rewrite lstrip_cons_nonspace by done.
  by rewrite reverse_cons, reverse_involutive.
Qed.

Lemma rstrip_app_space s b :
  Forall (fun c => isspace c = true) b -> rstrip (s ++ b) = rstrip s.
Proof.
  intros H. unfold rstrip. rewrite reverse_app.
  by rewrite lstrip_space_app by (by apply Forall_reverse).
Qed.

Lemma rstrip_all_space b : Forall (fun c => isspace c = true) b -> rstrip b = [].
Proof. intros H. unfold rstrip. by rewrite lstrip_all_space by (by apply Forall_reverse). Qed.

Lemma rstrip_idemp s : rstrip (rstrip s) = rstrip s.
Proof. unfold rstrip. by rewrite reverse_involutive, lstrip_idemp. Qed.

Lemma rstrip_app_fixed a b : rstrip b = b -> b <> [] -> rstrip (a ++ b) = a ++ b.
Proof.
  intros H Hb. destruct b as [|c b _] using rev_ind; [done|].
  rewrite (assoc_L (++)). apply rstrip_snoc_nonspace. by eapply rstrip_last.
Qed.

Lemma trimmed_nil : trimmed [].
Proof. done. Qed.

Lemma trimmed_strip s : trimmed (strip s).
Proof.
  rewrite strip_rstrip_lstrip. split; [|apply rstrip_idemp].
  destruct (rstrip (lstrip s)) as [|c t] eqn:Hr; [done|].
  apply lstrip_cons_nonspace.
  destruct (rstrip_decomp (lstrip s)) as (b & Hs & _). rewrite Hr in Hs.
  by eapply lstrip_head.
Qed.

(** Stripping takes whitespace off both ends of a trimmed core. *)
Lemma strip_intro a m b :
  Forall (fun c => isspace c = true) a -> Forall (fun c => isspace c = true) b ->
  trimmed m -> strip (a ++ m ++ b) = m.
Proof.
  intros Ha Hb [Hl Hr]. rewrite strip_rstrip_lstrip, lstrip_space_app by done.
  destruct m as [|c m]; [cbn [app]; by rewrite (lstrip_all_space b Hb)|].
  rewrite (lstrip_fixed_app (c :: m) b Hl) by done.
  by rewrite rstrip_app_space.
Qed.

Lemma strip_trimmed m : trimmed m -> strip m = m.
Proof.
  intros H. rewrite <- (app_nil_r m) at 1.
  by apply (strip_intro [] m []).
Qed.

Lemma strip_decomp s :
  exists a b, s = a ++ strip s ++ b
              /\ Forall (fun c => isspace c = true) a
              /\ Forall (fun c => isspace c = true) b.
Proof.
  destruct (lstrip_decomp s) as (a & Hs & Ha).
  destruct (rstrip_decomp (lstrip s)) as (b & Hl & Hb).
  exists a, b. rewrite strip_rstrip_lstrip. by rewrite <- Hl.
Qed.

Lemma strip_subseteq s c : c ∈ strip s -> c ∈ s.
Proof.
  destruct (strip_decomp s) as (a & b & Hs & _). intros H. rewrite Hs.
  rewrite !elem_of_app. auto.
Qed.

(** ** [_extract_summary]: the shape of the carried summary *)

Lemma join_cons_cons sep p q ps : join sep (p :: q :: ps) = p ++ sep ++ join sep (q :: ps).
Proof. done. Qed.

Lemma join_nonempty sep p ps : p <> [] -> join sep (p :: ps) <> [].
Proof. destruct ps; [done|]. rewrite join_cons_cons. by destruct p. Qed.

Lemma trimmed_join sep (parts : list str) :
  Forall (fun p => trimmed p /\ p <> []) parts -> trimmed (join sep parts).
Proof.
  induction 1 as [|p ps [[Hl Hr] Hp] Hps IH]; [done|].
  destruct ps as [|q ps]; [done|]. rewrite join_cons_cons.
  apply Forall_cons in Hps as [[_ Hq] _]. destruct IH as [_ IHr]. split.
  - by apply lstrip_fixed_app.
  - rewrite (assoc_L (++)). apply rstrip_app_fixed; [done|]. by apply join_nonempty.
Qed.

Lemma not_elem_of_join c sep (parts : list str) :
  c ∉ sep -> Forall (fun p => c ∉ p) parts -> c ∉ join sep parts.
Proof.
  intros Hs. induction 1 as [|p ps Hp _ IH]; [by apply not_elem_of_nil|].
  destruct ps as [|q ps]; [done|]. rewrite join_cons_cons, !not_elem_of_app. auto.
Qed.

Lemma split_no_sep sep s l : l ∈ split sep s -> sep ∉ l.
Proof.
  revert l. induction s as [|c s IH]; intros l.
  - cbn [split]. intros ->%list_elem_of_singleton. apply not_elem_of_nil.
  - cbn [split]. destruct (N.eqb_spec c sep) as [->|Hc].
    + intros [->|H]%elem_of_cons; [apply not_elem_of_nil | by apply IH].
    + destruct (split sep s) as [|l0 ls] eqn:Hsp.
      * intros ->%list_elem_of_singleton. rewrite not_elem_of_cons.
        split; [done | apply not_elem_of_nil].
      * intros [->|H]%elem_of_cons.
        -- rewrite not_elem_of_cons. split; [done|]. apply IH. by left.
        -- apply IH. by right.
Qed.

Lemma after_first_marker_subseteq lines l : l ∈ after_first_marker lines -> l ∈ lines.
Proof.
  induction lines as [|x lines IH]; [done|]. cbn [after_first_marker].
  destruct (has_marker x); intros H; right; auto.
Qed.

Lemma length_strip s : (length (strip s) <= length s)%nat.
Proof.
  destruct (strip_decomp s) as (a & b & Hs & _). rewrite Hs at 2.
  rewrite !length_app. lia.
Qed.

(** X1. The summary that [_extract_summary] returns never starts or ends
    with whitespace; taken from below a marker it holds no line feed, and
    taken from the start of a response without a marker it is at most 200
    characters long. *)
Theorem extract_summary_shape (response : str) :
  trimmed (_extract_summary response)
  /\ (has_marker response = true -> 10 ∉ _extract_summary response)
  /\ (has_marker response = false -> (length (_extract_summary response) <= 200)%nat).
Proof.
  unfold _extract_summary. destruct (has_marker response) eqn:Hm.
  - rewrite scan_lines_outside.
    set (lines := filter _ _).
    assert (Forall (fun l => collectable l = true /\ 10 ∉ l) lines) as Hl.
    { apply Forall_forall. intros l [Hc Hin]%list_elem_of_filter. split; [done|].
      by apply (split_no_sep 10 response), after_first_marker_subseteq. }
    split; [|split; [|done]].
    + apply trimmed_join, Forall_take, Forall_fmap.
      eapply Forall_impl; [exact Hl|]. intros l [Hc _]. cbn. split; [apply trimmed_strip|].
      unfold collectable in Hc. apply andb_prop in Hc as [[_ Ht]%andb_prop _].
      by destruct (strip l).
    + intros _. apply not_elem_of_join.
      * by intros [=]%list_elem_of_singleton.
      * apply Forall_take, Forall_fmap.
        eapply Forall_impl; [exact Hl|]. intros l [_ Hn] Hin. cbn in Hin.
        by apply Hn, strip_subseteq.
  - split; [apply trimmed_strip|]. split; [done|].
    intros _. etransitivity; [apply length_strip|]. rewrite length_take. lia.
Qed.

(** ** Configuration lines *)

Lemma text_lines_line current l rest :
  one_line l -> text_lines current (l ++ nl ++ rest) = (current ++ l ++ nl) :: text_lines [] rest.
Proof.
  intros [H10 H13]. revert current. induction l as [|c l IH]; intros current.
  - done.
  - apply not_elem_of_cons in H10 as [Hc10 H10]. apply not_elem_of_cons in H13 as [Hc13 H13].
    cbn [app text_lines].
    destruct (N.eqb_spec c 10) as [|_]; [done|]. destruct (N.eqb_spec c 13) as [|_]; [done|].
    rewrite IH by done. by rewrite <- (assoc_L (++)).
Qed.

Lemma text_lines_concat (lines : list str) :
  Forall one_line lines ->
  text_lines [] (concat ((fun l => l ++ nl) <$> lines)) = (fun l => l ++ nl) <$> lines.
Proof.
  induction 1 as [|l lines Hl _ IH]; [done|].
  rewrite fmap_cons. cbn [concat]. rewrite <- (assoc_L (++)).
  by rewrite text_lines_line, IH.
Qed.

Lemma split_first_app sep a b : sep ∉ a -> split_first sep (a ++ sep :: b) = Some (a, b).
Proof.
  induction a as [|c a IH]; cbn [app split_first].
  - by rewrite N.eqb_refl.
  - intros [Hc Ha]%not_elem_of_cons.
    destruct (N.eqb_spec c sep) as [|_]; [done|]. by rewrite IH.
Qed.

Lemma contains_singleton c s : c ∈ s -> contains [c] s = true.
Proof.
  induction 1 as [x s|x y s _ IH].
  - cbn. by rewrite N.eqb_refl.
  - cbn [contains]. rewrite IH. apply orb_true_r.
Qed.

Lemma startswith_singleton_app c key rest :
  key <> [] -> startswith [c] (key ++ rest) = startswith [c] key.
Proof. by destruct key. Qed.

(** A line [key = value] of the file sets [key] to the stripped value. *)
Lemma read_config_line_entry (config : gmap str str) key value :
  plain_key key -> one_line value ->
  read_config_line config (key ++ lit " = " ++ value ++ nl) = <[key := strip value]> config.
Proof.
  intros (Hne & [Hkl Hkr] & Heq & _ & Hb & Hh) _.
  destruct (strip_decomp value) as (a & b & Hv & Ha & Hb').
  set (tail := match strip value with [] => [] | _ :: _ => [32] ++ a ++ strip value end).
  assert (strip (key ++ lit " = " ++ value ++ nl) = key ++ [32; 61] ++ tail) as Hline.
  { assert (Forall (fun c => isspace c = true) nl) as Hnl by (by repeat constructor).
    assert (Forall (fun c => isspace c = true) ([32] ++ a ++ b ++ nl)) as Hsp.
    { rewrite !Forall_app. repeat split; try done. by repeat constructor. }
    subst tail. destruct (strip value) as [|c sv] eqn:Hs.
    - assert (key ++ lit " = " ++ value ++ nl
              = [] ++ (key ++ [32; 61]) ++ ([32] ++ a ++ b ++ nl)) as ->.
      { rewrite Hv. cbn [app]. by rewrite <- !(assoc_L (++)). }
      apply strip_intro; [done|done|]. split.
      + by apply lstrip_fixed_app.
      + cbn [app]. assert (key ++ [32; 61] = (key ++ [32]) ++ [61]) as ->
          by (by rewrite <- (assoc_L (++))).
        by apply rstrip_snoc_nonspace.
    - assert (key ++ lit " = " ++ value ++ nl
              = [] ++ (key ++ [32; 61] ++ [32] ++ a ++ c :: sv) ++ (b ++ nl)) as ->.
      { rewrite Hv. cbn [app]. rewrite <- !(assoc_L (++)). cbn [app].
        by rewrite <- !(assoc_L (++)). }
      apply strip_intro; [done|by apply Forall_app|]. split.
      + by apply lstrip_fixed_app.
      + pose proof (trimmed_strip value) as [_ Hr]. rewrite Hs in Hr.
        assert (key ++ [32; 61] ++ [32] ++ a ++ c :: sv
                = (key ++ [32; 61] ++ [32] ++ a) ++ c :: sv) as ->
          by (by rewrite <- !(assoc_L (++))).
        by apply rstrip_app_fixed. }
  unfold read_config_line. rewrite Hline. cbv zeta.
  change (lit "[") with [91] in *. change (lit "#") with [35] in *.
  rewrite (startswith_singleton_app 91 key), Hb by done.
  rewrite (startswith_singleton_app 35 key), Hh by done.
  assert (truthy (key ++ [32; 61] ++ tail) = true) as -> by (by destruct key).
  change (lit "=") with [61].
  rewrite contains_singleton by (rewrite !elem_of_app, !elem_of_cons; auto).
  cbn [negb andb].
  replace (key ++ [32; 61] ++ tail) with ((key ++ [32]) ++ 61 :: tail)
    by (by rewrite <- (assoc_L (++))).
  rewrite split_first_app by (rewrite not_elem_of_app, not_elem_of_cons; split; [done|];
                              split; [done | apply not_elem_of_nil]).
  change (strip (key ++ [32])) with (strip ([] ++ key ++ [32])).
  rewrite strip_intro by (done || by repeat constructor).
  f_equal. subst tail. destruct (strip value) as [|c sv] eqn:Hs; [done|].
  rewrite <- Hs. rewrite (assoc_L (++) [32] a), <- (app_nil_r (strip value)) at 1.
  apply strip_intro; [|done|apply trimmed_strip].
  apply Forall_app. split; [by repeat constructor | done].
Qed.

(** ** Writing the configuration and reading it back *)

Lemma config_line_ok args entry fs :
  args !! entry.1 <> Some [] ->
  config_line args entry fs
  = (inr (entry.1 ++ lit " = " ++ written_value args entry ++ nl), fs).
Proof.
  intros H. unfold config_line, written_value, bind.
  destruct (args !! entry.1) as [[|v values]|]; done.
Qed.

Lemma for_each_config_line_ok args (entries : list (str * str)) fs :
  Forall (fun entry => args !! entry.1 <> Some []) entries ->
  for_each (config_line args) entries fs
  = (inr ((fun entry => entry.1 ++ lit " = " ++ written_value args entry ++ nl) <$> entries),
     fs).
Proof.
  induction 1 as [|entry entries He _ IH]; [done|].
  cbn [for_each]. unfold bind at 1. rewrite config_line_ok by done.
  unfold bind at 1. by rewrite IH.
Qed.

Lemma config_keys_plain : Forall (fun entry => plain_key entry.1 /\ one_line entry.2) config_keys.
Proof.
  unfold plain_key, trimmed, one_line.
  repeat (apply Forall_cons; split; [|]); try apply Forall_nil;
    repeat split; try (apply (bool_decide_unpack _); vm_compute; exact I).
Qed.

Lemma config_keys_NoDup : NoDup config_keys.*1.
Proof. apply (bool_decide_unpack _). vm_compute. exact I. Qed.

(** Reading back lines [key = value], one per entry. *)
Lemma read_config_lines (value : str * str -> str) (entries : list (str * str))
    (config : gmap str str) :
  Forall (fun entry => plain_key entry.1 /\ one_line (value entry)) entries ->
  foldl read_config_line config
    ((fun l => l ++ nl) <$> ((fun entry => entry.1 ++ lit " = " ++ value entry) <$> entries))
  = foldl (fun m entry => <[entry.1 := strip (value entry)]> m) config entries.
Proof.
  intros H. revert config. induction H as [|entry entries [Hk Hv] _ IH]; intros config; [done|].
  rewrite !fmap_cons. cbn [foldl]. rewrite <- (assoc_L (++)), !IH.
  f_equal. rewrite <- (assoc_L (++)). by apply read_config_line_entry.
Qed.

Lemma foldl_insert_lookup (value : str * str -> str) (entries : list (str * str))
    (config : gmap str str) :
  NoDup entries.*1 ->
  (forall entry, entry ∈ entries ->
     foldl (fun m e => <[e.1 := value e]> m) config entries !! entry.1 = Some (value entry))
  /\ (forall key, key ∉ entries.*1 ->
        foldl (fun m e => <[e.1 := value e]> m) config entries !! key = config !! key).
Proof.
  intros Hn. revert config.
  induction entries as [|e entries IH]; intros config; [split; [by intros ? ?%elem_of_nil|done]|].
  rewrite fmap_cons in Hn. apply NoDup_cons in Hn as [He Hn].
  destruct (IH Hn (<[e.1 := value e]> config)) as [IH1 IH2]. cbn [foldl]. split.
  - intros entry [->|Hin]%elem_of_cons; [|by apply IH1].
    rewrite IH2 by done. apply lookup_insert_eq.
  - intros key [Hk Hkeys]%not_elem_of_cons. rewrite IH2 by done.
    by rewrite lookup_insert_ne.
Qed.

Lemma one_line_app a b : one_line a -> one_line b -> one_line (a ++ b).
Proof. intros [? ?] [? ?]. split; rewrite not_elem_of_app; done. Qed.

Lemma entry_lines_fmap (value : str * str -> str) (entries : list (str * str)) :
  (fun entry => entry.1 ++ lit " = " ++ value entry ++ nl) <$> entries
  = (fun l => l ++ nl) <$> ((fun entry => entry.1 ++ lit " = " ++ value entry) <$> entries).
Proof.
  rewrite <- list_fmap_compose. apply list_fmap_ext. intros _ entry _. cbn.
  by rewrite <- !(assoc_L (++)).
Qed.

Lemma for_each_config_line_bad args (entries : list (str * str)) fs :
  Exists (fun entry => args !! entry.1 = Some []) entries ->
  for_each (config_line args) entries fs
  = (inl (IndexError (lit "list index out of range")), fs).
Proof.
  induction entries as [|entry entries IH]; intros Hex; [by apply Exists_nil in Hex|].
  cbn [for_each]. unfold bind at 1.
  destruct (decide (args !! entry.1 = Some [])) as [Hb|Hb].
  - unfold config_line, bind. by rewrite Hb.
  - rewrite config_line_ok by done. unfold bind at 1.
    apply Exists_cons in Hex as [?|Hex]; [done|]. by rewrite IH.
Qed.

Lemma made_dir_fields fs :
  local_dir (made_dir fs) = true
  /\ dfirvault_conf (made_dir fs) = dfirvault_conf fs
  /\ app_conf (made_dir fs) = app_conf fs
  /\ umask (made_dir fs) = umask fs
  /\ fault (made_dir fs) = fault fs.
Proof. unfold made_dir. by destruct (local_dir fs) eqn:Hd. Qed.

Lemma made_dir_open_mode name fs : open_mode name (made_dir fs) = open_mode name fs.
Proof. unfold made_dir. by destruct (local_dir fs), name. Qed.

(** The first steps of [_write_config] and of [_mark_configured]: the
    directory is made when it is not there. *)
Lemma ensure_dir_bind {A} (k : IO A) fs :
  (present <- local_dir_exists ;; (if present then ret tt else makedirs) ;; k) fs
  = match (if local_dir fs then None else fault fs Makedirs) with
    | Some f => (inl (raises f), fs)
    | None => k (made_dir fs)
    end.
Proof.
  unfold bind, local_dir_exists, made_dir, makedirs, ret.
  destruct (local_dir fs) eqn:Hd; [done|]. by destruct (fault fs Makedirs).
Qed.

(** Opening, writing and setting the permission bits of a file. *)
Lemma write_file_cases name (texts : list str) fs :
  (exists f, fault fs (Open name) = Some f
             /\ (open_write name ;; write_texts name texts ;; chmod name 420) fs
                = (inl (raises f), fs))
  \/ (fault fs (Open name) = None
      /\ ((exists f, fault fs (Write name texts) = Some f
                     /\ (open_write name ;; write_texts name texts ;; chmod name 420) fs
                        = (inl (raises f),
                           set_file name {| content := take (reached f) (concat texts);
                                            mode := open_mode name fs |} fs))
          \/ (fault fs (Write name texts) = None
              /\ ((exists f, fault fs (Chmod name) = Some f
                             /\ (open_write name ;; write_texts name texts ;; chmod name 420) fs
                                = (inl (raises f),
                                   set_file name {| content := concat texts;
                                                    mode := open_mode name fs |} fs))
                  \/ (fault fs (Chmod name) = None
                      /\ (open_write name ;; write_texts name texts ;; chmod name 420) fs
                         = (inr tt, set_file name {| content := concat texts;
                                                     mode := 420 |} fs)))))).
Proof.
  unfold bind, open_write, write_texts, chmod.
  destruct fs as [dir conf app um flt].
  destruct name; cbn [fault];
    (destruct (flt (Open _)) as [f|] eqn:Ho; [left; eauto|right; split; [done|]]);
    cbn [set_file fault file_of open_mode dfirvault_conf app_conf local_dir umask
         content mode];
    (destruct (flt (Write _ texts)) as [f|] eqn:Hw; [left; eauto|right; split; [done|]]);
    cbn [set_file fault file_of open_mode dfirvault_conf app_conf local_dir umask
         content mode];
    (destruct (flt (Chmod _)) as [f|] eqn:Hc; [left; eauto|right; split; done]).
Qed.

Lemma write_config_eq args fs :
  _write_config args fs
  = match (if local_dir fs then None else fault fs Makedirs) with
    | Some f =>
        (inl (Exception (lit "Failed to write configuration: " ++ exn_str (raises f))), fs)
    | None =>
        match for_each (config_line args) config_keys (made_dir fs) with
        | (inl e, fs1) =>
            (inl (Exception (lit "Failed to write configuration: " ++ exn_str e)), fs1)
        | (inr config_lines, fs1) =>
            match (open_write DfirvaultConf ;;
                   write_texts DfirvaultConf ((lit "[llm_config]" ++ nl) :: config_lines) ;;
                   chmod DfirvaultConf 420) fs1 with
            | (inl e, fs2) =>
                (inl (Exception (lit "Failed to write configuration: " ++ exn_str e)), fs2)
            | (inr _, fs2) => (inr tt, fs2)
            end
        end
    end.
Proof.
  unfold _write_config, try_except. rewrite ensure_dir_bind.
  destruct (if local_dir fs then None else fault fs Makedirs); [done|].
  unfold bind at 1. destruct (for_each _ _ _) as [[e|config_lines] fs1]; [done|].
  by destruct (bind _ _ fs1) as [[e|[]] fs2].
Qed.

(** Every way [_write_config] can end. *)
Lemma write_config_cases args fs :
  (local_dir fs = false
   /\ exists f, fault fs Makedirs = Some f
      /\ _write_config args fs
         = (inl (Exception (lit "Failed to write configuration: " ++ exn_str (raises f))), fs))
  \/ ((local_dir fs = true \/ fault fs Makedirs = None)
      /\ ((Exists (fun entry => args !! entry.1 = Some []) config_keys
           /\ _write_config args fs
              = (inl (Exception (lit "Failed to write configuration: "
                                 ++ lit "list index out of range")), made_dir fs))
          \/ (Forall (fun entry => args !! entry.1 <> Some []) config_keys
              /\ ((exists f, fault fs (Open DfirvaultConf) = Some f
                   /\ _write_config args fs
                      = (inl (Exception (lit "Failed to write configuration: "
                                         ++ exn_str (raises f))), made_dir fs))
                  \/ (fault fs (Open DfirvaultConf) = None
                      /\ ((exists f,
                             fault fs (Write DfirvaultConf (rendered_lines args)) = Some f
                             /\ _write_config args fs
                                = (inl (Exception (lit "Failed to write configuration: "
                                                   ++ exn_str (raises f))),
                                   set_file DfirvaultConf
                                     {| content := take (reached f) (rendered_config args);
                                        mode := open_mode DfirvaultConf fs |} (made_dir fs)))
                          \/ (fault fs (Write DfirvaultConf (rendered_lines args)) = None
                              /\ ((exists f,
                                     fault fs (Chmod DfirvaultConf) = Some f
                                     /\ _write_config args fs
                                        = (inl (Exception
                                                  (lit "Failed to write configuration: "
                                                   ++ exn_str (raises f))),
                                           set_file DfirvaultConf
                                             {| content := rendered_config args;
                                                mode := open_mode DfirvaultConf fs |}
                                             (made_dir fs)))
                                  \/ (fault fs (Chmod DfirvaultConf) = None
                                      /\ _write_config args fs
                                         = (inr tt,
                                            set_file DfirvaultConf
                                              {| content := rendered_config args;
                                                 mode := 420 |} (made_dir fs))))))))))).
Proof.
  rewrite write_config_eq.
  destruct (made_dir_fields fs) as (_ & _ & _ & _ & Hflt).
  destruct (local_dir fs) eqn:Hd; [|destruct (fault fs Makedirs) as [f|] eqn:Hm].
  2:{ left. split; [done|]. by exists f. }
  all: right; (split; [auto|]).
  all: destruct (decide (Forall (fun entry => args !! entry.1 <> Some []) config_keys))
         as [Hok|Hbad].
  all: try (left; apply not_Forall_Exists in Hbad; [|apply _];
            assert (Exists (fun entry => args !! entry.1 = Some []) config_keys) as Hex
              by (eapply Exists_impl; [exact Hbad|]; intros entry H; cbv beta in H;
                  destruct (decide (args !! entry.1 = Some [])); [done|]; by destruct H);
            split; [done|]; by rewrite for_each_config_line_bad).
  all: right; (split; [done|]);
       rewrite for_each_config_line_ok by done;
       fold (rendered_lines args);
       destruct (write_file_cases DfirvaultConf (rendered_lines args) (made_dir fs))
         as [(f' & Hf & ->)|(Ho & [(f' & Hf & ->)|(Hw & [(f' & Hf & ->)|(Hc & ->)])])];
       rewrite ?Hflt, ?made_dir_open_mode in *;
       change (concat (rendered_lines args)) with (rendered_config args);
       eauto 15.
Qed.

Lemma write_config_runs_success args fs :
  write_config_runs args fs ->
  _write_config args fs
  = (inr tt, set_file DfirvaultConf {| content := rendered_config args; mode := 420 |}
               (made_dir fs)).
Proof.
  intros (Hd & Hok & Ho & Hw & Hc).
  destruct (write_config_cases args fs)
    as [(Hd' & f & Hf & _)
       |(_ & [(Hex & _)
             |(_ & [(f & Hf & _)
                   |(_ & [(f & Hf & _)|(_ & [(f & Hf & _)|(_ & H)])])])])];
    try congruence.
  - destruct Hd; congruence.
  - exfalso. apply Exists_exists in Hex as (entry & Hin & Hbad).
    by apply (proj1 (Forall_forall _ _) Hok entry Hin).
Qed.

(** Reading the text that [_write_config] renders. *)
Lemma read_rendered_config (args : gmap str (list str)) :
  Forall (fun entry => one_line (written_value args entry)) config_keys ->
  foldl read_config_line ∅ (text_lines [] (rendered_config args))
  = foldl (fun m entry => <[entry.1 := strip (written_value args entry)]> m) ∅ config_keys.
Proof.
  intros Ha. unfold rendered_config.
  change (concat ((lit "[llm_config]" ++ nl) :: ?ls))
    with ((lit "[llm_config]" ++ nl) ++ concat ls).
  rewrite <- (assoc_L (++)).
  rewrite text_lines_line
    by (split; apply (bool_decide_unpack _); vm_compute; exact I).
  cbn [foldl].
  assert (read_config_line ∅ ([] ++ lit "[llm_config]" ++ nl) = ∅) as -> by done.
  assert (Forall (fun entry => plain_key entry.1 /\ one_line (written_value args entry))
            config_keys) as Hk.
  { pose proof config_keys_plain as Hp.
    apply Forall_forall. intros entry Hin.
    split; [by apply (proj1 (Forall_forall _ _) Hp) | by apply (proj1 (Forall_forall _ _) Ha)]. }
  rewrite entry_lines_fmap, text_lines_concat.
  - by rewrite (read_config_lines (written_value args)).
  - apply Forall_fmap. eapply Forall_impl; [exact Hk|].
    intros entry [(_ & _ & _ & Hl & _) Hv]. cbv beta.
    apply one_line_app; [done|]. apply one_line_app; [|done].
    split; apply (bool_decide_unpack _); vm_compute; exact I.
Qed.

Lemma write_config_success_runs args fs :
  (exists fs', _write_config args fs = (inr tt, fs')) -> write_config_runs args fs.
Proof.
  intros [fs' H].
  destruct (write_config_cases args fs)
    as [(Hd & f & Hf & Hw)
       |(Hd & [(Hex & Hw)
              |(Hok & [(f & Hf & Hw)
                      |(Ho & [(f & Hf & Hw)|(Hwr & [(f & Hf & Hw)|(Hc & Hw)])])])])];
    rewrite Hw in H; try discriminate.
  by repeat split.
Qed.

(** X2. When nothing stands in the way of the write and reading raises
    no error, an edit whose supplied values are single lines is written,
    and reading the configuration back gives exactly the ten settings,
    each with the supplied value (or its default when the edit has none)
    stripped of surrounding whitespace. *)
Theorem write_config_read_back (pkg : Package) (args : gmap str (list str))
    (fs : FileSystem) :
  write_config_runs args fs ->
  read_error pkg = None ->
  Forall (fun entry => one_line (written_value args entry)) config_keys ->
  exists fs' config,
    _write_config args fs = (inr tt, fs')
    /\ _read_config pkg fs' = (inr config, fs')
    /\ (forall entry, entry ∈ config_keys ->
          config !! entry.1 = Some (strip (written_value args entry)))
    /\ (forall key, key ∉ config_keys.*1 -> config !! key = None).
Proof.
  intros Hw Hr Ha. eexists _, _. split; [by apply write_config_runs_success|].
  unfold _read_config, try_except, bind, open_first_conf.
  cbn [set_file dfirvault_conf content]. rewrite Hr. cbn [ret]. split; [reflexivity|].
  rewrite read_rendered_config by done.
  destruct (foldl_insert_lookup (fun e => strip (written_value args e)) config_keys ∅
              config_keys_NoDup) as [H1 H2].
  split; [exact H1|]. intros key Hkey. by rewrite H2.
Qed.

Lemma write_config_read_back_witness :
  exists fs' config,
    _write_config full_edit_args configured_fs = (inr tt, fs')
    /\ _read_config bare_package fs' = (inr config, fs')
    /\ (forall entry, entry ∈ config_keys ->
          config !! entry.1 = Some (strip (written_value full_edit_args entry)))
    /\ (forall key, key ∉ config_keys.*1 -> config !! key = None).
Proof.
  apply (write_config_read_back bare_package full_edit_args configured_fs).
  - split; [by left|]. split; [apply (bool_decide_unpack _); vm_compute; exact I|].
    repeat split; vm_compute; reflexivity.
  - reflexivity.
  - unfold one_line.
    repeat (apply Forall_cons; split; [|]); try apply Forall_nil;
      apply (bool_decide_unpack _); vm_compute; exact I.
Defined.

(** X3. [_write_config] succeeds exactly when nothing stands in its way:
    the directory is there or can be made, every known key that the edit
    supplies has a value, and opening the file, writing the lines and
    setting the permission bits do not fail; the file then holds the
    rendered edit with mode [0o644]. When it fails it raises
    [Exception("Failed to write configuration: ...")] and leaves
    [app.conf] alone. The configuration file is as it was when the
    failure came before the file was open (the directory, a missing
    value, the [open]); after that the old content is gone: a failed
    write leaves the characters that had reached the file, a failed
    [chmod] the whole text, both under the permission bits of the open
    file. *)
Theorem write_config_outcome (args : gmap str (list str)) (fs : FileSystem) :
  ((exists fs', _write_config args fs = (inr tt, fs')) <-> write_config_runs args fs)
  /\ (forall fs',
        _write_config args fs = (inr tt, fs') ->
        local_dir fs' = true
        /\ dfirvault_conf fs' = Some {| content := rendered_config args; mode := 420 |}
        /\ app_conf fs' = app_conf fs)
  /\ (forall e fs',
        _write_config args fs = (inl e, fs') ->
        app_conf fs' = app_conf fs
        /\ exists msg,
             e = Exception (lit "Failed to write configuration: " ++ msg)
             /\ ((dfirvault_conf fs' = dfirvault_conf fs
                  /\ ((local_dir fs = false
                       /\ exists f, fault fs Makedirs = Some f /\ msg = exn_str (raises f))
                      \/ (msg = lit "list index out of range"
                          /\ Exists (fun entry => args !! entry.1 = Some []) config_keys)
                      \/ (exists f, fault fs (Open DfirvaultConf) = Some f
                                    /\ msg = exn_str (raises f))))
                 \/ (exists f,
                       fault fs (Open DfirvaultConf) = None
                       /\ fault fs (Write DfirvaultConf (rendered_lines args)) = Some f
                       /\ msg = exn_str (raises f)
                       /\ dfirvault_conf fs'
                          = Some {| content := take (reached f) (rendered_config args);
                                    mode := open_mode DfirvaultConf fs |})
                 \/ (exists f,
                       fault fs (Open DfirvaultConf) = None
                       /\ fault fs (Write DfirvaultConf (rendered_lines args)) = None
                       /\ fault fs (Chmod DfirvaultConf) = Some f
                       /\ msg = exn_str (raises f)
                       /\ dfirvault_conf fs'
                          = Some {| content := rendered_config args;
                                    mode := open_mode DfirvaultConf fs |}))).
Proof.
  destruct (made_dir_fields fs) as (Hdir & Hconf & Happ & _ & _).
  destruct (write_config_cases args fs)
    as [(Hd & f & Hf & Hw)
       |(Hd & [(Hex & Hw)
              |(Hok & [(f & Hf & Hw)
                      |(Ho & [(f & Hf & Hw)|(Hwr & [(f & Hf & Hw)|(Hc & Hw)])])])])];
    rewrite Hw.
  - split; [|split]; [|done|].
    + split; [by intros [fs' [=]]|]. intros ([?|?] & _); congruence.
    + intros e fs' [= <- <-]. split; [done|]. eexists. split; [done|]. left. eauto 10.
  - split; [|split]; [|done|].
    + split; [by intros [fs' [=]]|]. intros (_ & Hok & _). exfalso.
      apply Exists_exists in Hex as (entry & Hin & Hbad).
      by apply (proj1 (Forall_forall _ _) Hok entry Hin).
    + intros e fs' [= <- <-]. split; [done|]. eexists. split; [done|]. left. eauto 10.
  - split; [|split]; [|done|].
    + split; [by intros [fs' [=]]|]. intros (_ & _ & ? & _); congruence.
    + intros e fs' [= <- <-]. split; [done|]. eexists. split; [done|]. left. eauto 10.
  - split; [|split]; [|done|].
    + split; [by intros [fs' [=]]|]. intros (_ & _ & _ & ? & _); congruence.
    + intros e fs' [= <- <-]. split; [done|]. eexists. split; [done|].
      right. left. exists f. by rewrite Happ.
  - split; [|split]; [|done|].
    + split; [by intros [fs' [=]]|]. intros (_ & _ & _ & _ & ?); congruence.
    + intros e fs' [= <- <-]. split; [done|]. eexists. split; [done|].
      right. right. exists f. by rewrite Happ.
  - split; [|split]; [| |done].
    + split; [done|]. intros _. by eexists.
    + intros fs' [= <-]. done.
Qed.

Lemma for_each_ext {A B} (f g : A -> IO B) (xs : list A) fs :
  Forall (fun x => forall fs', f x fs' = g x fs') xs -> for_each f xs fs = for_each g xs fs.
Proof.
  intros H. revert fs. induction H as [|x xs Hx _ IH]; intros fs; [done|].
  cbn [for_each]. unfold bind. rewrite Hx. destruct (g x fs) as [[e|b] fs1]; [done|].
  by rewrite IH.
Qed.

(** X4. Only the ten known settings of an edit reach the file: two edits
    that agree on them write the same, whatever else they hold. *)
Theorem write_config_known_keys (args1 args2 : gmap str (list str)) (fs : FileSystem) :
  Forall (fun entry => args1 !! entry.1 = args2 !! entry.1) config_keys ->
  _write_config args1 fs = _write_config args2 fs.
Proof.
  intros H. unfold _write_config, try_except.
  assert (forall fs0, for_each (config_line args1) config_keys fs0
                      = for_each (config_line args2) config_keys fs0) as Hfe.
  { intros fs0. apply for_each_ext. eapply Forall_impl; [exact H|].
    intros entry He. unfold config_line. cbv beta in He. by rewrite He. }
  rewrite !ensure_dir_bind.
  destruct (if local_dir fs then None else fault fs Makedirs); [done|].
  unfold bind at 1 5. by rewrite Hfe.
Qed.

Lemma write_config_known_keys_witness :
  _write_config extra_key_args configured_fs = _write_config full_edit_args configured_fs.
Proof.
  apply write_config_known_keys.
  apply (bool_decide_unpack _). vm_compute. exact I.
Defined.

(** X5. A later edit replaces the file of an earlier one wholly: when
    nothing stands in the way of either write, writing two edits in turn
    leaves what writing the second alone leaves, so a setting that only
    the first edit supplied is back at its default. *)
Theorem write_config_overwrites (args1 args2 : gmap str (list str)) (fs : FileSystem) :
  write_config_runs args1 fs ->
  write_config_runs args2 fs ->
  (_write_config args1 ;; _write_config args2) fs = _write_config args2 fs.
Proof.
  intros H1 H2. unfold bind.
  rewrite (write_config_runs_success args1 fs H1), (write_config_runs_success args2 fs H2).
  destruct (made_dir_fields fs) as (Hdir & _ & _ & _ & Hflt).
  rewrite write_config_runs_success.
  - f_equal. unfold made_dir at 1. cbn [set_file local_dir]. rewrite Hdir. done.
  - destruct H2 as (_ & Hok & Ho & Hw & Hc). cbn [set_file local_dir fault].
    rewrite Hdir, Hflt. by repeat split; auto.
Qed.

Lemma write_config_overwrites_witness :
  (_write_config full_edit_args ;; _write_config empty_endpoint_args) configured_fs
  = _write_config empty_endpoint_args configured_fs.
Proof.
  apply write_config_overwrites.
  - split; [by left|]. split; [apply (bool_decide_unpack _); vm_compute; exact I|].
    repeat split; vm_compute; reflexivity.
  - split; [by left|]. split; [apply (bool_decide_unpack _); vm_compute; exact I|].
    repeat split; vm_compute; reflexivity.
Defined.

(** ** [handleEdit], [handleCreate] and [handleList] *)

(** [_mark_configured] never raises and leaves the configuration file
    alone. It writes the marker when nothing stands in its way; when
    something does, the marker file is as it was, or holds a part of the
    marker text, and the caller is not told. *)
Lemma mark_configured_cases fs :
  exists fs',
    _mark_configured fs = (inr tt, fs')
    /\ dfirvault_conf fs' = dfirvault_conf fs
    /\ ((local_dir fs = true \/ fault fs Makedirs = None) ->
        fault fs (Open AppConf) = None ->
        fault fs (Write AppConf marker_texts) = None ->
        fault fs (Chmod AppConf) = None ->
        app_conf fs' = Some marker_file)
    /\ (forall f, fault fs (Open AppConf) = Some f -> app_conf fs' = app_conf fs)
    /\ (app_conf fs' = app_conf fs
        \/ exists count bits,
             app_conf fs' = Some {| content := take count (content marker_file);
                                    mode := bits |}).
Proof.
  unfold _mark_configured, try_except. rewrite ensure_dir_bind.
  destruct (made_dir_fields fs) as (_ & Hconf & Happ & _ & Hflt).
  fold marker_texts.
  destruct (local_dir fs) eqn:Hd; [|destruct (fault fs Makedirs) as [f|] eqn:Hm].
  2:{ exists fs. repeat split; auto. intros [?|?]; congruence. }
  all: destruct (write_file_cases AppConf marker_texts (made_dir fs))
         as [(f' & Hf & ->)|(Ho & [(f' & Hf & ->)|(Hw & [(f' & Hf & ->)|(Hc & ->)])])];
       rewrite ?Hflt in *; eexists; (split; [reflexivity|]);
       cbn [set_file dfirvault_conf app_conf]; rewrite ?Hconf, ?Happ;
       (split; [done|]); (split; [intros; congruence || done|]);
       (split; [intros; congruence || done|]).
  all: try (by left).
  all: right.
  all: try (by eexists _, _).
  all: try (exists (length (content marker_file)); eexists; by rewrite firstn_all).
Qed.

(** The steps of [handleEdit]: the probe of a supplied endpoint, which
    writes nothing; [_write_config], whose failure is reported; and
    [_mark_configured], which never raises. *)
Lemma handleEdit_steps (requests_get : str -> GetOutcome) (args : gmap str (list str))
    (fs : FileSystem) :
  (exists msg,
     handleEdit requests_get args fs
     = (inl (InternalException (lit "Error updating configuration: " ++ msg)), fs))
  \/ (exists e fs1,
        _write_config args fs = (inl e, fs1)
        /\ handleEdit requests_get args fs
           = (inl (InternalException (lit "Error updating configuration: " ++ exn_str e)),
              fs1))
  \/ (exists fs1 fs2,
        _write_config args fs = (inr tt, fs1)
        /\ _mark_configured fs1 = (inr tt, fs2)
        /\ handleEdit requests_get args fs = (inr tt, fs2)).
Proof.
  assert (forall fs0 : FileSystem,
            fs0 = fs ->
            (exists e fs1,
               _write_config args fs = (inl e, fs1)
               /\ match (let (s, fs') := _write_config args fs0 in
                         match s with
                         | inl e0 => (inl e0, fs')
                         | inr _ => _mark_configured fs'
                         end) with
                  | (inl e0, fs') =>
                      raise (InternalException (lit "Error updating configuration: "
                                                ++ exn_str e0)) fs'
                  | (inr a, fs') => (inr a, fs')
                  end
                  = (inl (InternalException (lit "Error updating configuration: "
                                             ++ exn_str e)), fs1))
            \/ (exists fs1 fs2,
                  _write_config args fs = (inr tt, fs1)
                  /\ _mark_configured fs1 = (inr tt, fs2)
                  /\ match (let (s, fs') := _write_config args fs0 in
                            match s with
                            | inl e0 => (inl e0, fs')
                            | inr _ => _mark_configured fs'
                            end) with
                     | (inl e0, fs') =>
                         raise (InternalException (lit "Error updating configuration: "
                                                   ++ exn_str e0)) fs'
                     | (inr a, fs') => (inr a, fs')
                     end
                     = (inr tt, fs2))) as Htail.
  { intros fs0 ->. destruct (_write_config args fs) as [[e|[]] fs1]; [left; by eexists _, _|].
    right. destruct (mark_configured_cases fs1) as (fs2 & Hm & _). rewrite Hm.
    by eexists _, _. }
  unfold handleEdit, try_except, bind.
  destruct (index0 _ fs) as [[e|endpoint] fs0] eqn:Hi.
  { left. unfold index0 in Hi. destruct (default _ _); [|done].
    injection Hi as <- <-. by eexists. }
  assert (fs0 = fs) as ->.
  { unfold index0 in Hi. destruct (default _ _); [done|]. by injection Hi. }
  clear Hi.
  destruct (truthy endpoint); cbv beta iota.
  - rewrite test_ollama_connection_spec.
    destruct (match requests_get (endpoint ++ lit "/api/tags") with
              | GetRaises _ => false
              | GetResponse status_code _ => (status_code =? 200)%Z
              end); cbn [negb raise ret].
    + right. by apply Htail.
    + left. by eexists.
  - cbn [ret]. right. by apply Htail.
Qed.

(** X6. [handleEdit] (and [handleCreate], which is the same) writes
    the configuration file before the marker file, and reports the
    failure of the first only. When it returns normally, the
    configuration file holds the rendered edit with mode [0o644]; the
    marker file says the app is configured when nothing stood in the way
    of writing it, and is as it was when it could not be opened, without
    the caller being told. When it raises, it raises
    [InternalException("Error updating configuration: ...")], the
    marker file is as it was, and the configuration file is as it was or
    holds the first characters of the rendered edit, as many as had
    reached it. *)
Theorem handleEdit_outcomes (requests_get : str -> GetOutcome)
    (args : gmap str (list str)) (fs : FileSystem) :
  handleCreate requests_get args fs = handleEdit requests_get args fs
  /\ (forall fs',
        handleEdit requests_get args fs = (inr tt, fs') ->
        dfirvault_conf fs' = Some {| content := rendered_config args; mode := 420 |}
        /\ (fault fs (Open AppConf) = None ->
            fault fs (Write AppConf marker_texts) = None ->
            fault fs (Chmod AppConf) = None ->
            app_conf fs' = Some marker_file)
        /\ (forall f, fault fs (Open AppConf) = Some f -> app_conf fs' = app_conf fs))
  /\ (forall e fs',
        handleEdit requests_get args fs = (inl e, fs') ->
        (exists msg, e = InternalException (lit "Error updating configuration: " ++ msg))
        /\ app_conf fs' = app_conf fs
        /\ (dfirvault_conf fs' = dfirvault_conf fs
            \/ exists count,
                 dfirvault_conf fs'
                 = Some {| content := take count (rendered_config args);
                           mode := open_mode DfirvaultConf fs |})).
Proof.
  split; [done|].
  destruct (made_dir_fields fs) as (Hdir & Hconf & Happ & _ & Hflt).
  destruct (handleEdit_steps requests_get args fs)
    as [(msg & ->)|[(e & fs1 & Hw & ->)|(fs1 & fs2 & Hw & Hm & ->)]].
  - split; [by intros fs' [=]|]. intros e fs' [= <- <-]. split; [by eexists|]. auto.
  - split; [by intros fs' [=]|]. intros e' fs' [= <- <-]. split; [by eexists|].
    destruct (write_config_cases args fs)
      as [(Hd & f & Hf & Hw')
         |(Hd & [(Hex & Hw')
                |(Hok & [(f & Hf & Hw')
                        |(Ho & [(f & Hf & Hw')|(Hwr & [(f & Hf & Hw')|(Hc & Hw')])])])])];
      rewrite Hw' in Hw; simplify_eq;
      cbn [set_file app_conf dfirvault_conf]; rewrite ?Hconf, ?Happ; (split; [done|]);
      first [ by left
            | by right; eexists
            | right; exists (length (rendered_config args)); by rewrite firstn_all ].
  - split; [|by intros e' fs' [=]]. intros fs' [= <-].
    rewrite (write_config_runs_success args fs) in Hw
      by (apply write_config_success_runs; by exists fs1).
    simplify_eq.
    destruct (mark_configured_cases
                (set_file DfirvaultConf {| content := rendered_config args; mode := 420 |}
                   (made_dir fs))) as (fs3 & Hm' & H1 & H2 & H3 & _).
    rewrite Hm' in Hm. simplify_eq.
    cbn [set_file dfirvault_conf app_conf local_dir fault] in *.
    rewrite ?Hflt, ?Hdir, ?Happ in *.
    split; [done|]. split; [|done]. intros. apply H2; auto.
Qed.

(** A run behind X6: on a disk where [local/app.conf] cannot be opened,
    the edit returns normally, the configuration is written and no
    marker is. *)
Example handleEdit_without_marker :
  (handleEdit reachable_get clean_edit_args marker_refused_fs).1 = inr tt
  /\ dfirvault_conf (handleEdit reachable_get clean_edit_args marker_refused_fs).2
     = Some {| content := rendered_config clean_edit_args; mode := 420 |}
  /\ app_conf (handleEdit reachable_get clean_edit_args marker_refused_fs).2 = None.
Proof. repeat split; vm_compute; reflexivity. Qed.

(** ** [_read_config], [_load_config] and [handleList] *)

Lemma split_first_no_sep sep s before after :
  split_first sep s = Some (before, after) -> (sep ∉ before) /\ s = before ++ sep :: after.
Proof.
  revert before. induction s as [|c s IH]; intros before; [done|]. cbn [split_first].
  destruct (N.eqb_spec c sep) as [->|Hc].
  - intros [= <- <-]. split; [apply not_elem_of_nil | done].
  - destruct (split_first sep s) as [[b a]|]; [|done]. intros [= <- <-].
    destruct (IH b eq_refl) as [Hb ->]. split; [|done].
    rewrite not_elem_of_cons. split; [by intros ->|done].
Qed.

(** What every entry read from a file satisfies. *)
Lemma read_config_line_invariant (config : gmap str str) (line : str) :
  map_Forall (fun key value => trimmed key /\ trimmed value /\ (61 ∉ key)) config ->
  map_Forall (fun key value => trimmed key /\ trimmed value /\ (61 ∉ key))
    (read_config_line config line).
Proof.
  intros H. unfold read_config_line. cbv zeta.
  destruct (startswith _ _); [done|]. destruct (_ && _); [|done].
  destruct (split_first 61 (strip line)) as [[key value]|] eqn:Hs; [|done].
  apply map_Forall_insert_2; [|done].
  apply split_first_no_sep in Hs as [Hk _].
  repeat split; try apply trimmed_strip. intros Hin. by apply Hk, strip_subseteq.
Qed.

Lemma read_config_lines_invariant (lines : list str) (config : gmap str str) :
  map_Forall (fun key value => trimmed key /\ trimmed value /\ (61 ∉ key)) config ->
  map_Forall (fun key value => trimmed key /\ trimmed value /\ (61 ∉ key))
    (foldl read_config_line config lines).
Proof.
  revert config. induction lines as [|line lines IH]; intros config H; [done|].
  cbn [foldl]. by apply IH, read_config_line_invariant.
Qed.

Lemma read_config_defaults_invariant :
  map_Forall (fun key value => trimmed key /\ trimmed value /\ (61 ∉ key)) read_config_defaults.
Proof.
  unfold read_config_defaults. apply map_Forall_to_list.
  rewrite map_to_list_to_map by (apply (bool_decide_unpack _); vm_compute; exact I).
  unfold trimmed.
  repeat (apply Forall_cons; split; [|]); try apply Forall_nil;
    repeat split; apply (bool_decide_unpack _); vm_compute; exact I.
Qed.

(** X7. [_read_config] never raises and writes nothing. Every key and
    value it returns has no whitespace at its ends and no key holds an
    ['=']. A local file hides the packaged default; with neither file it
    returns the empty mapping, not the defaults; when reading a file
    raises it returns the ten defaults. *)
Theorem read_config_outcome (pkg : Package) (fs : FileSystem) :
  (exists config,
     _read_config pkg fs = (inr config, fs)
     /\ map_Forall (fun key value => trimmed key /\ trimmed value /\ (61 ∉ key)) config)
  /\ (forall file,
        dfirvault_conf fs = Some file -> read_error pkg = None ->
        _read_config pkg fs
        = (inr (foldl read_config_line ∅ (text_lines [] (content file))), fs))
  /\ (dfirvault_conf fs = None -> default_conf pkg = None ->
      _read_config pkg fs = (inr ∅, fs))
  /\ (forall msg,
        read_error pkg = Some msg ->
        (is_Some (dfirvault_conf fs) \/ is_Some (default_conf pkg)) ->
        _read_config pkg fs = (inr read_config_defaults, fs)).
Proof.
  unfold _read_config, try_except, bind, open_first_conf.
  destruct (dfirvault_conf fs) as [file|], (default_conf pkg) as [text|],
    (read_error pkg) as [msg|]; cbn [ret];
    (split; [eexists; split; [reflexivity|];
             first [apply read_config_defaults_invariant
                   | apply read_config_lines_invariant, map_Forall_empty
                   | apply map_Forall_empty]|]);
    repeat split; try done; try (by intros ? [=]); try (by intros ? [= <-]);
    try (by intros ? _ [[? [=]]|[? [=]]]).
Qed.

Lemma load_config_line_agrees (config : gmap str str) (line : str) :
  load_config_line ((PyStr <$> config) ∪ load_config_defaults) line
  = (PyStr <$> read_config_line config line) ∪ load_config_defaults.
Proof.
  unfold load_config_line, read_config_line. cbv zeta.
  destruct (startswith (lit "[") (strip line)); [by rewrite andb_false_r|].
  rewrite andb_true_r.
  destruct (truthy (strip line) && negb (startswith (lit "#") (strip line))); [|done].
  cbn [andb]. destruct (contains (lit "=") (strip line)); [|done].
  destruct (split_first 61 (strip line)) as [[key value]|]; [|done].
  by rewrite fmap_insert, insert_union_l.
Qed.

Lemma load_config_lines_agree (lines : list str) (config : gmap str str) :
  foldl load_config_line ((PyStr <$> config) ∪ load_config_defaults) lines
  = (PyStr <$> foldl read_config_line config lines) ∪ load_config_defaults.
Proof.
  revert config. induction lines as [|line lines IH]; intros config; [done|].
  cbn [foldl]. by rewrite load_config_line_agrees, IH.
Qed.

(** X8. The search command and the REST handler read the same settings
    from the same files: when the file can be read, [_load_config] returns
    what [_read_config] returns, every value as a string, laid over the
    defaults of the search command. *)
Theorem load_config_agrees_with_read_config (pkg : Package) (fs : FileSystem) :
  read_error pkg = None ->
  exists config,
    _read_config pkg fs = (inr config, fs)
    /\ _load_config pkg fs = (PyStr <$> config) ∪ load_config_defaults.
Proof.
  intros Hr.
  unfold _read_config, _load_config, try_except, bind, open_first_conf, first_conf.
  rewrite Hr.
  destruct (dfirvault_conf fs) as [file|], (default_conf pkg) as [text|]; cbn [ret];
    eexists; (split; [reflexivity|]);
    rewrite <- ?load_config_lines_agree; by rewrite fmap_empty, (left_id_L ∅ (∪)).
Qed.

Lemma load_config_agrees_with_read_config_witness :
  exists config,
    _read_config bare_package configured_fs = (inr config, configured_fs)
    /\ _load_config bare_package configured_fs = (PyStr <$> config) ∪ load_config_defaults.
Proof. apply load_config_agrees_with_read_config. reflexivity. Defined.

Lemma load_config_line_keeps (config : gmap str pyval) (line key : str) :
  is_Some (config !! key) -> is_Some (load_config_line config line !! key).
Proof.
  intros H. unfold load_config_line. cbv zeta.
  destruct (_ && _); [|done]. destruct (contains _ _); [|done].
  destruct (split_first 61 (strip line)) as [[k v]|]; [|done].
  destruct (decide (strip k = key)) as [->|Hne].
  - rewrite lookup_insert_eq. by eexists.
  - by rewrite lookup_insert_ne.
Qed.

(** X9. Whatever the files hold, and whether or not they can be read,
    the configuration of the search command has a value under each of its
    eight settings, so no lookup of the pipeline falls back on the default
    written at the lookup. *)
Theorem load_config_has_every_default (pkg : Package) (fs : FileSystem) (key : str) :
  is_Some (load_config_defaults !! key) -> is_Some (_load_config pkg fs !! key).
Proof.
  intros H. unfold _load_config.
  destruct (first_conf pkg fs) as [text|]; [|done].
  generalize (match read_error pkg with
              | Some _ => take (lines_read pkg) (text_lines [] text)
              | None => text_lines [] text
              end). intros lines.
  revert H. generalize load_config_defaults.
  induction lines as [|line lines IH]; intros config H; [done|].
  cbn [foldl]. by apply IH, load_config_line_keeps.
Qed.

Lemma load_config_has_every_default_witness :
  is_Some (_load_config bare_package configured_fs !! lit "timeout").
Proof.
  apply load_config_has_every_default. vm_compute. by eexists.
Defined.

(** X10. [handleList] never raises and writes nothing, whatever the
    Ollama server does: it returns every stored setting as it was read,
    and under ['available_models'] the models of the stored endpoint
    (of [http://localhost:11434] when none is stored), the empty list when
    the server cannot be asked. *)
Theorem handleList_outcome (pkg : Package) (requests_get : str -> GetOutcome)
    (fs : FileSystem) :
  exists conf_item config models,
    handleList pkg requests_get fs = (inr conf_item, fs)
    /\ _read_config pkg fs = (inr config, fs)
    /\ _fetch_available_models requests_get
         (default (lit "http://localhost:11434") (config !! lit "endpoint")) fs
       = (inr models, fs)
    /\ conf_item !! lit "available_models" = Some (inr models)
    /\ (forall key, key <> lit "available_models" ->
          conf_item !! key = inl <$> config !! key)
    /\ (forall msg,
          requests_get (default (lit "http://localhost:11434") (config !! lit "endpoint")
                          ++ lit "/api/tags") = GetRaises msg ->
          models = []).
Proof.
  assert (exists config, _read_config pkg fs = (inr config, fs)) as [config Hc].
  { unfold _read_config, try_except, bind, open_first_conf.
    destruct (dfirvault_conf fs), (default_conf pkg), (read_error pkg); by eexists. }
  destruct (try_except_total
              (response <- get_tags requests_get
                             (default (lit "http://localhost:11434") (config !! lit "endpoint"));;
               (if (response.1 =? 200)%Z
                then data <- response_json response.2;;
                     models <- py_get (lit "models") (JArr []) data;;
                     entries <- py_iter models;;
                     for_each (py_get (lit "name") (JStr (lit "unknown"))) entries
                else ret [])) [] fs) as [models Hm].
  { apply readonly_bind; [auto with readonly|]. intros response.
    destruct (response.1 =? 200)%Z; [|auto with readonly].
    repeat (apply readonly_bind; [auto with readonly|]; intros ?).
    apply readonly_for_each. auto with readonly. }
  fold (_fetch_available_models requests_get
          (default (lit "http://localhost:11434") (config !! lit "endpoint"))) in Hm.
  eexists _, config, models. unfold handleList, try_except, bind.
  rewrite Hc, Hm. cbn [ret]. repeat split; try done.
  - apply lookup_insert_eq.
  - intros key Hk. by rewrite lookup_insert_ne, lookup_fmap.
  - intros msg Hg. unfold _fetch_available_models, try_except, bind, get_tags in Hm.
    rewrite Hg in Hm. cbn in Hm. by injection Hm.
Qed.

(** ** What reaches the model: [_format_events], [_build_prompt] and [stream] *)

Lemma startswith_spec p s : startswith p s = true <-> exists b, s = p ++ b.
Proof.
  revert s. induction p as [|x p IH]; intros s.
  - split; [by exists s|done].
  - destruct s as [|y s]; cbn [startswith].
    + split; [done|]. by intros [b ?].
    + rewrite andb_true_iff, IH, N.eqb_eq. split.
      * intros [-> [b ->]]. by exists b.
      * intros [b [= -> ->]]. split; [done|by exists b].
Qed.

Lemma contains_spec p s : contains p s = true <-> exists a b, s = a ++ p ++ b.
Proof.
  induction s as [|y s IH].
  - cbn [contains]. rewrite orb_false_r, startswith_spec. split.
    + intros [b H]. by exists [], b.
    + intros (a & b & H). symmetry in H. apply app_eq_nil in H as [-> H]. by exists b.
  - change (contains p (y :: s)) with (startswith p (y :: s) || contains p s).
    rewrite orb_true_iff, startswith_spec, IH. split.
    + intros [[b H]|(a & b & ->)]; [by exists [], b | by exists (y :: a), b].
    + intros ([|x a] & b & H); [left; by exists b|].
      injection H as -> ->. right. by exists a, b.
Qed.

Lemma contains_trans p q s :
  contains p q = true -> contains q s = true -> contains p s = true.
Proof.
  rewrite !contains_spec. intros (a & b & ->) (a' & b' & ->).
  exists (a' ++ a), (b ++ b'). by rewrite <- !(assoc_L (++)).
Qed.

Lemma contains_app_r p a b : contains p b = true -> contains p (a ++ b) = true.
Proof.
  rewrite !contains_spec. intros (a' & b' & ->). exists (a ++ a'), b'.
  by rewrite <- !(assoc_L (++)).
Qed.

Lemma contains_refl p : contains p p = true.
Proof. apply contains_spec. exists [], []. by rewrite app_nil_r. Qed.

Lemma contains_elem_join sep part (parts : list str) :
  part ∈ parts -> contains part (join sep parts) = true.
Proof.
  induction parts as [|p parts IH]; [by intros ?%elem_of_nil|].
  intros [->|Hin]%elem_of_cons.
  - destruct parts as [|q parts]; [apply contains_refl|].
    rewrite join_cons_cons. apply contains_app_l, contains_refl.
  - destruct parts as [|q parts]; [by apply elem_of_nil in Hin|].
    rewrite join_cons_cons. by apply contains_app_r, contains_app_r, IH.
Qed.

Lemma contains_elem_concat part (parts : list str) :
  part ∈ parts -> contains part (concat parts) = true.
Proof.
  induction parts as [|p parts IH]; [by intros ?%elem_of_nil|].
  cbn [concat]. intros [->|Hin]%elem_of_cons.
  - apply contains_app_l, contains_refl.
  - by apply contains_app_r, IH.
Qed.

(** The text of one event holds its heading, a timestamp line when the
    event has a [_time], and a line for every field that is kept. *)
Lemma format_event_holds idx (event : Event) :
  startswith (lit "Event " ++ str_of_nat idx ++ lit ":" ++ nl) (format_event idx event) = true
  /\ (forall t, dict_get (lit "_time") event = Some t ->
        contains (lit "  Timestamp: " ++ t ++ nl) (format_event idx event) = true)
  /\ (forall key value, (key, value) ∈ event -> field_kept key = true ->
        contains (lit "  " ++ key ++ lit ": " ++ value ++ nl) (format_event idx event) = true).
Proof.
  unfold format_event. split; [|split].
  - apply startswith_spec. eexists. by rewrite <- !(assoc_L (++)).
  - intros t ->. apply contains_app_r, contains_app_l, contains_refl.
  - intros key value Hin Hk. apply contains_app_r, contains_app_r.
    apply (contains_elem_concat (lit "  " ++ key ++ lit ": " ++ value ++ nl)).
    apply (list_elem_of_fmap_2 (fun kv : str * str => lit "  " ++ kv.1 ++ lit ": " ++ kv.2 ++ nl)
             _ (key, value)).
    apply list_elem_of_filter. split; [done|].
    unfold sorted. by rewrite merge_sort_Permutation.
Qed.

(** The text of a batch contains the block of each of its events. *)
Lemma format_events_contains_block (events : list Event) (i : nat) (event : Event) :
  events !! i = Some event ->
  contains (format_event (S i) event) (_format_events events) = true.
Proof.
  intros Hi. apply contains_elem_join. apply elem_of_lookup_imap. by exists i, event.
Qed.

(** X11. [_format_events] drops nothing it is meant to keep: the text
    holds the heading [Event i:] of every event, numbered from 1; a line
    [  key: value] for every field whose name does not start with an
    underscore or is [_time] or [_raw]; and for an event with a [_time]
    both a [Timestamp] line and the [_time] line, so the time is given
    twice. *)
Theorem format_events_keeps_fields (events : list Event) (i : nat) (event : Event) :
  events !! i = Some event ->
  contains (lit "Event " ++ str_of_nat (S i) ++ lit ":" ++ nl) (_format_events events) = true
  /\ (forall key value, (key, value) ∈ event -> field_kept key = true ->
        contains (lit "  " ++ key ++ lit ": " ++ value ++ nl) (_format_events events) = true)
  /\ (forall t, dict_get (lit "_time") event = Some t ->
        contains (lit "  Timestamp: " ++ t ++ nl) (_format_events events) = true
        /\ contains (lit "  _time: " ++ t ++ nl) (_format_events events) = true).
Proof.
  intros Hi.
  pose proof (format_events_contains_block events i event Hi) as Hc.
  destruct (format_event_holds (S i) event) as (Hh & Ht & Hf).
  split; [|split].
  - refine (contains_trans _ _ _ _ Hc). apply contains_spec.
    apply startswith_spec in Hh as [b ->]. by exists [], b.
  - intros key value Hin Hk. exact (contains_trans _ _ _ (Hf key value Hin Hk) Hc).
  - intros t Hd. split; [exact (contains_trans _ _ _ (Ht t Hd) Hc)|].
    refine (contains_trans _ _ _ (Hf (lit "_time") t _ eq_refl) Hc).
    unfold dict_get in Hd. by apply elem_of_list_to_map_2 in Hd.
Qed.

Lemma format_events_keeps_fields_witness :
  contains (lit "Event " ++ str_of_nat 2 ++ lit ":" ++ nl) (_format_events (sample_events 3))
  = true
  /\ (forall key value, (key, value) ∈ sample_event 1 -> field_kept key = true ->
        contains (lit "  " ++ key ++ lit ": " ++ value ++ nl) (_format_events (sample_events 3))
        = true)
  /\ (forall t, dict_get (lit "_time") (sample_event 1) = Some t ->
        contains (lit "  Timestamp: " ++ t ++ nl) (_format_events (sample_events 3)) = true
        /\ contains (lit "  _time: " ++ t ++ nl) (_format_events (sample_events 3)) = true).
Proof.
  refine (format_events_keeps_fields (sample_events 3) 1 (sample_event 1) _).
  vm_compute. reflexivity.
Defined.

(** The prompt of a chunk holds the system prompt at its start, and the
    user's question and the formatted events inside. *)
Lemma build_prompt_holds opts config (formatted : str) k previous :
  startswith (lit "System: " ++ cfg_system_prompt config)
    (_build_prompt opts config formatted k previous) = true
  /\ contains (lit "User Question: " ++ prompt opts)
       (_build_prompt opts config formatted k previous) = true
  /\ contains formatted (_build_prompt opts config formatted k previous) = true.
Proof.
  unfold _build_prompt. split; [|split].
  - unfold prompt_parts. cbv zeta. cbn [app]. rewrite join_cons_cons.
    apply startswith_spec. by eexists.
  - apply (contains_trans _ (nl ++ lit "User Question: " ++ prompt opts)).
    + apply contains_app_r, contains_refl.
    + apply contains_elem_join. unfold prompt_parts. cbv zeta.
      rewrite !elem_of_app, !elem_of_cons. auto 10.
  - apply (contains_trans _ (nl ++ nl ++ formatted)).
    + apply contains_app_r, contains_app_r, contains_refl.
    + apply contains_elem_join. unfold prompt_parts. cbv zeta.
      rewrite !elem_of_app, !elem_of_cons. auto 10.
Qed.

Lemma chunk_at_lookup n (records : list Event) j :
  (0 < n)%nat ->
  chunk_at n (S (j / n)) records !! (j mod n)%nat = records !! j.
Proof.
  intros Hn. unfold chunk_at.
  assert (n <> 0)%nat as Hn0 by lia.
  pose proof (Nat.mod_upper_bound j n Hn0).
  rewrite lookup_take_lt by lia. rewrite lookup_drop. f_equal.
  pose proof (Nat.div_mod_eq j n). cbn [Nat.sub]. rewrite Nat.sub_0_r. lia.
Qed.

Lemma div_lt_ceil_div j len n : (0 < n)%nat -> (j < len)%nat -> (j / n < ceil_div len n)%nat.
Proof.
  intros Hn Hj. destruct (ceil_div_spec len n Hn) as [_ H]. specialize (H ltac:(lia)).
  apply Nat.Div0.div_lt_upper_bound. lia.
Qed.

(** X12. In a run whose calls are sent, every kept field of every input
    record reaches the model: when the numeric settings convert (the
    timeout to [seconds]), in a run started on a fresh host with a
    validated chunk size [n], record [j] (counted from 0) is sent in POST
    number [j / n], the one of chunk [j / n + 1]; that POST goes to
    [<endpoint>/api/generate] for the chosen model with that timeout, and
    its prompt starts with the system prompt and holds the user's
    question, the heading of the record inside its chunk and the line
    [  key: value] of each kept field. *)
Theorem stream_sends_every_field (w : World) (opts : Options) (config : Config)
    (records : list Event) (j : nat) (event : Event) (seconds : Z) :
  (1 <= chunk_size opts)%Z ->
  conversions w opts config = inr seconds ->
  records !! j = Some event ->
  exists request,
    posts (stream w opts config records init_host).2 !! (j / Z.to_nat (chunk_size opts))%nat
    = Some request
    /\ url request = cfg_endpoint config ++ lit "/api/generate"
    /\ payload_model request = or_else (model opts) (cfg_model config)
    /\ timeout request = seconds
    /\ startswith (lit "System: " ++ cfg_system_prompt config) (payload_prompt request) = true
    /\ contains (lit "User Question: " ++ prompt opts) (payload_prompt request) = true
    /\ contains (lit "Event " ++ str_of_nat (S (j mod Z.to_nat (chunk_size opts))) ++ lit ":" ++ nl)
         (payload_prompt request) = true
    /\ (forall key value, (key, value) ∈ event -> field_kept key = true ->
          contains (lit "  " ++ key ++ lit ": " ++ value ++ nl) (payload_prompt request) = true).
Proof.
  intros Hlo Hconv Hj. set (n := Z.to_nat (chunk_size opts)).
  assert (0 < n)%nat as Hn by (subst n; lia).
  pose proof (lookup_lt_Some _ _ _ Hj) as Hlt.
  pose proof (div_lt_ceil_div j (length records) n Hn Hlt) as Hk.
  destruct (stream_lookup w opts config Hlo seconds Hconv records (S (j / n))
              ltac:(fold n; lia))
    as (handed & Hp & _).
  fold n in Hp. replace (S (j / n) - 1)%nat with (j / n)%nat in Hp by lia.
  eexists. split; [exact Hp|]. cbn [url payload_model payload_prompt timeout chunk_request].
  destruct (build_prompt_holds opts config (_format_events (chunk_at n (S (j / n)) records))
              (S (j / n)) handed) as (Hs & Hq & He).
  pose proof (chunk_at_lookup n records j Hn) as Hc. rewrite Hj in Hc.
  pose proof (format_events_contains_block _ _ _ Hc) as Hb.
  destruct (format_event_holds (S (j `mod` n)) event) as (Hh & _ & Hf).
  repeat split; try done.
  - refine (contains_trans _ _ _ _ He). refine (contains_trans _ _ _ _ Hb).
    apply contains_spec. apply startswith_spec in Hh as [b ->]. by exists [], b.
  - intros key value Hin Hkept.
    exact (contains_trans _ _ _ (contains_trans _ _ _ (Hf key value Hin Hkept) Hb) He).
Qed.

Lemma stream_sends_every_field_witness :
  exists request,
    posts (stream plain_world (sample_options 2) sample_config (sample_events 5) init_host).2
      !! (3 / Z.to_nat (chunk_size (sample_options 2)))%nat
    = Some request
    /\ url request = cfg_endpoint sample_config ++ lit "/api/generate"
    /\ payload_model request = or_else (model (sample_options 2)) (cfg_model sample_config)
    /\ timeout request = 120%Z
    /\ startswith (lit "System: " ++ cfg_system_prompt sample_config)
         (payload_prompt request) = true
    /\ contains (lit "User Question: " ++ prompt (sample_options 2))
         (payload_prompt request) = true
    /\ contains (lit "Event "
                 ++ str_of_nat (S (3 mod Z.to_nat (chunk_size (sample_options 2))))
                 ++ lit ":" ++ nl)
         (payload_prompt request) = true
    /\ (forall key value, (key, value) ∈ sample_event 3 -> field_kept key = true ->
          contains (lit "  " ++ key ++ lit ": " ++ value ++ nl) (payload_prompt request) = true).
Proof.
  apply (stream_sends_every_field plain_world (sample_options 2) sample_config
           (sample_events 5) 3 (sample_event 3) 120).
  - vm_compute. discriminate.
  - reflexivity.
  - reflexivity.
Defined.

(** ** Every record is analysed once; a failed synthesis *)

Lemma concat_chunks_of_fuel fuel n (records : list Event) :
  (0 < n)%nat -> (length records <= fuel)%nat ->
  concat (chunks_of_fuel fuel n records) = records.
Proof.
  intros Hn. revert records. induction fuel as [|fuel IH]; intros records Hl.
  - by destruct records; [|simpl in Hl; lia].
  - destruct records as [|r records]; [done|].
    cbn [chunks_of_fuel concat].
    rewrite IH by (rewrite length_drop; simpl in *; lia). apply take_drop.
Qed.

Lemma sum_list_length_concat {A} (ls : list (list A)) :
  sum_list (length <$> ls) = length (concat ls).
Proof.
  induction ls as [|l ls IH]; [done|]. cbn. by rewrite length_app, IH.
Qed.

(** X13. Every input record is analysed in exactly one chunk. With a
    validated chunk size [n] and [m] chunks, the event count of the
    record of chunk [k + 1] is [min n (L - k * n)]: [n] for every chunk
    but possibly the last; each count is between 1 and [n]; and the counts
    of the chunk records add up to the number of input records, whatever
    the calls to the model come to. *)
Theorem stream_event_counts (w : World) (opts : Options) (config : Config)
    (records : list Event) (h : Host) :
  (1 <= chunk_size opts)%Z ->
  llm_event_count
    <$> take (ceil_div (length records) (Z.to_nat (chunk_size opts)))
          (stream w opts config records h).1
  = (fun k => Nat.min (Z.to_nat (chunk_size opts))
                (length records - k * Z.to_nat (chunk_size opts)))
      <$> seq 0 (ceil_div (length records) (Z.to_nat (chunk_size opts)))
  /\ Forall (fun out => 1 <= llm_event_count out <= Z.to_nat (chunk_size opts))%nat
       (take (ceil_div (length records) (Z.to_nat (chunk_size opts)))
          (stream w opts config records h).1)
  /\ sum_list (llm_event_count
                 <$> take (ceil_div (length records) (Z.to_nat (chunk_size opts)))
                       (stream w opts config records h).1)
     = length records.
Proof.
  intros Hlo. set (n := Z.to_nat (chunk_size opts)).
  assert (0 < n)%nat as Hn by (subst n; lia).
  rewrite (stream_chunk_records w opts config Hlo). fold n.
  pose proof (run_chunks_records w opts config (cfg_endpoint config)
                (or_else (model opts) (cfg_model config)) (chunks_of n records) 0 None h)
    as [_ Hlen].
  pose proof (run_chunks_event_counts w opts config (cfg_endpoint config)
                (or_else (model opts) (cfg_model config)) (chunks_of n records) 0 None h) as Hc.
  destruct (run_chunks _ _ _ _ _ _ _ _ h) as [outs h1]. cbn [fst] in *.
  rewrite length_chunks_of in Hlen by done.
  rewrite Hc. split; [|split].
  - apply list_eq. intros k. rewrite !list_lookup_fmap.
    destruct (decide (k < ceil_div (length records) n)%nat) as [Hk|Hk].
    + pose proof (chunks_of_lookup n records (S k) Hn ltac:(lia)) as Hck.
      replace (S k - 1)%nat with k in Hck by lia. rewrite Hck.
      rewrite lookup_seq_lt by done. cbn [fmap option_fmap option_map Nat.add].
      f_equal. unfold chunk_at. rewrite length_take, length_drop.
      replace (S k - 1)%nat with k by lia. lia.
    + rewrite lookup_ge_None_2 by (rewrite length_chunks_of by done; lia).
      rewrite lookup_seq_ge by lia. done.
  - apply Forall_forall. intros out Hin.
    apply list_elem_of_lookup in Hin as [i Hi].
    assert ((length <$> chunks_of n records) !! i = Some (llm_event_count out)) as Hl.
    { by rewrite <- Hc, list_lookup_fmap, Hi. }
    rewrite list_lookup_fmap in Hl.
    destruct (chunks_of n records !! i) as [c|] eqn:Hci; [|done].
    injection Hl as <-. apply (chunks_of_nonempty n records c Hn).
    by apply list_elem_of_lookup_2 in Hci.
  - rewrite sum_list_length_concat. unfold chunks_of. by rewrite concat_chunks_of_fuel.
Qed.

Lemma stream_event_counts_witness :
  sum_list (llm_event_count
              <$> take (ceil_div (length (sample_events 5))
                          (Z.to_nat (chunk_size (sample_options 2))))
                    (stream flaky_world (sample_options 2) sample_config
                       (sample_events 5) init_host).1)
  = length (sample_events 5).
Proof.
  apply (stream_event_counts flaky_world (sample_options 2) sample_config
           (sample_events 5) init_host).
  vm_compute. discriminate.
Defined.

(** X14. A failed final synthesis is reported, not raised. When a run
    whose calls are sent has more than one chunk and the synthesis POST
    fails, the run still yields the record of every chunk, and its last
    record is tagged ["FINAL"] with status ["error"], the description of
    the failure as response, no summary, and event count 0 (not the
    number of chunks, which only a successful synthesis reports). *)
Theorem final_synthesis_failure_reported (w : World) (opts : Options) (config : Config)
    (records : list Event) (h : Host) (seconds : Z) (msg : str) :
  (1 <= chunk_size opts)%Z ->
  (1 < ceil_div (length records) (Z.to_nat (chunk_size opts)))%nat ->
  conversions w opts config = inr seconds ->
  failure_message seconds (cfg_endpoint config)
    (requests_post w
       (length (posts h) + ceil_div (length records) (Z.to_nat (chunk_size opts)))
       (final_request opts (cfg_endpoint config)
          (or_else (model opts) (cfg_model config)) seconds
          (ceil_div (length records) (Z.to_nat (chunk_size opts)))))
  = Some msg ->
  length (stream w opts config records h).1
  = S (ceil_div (length records) (Z.to_nat (chunk_size opts)))
  /\ last (stream w opts config records h).1
     = Some {| _time := time_time w (ticks h
                                      + ceil_div (length records) (Z.to_nat (chunk_size opts)));
               llm_chunk := lit "FINAL";
               llm_status := lit "error";
               llm_event_count := 0;
               llm_response := msg;
               llm_summary := None |}.
Proof.
  intros Hlo Hm Hconv Hf. rewrite (stream_run w opts config Hlo).
  pose proof (run_chunks_effects w opts config (cfg_endpoint config)
                (or_else (model opts) (cfg_model config)) seconds Hconv
                (chunks_of (Z.to_nat (chunk_size opts)) records) 0 None h)
    as (more & Hp & Hlen & Ht & Ho).
  destruct (run_chunks _ _ _ _ _ _ _ _ h) as [outs h1]. cbn [fst snd] in *.
  rewrite length_chunks_of in Hlen, Ht, Ho by lia.
  rewrite (final_synthesis_sent w opts config _ _ seconds Hconv).
  apply Nat.ltb_lt in Hm. rewrite Hm. cbn [fst].
  rewrite length_app, Ho, last_snoc. split; [simpl; lia|].
  rewrite Hp, length_app, Hlen, Ht. f_equal. unfold final_record.
  destruct (requests_post w _ _); cbn [failure_message] in Hf; try done;
    injection Hf as <-; done.
Qed.

Lemma final_synthesis_failure_reported_witness :
  length (stream down_world (sample_options 2) sample_config (sample_events 3) init_host).1
  = S (ceil_div (length (sample_events 3)) (Z.to_nat (chunk_size (sample_options 2))))
  /\ last (stream down_world (sample_options 2) sample_config (sample_events 3) init_host).1
     = Some {| _time := time_time down_world
                          (ticks init_host
                           + ceil_div (length (sample_events 3))
                               (Z.to_nat (chunk_size (sample_options 2))));
               llm_chunk := lit "FINAL";
               llm_status := lit "error";
               llm_event_count := 0;
               llm_response := lit "Cannot connect to Ollama at http://localhost:11434. Ensure Ollama is running.";
               llm_summary := None |}.
Proof.
  apply (final_synthesis_failure_reported down_world (sample_options 2) sample_config
           (sample_events 3) init_host 120).
  - vm_compute. discriminate.
  - vm_compute. lia.
  - reflexivity.
  - reflexivity.
Defined.

(** X16. A numeric setting that does not convert stops every call before
    it is sent. When one of the three conversions that precede the POST
    raises, with message [e], a run makes no POST at all; it still
    yields a record for every chunk, and for the synthesis when there
    is more than one chunk, and every record has status ["error"], [e]
    as response and no summary. *)
Theorem conversion_failure_sends_nothing (w : World) (opts : Options) (config : Config)
    (records : list Event) (h : Host) (e : str) :
  (1 <= chunk_size opts)%Z ->
  conversions w opts config = inl e ->
  posts (stream w opts config records h).2 = posts h
  /\ llm_chunk <$> (stream w opts config records h).1
     = (str_of_nat <$> seq 1 (ceil_div (length records) (Z.to_nat (chunk_size opts))))
       ++ (if (1 <? ceil_div (length records) (Z.to_nat (chunk_size opts)))%nat
           then [lit "FINAL"] else [])
  /\ Forall (fun out => llm_status out = lit "error"
                        /\ llm_response out = e
                        /\ llm_summary out = None)
       (stream w opts config records h).1.
Proof.
  intros Hlo He. split; [|split; [by apply stream_chunk_ids|]].
  - rewrite (stream_run w opts config Hlo).
    rewrite (run_chunks_unsent w opts config _ _ e He).
    rewrite (final_synthesis_unsent w opts config _ _ e He).
    by destruct (1 <? _)%nat.
  - rewrite (stream_run w opts config Hlo).
    rewrite (run_chunks_unsent w opts config _ _ e He).
    rewrite (final_synthesis_unsent w opts config _ _ e He).
    destruct (1 <? _)%nat; cbn [fst]; apply Forall_app; split;
      try (by repeat constructor);
      apply Forall_forall; intros out (i & c & -> & _)%elem_of_lookup_imap; done.
Qed.

Lemma conversion_failure_sends_nothing_witness :
  posts (stream plain_world (sample_options 2) edited_config (sample_events 5) init_host).2
  = posts init_host
  /\ llm_chunk
       <$> (stream plain_world (sample_options 2) edited_config (sample_events 5) init_host).1
     = (str_of_nat <$> seq 1 (ceil_div (length (sample_events 5))
                                 (Z.to_nat (chunk_size (sample_options 2)))))
       ++ (if (1 <? ceil_div (length (sample_events 5))
                      (Z.to_nat (chunk_size (sample_options 2))))%nat
           then [lit "FINAL"] else [])
  /\ Forall (fun out => llm_status out = lit "error"
                        /\ llm_response out
                           = lit "invalid literal for int() with base 10: '1.5'"
                        /\ llm_summary out = None)
       (stream plain_world (sample_options 2) edited_config (sample_events 5) init_host).1.
Proof.
  apply (conversion_failure_sends_nothing plain_world (sample_options 2) edited_config
           (sample_events 5) init_host).
  - vm_compute. discriminate.
  - reflexivity.
Defined.

(** ** From the setup page to the search command *)

(** The file system after an edit that did not raise. *)
Lemma handleEdit_success_state (requests_get : str -> GetOutcome)
    (args : gmap str (list str)) (fs fs' : FileSystem) :
  handleEdit requests_get args fs = (inr tt, fs') ->
  dfirvault_conf fs' = Some {| content := rendered_config args; mode := 420 |}.
Proof.
  intros H.
  destruct (handleEdit_steps requests_get args fs)
    as [(msg & He)|[(e & fs1 & Hw & He)|(fs1 & fs2 & Hw & Hm & He)]];
    rewrite He in H; try discriminate. injection H as <-.
  rewrite (write_config_runs_success args fs) in Hw
    by (apply write_config_success_runs; by exists fs1).
  simplify_eq.
  destruct (mark_configured_cases
              (set_file DfirvaultConf {| content := rendered_config args; mode := 420 |}
                 (made_dir fs))) as (fs3 & Hm' & H1 & _).
  rewrite Hm' in Hm. simplify_eq. by rewrite H1.
Qed.

(** X15. What is saved on the setup page is what the search command
    uses. After an edit that did not raise, whose values are single lines,
    [_load_config] of the search command finds under each of the ten
    settings of the form the value written for it, stripped of surrounding
    whitespace and always as a string, also for the numeric settings. *)
Theorem edit_reaches_search_command (pkg : Package) (requests_get : str -> GetOutcome)
    (args : gmap str (list str)) (fs fs' : FileSystem) :
  read_error pkg = None ->
  Forall (fun entry => one_line (written_value args entry)) config_keys ->
  handleEdit requests_get args fs = (inr tt, fs') ->
  forall entry, entry ∈ config_keys ->
    _load_config pkg fs' !! entry.1 = Some (PyStr (strip (written_value args entry))).
Proof.
  intros Hr Ha He entry Hin. apply handleEdit_success_state in He.
  unfold _load_config, first_conf. rewrite He, Hr. cbn [content].
  rewrite <- (left_id_L ∅ (∪) load_config_defaults), <- (fmap_empty PyStr).
  rewrite load_config_lines_agree, read_rendered_config by done.
  destruct (foldl_insert_lookup (fun e => strip (written_value args e)) config_keys ∅
              config_keys_NoDup) as [H1 _].
  apply lookup_union_Some_l. by rewrite lookup_fmap, (H1 entry Hin).
Qed.

Lemma edit_reaches_search_command_witness :
  _load_config bare_package
    (handleEdit reachable_get clean_edit_args configured_fs).2 !! (lit "timeout", lit "120").1
  = Some (PyStr (strip (written_value clean_edit_args (lit "timeout", lit "120")))).
Proof.
  apply (edit_reaches_search_command bare_package reachable_get clean_edit_args configured_fs).
  - reflexivity.
  - unfold one_line.
    repeat (apply Forall_cons; split; [|]); try apply Forall_nil;
      apply (bool_decide_unpack _); vm_compute; exact I.
  - assert ((handleEdit reachable_get clean_edit_args configured_fs).1 = inr tt) as H
      by (vm_compute; reflexivity).
    destruct (handleEdit reachable_get clean_edit_args configured_fs) as [r fs'].
    cbn [fst snd] in *. by rewrite H.
  - apply (bool_decide_unpack _). vm_compute. exact I.
Defined.

(** The value behind the witness: the timeout of the edit, as a string. *)
Example edit_reaches_search_command_timeout :
  strip (written_value clean_edit_args (lit "timeout", lit "120")) = lit "60".
Proof. vm_compute. reflexivity. Qed.
